(** * Google-Drive-API: the download, upload and folder tools

    A shallow embedding of [src/download_drive.py],
    [src/drive_upload_to_folder.py] and [src/drive_create_folder.py], with
    the properties of the folder walker, the transfer filter, the size
    accounting, the disk-space gate, the size formatter, the overwrite path
    of the uploader and the upload of a folder.

    Conventions of the embedding.
    - Python [str] is [string]; [bytes] is a list of [Byte.byte]; [int] is
      [Z]; a [dict] keyed by strings is a [gmap string _]; an argument that
      may be [None] is an [option].
    - A Python [float] is the rational number it stands for, and a division
      rounds its exact quotient to 53 significant bits, to nearest, ties to
      even, as binary64 does (the range of the exponent is left aside);
      comparisons and the [.2f] format work on the exact value of the
      float.
    - The local file system is a tree of directories and files, the current
      directory and the [statvfs] answer per path; paths are resolved by
      their normalised components (no symbolic links).
    - The Drive service of the download tool is the tree of the answers of
      its [files().list] queries, each answer being the one page the tool
      reads, together with the bytes its media and export requests return.
      The functions of [download_drive] take every request to be answered;
      [HttpErrors] has the two download functions with their
      [except HttpError] handlers, for a service that refuses requests.
    - The service of the upload tool is the collection of remote files it
      queries and edits, the requests it will refuse ([HttpError], caught
      or not as the source has it), and the log of the requests sent.  A
      name is pasted into a query between quotes as it is: the answer is
      read off the collection when the pasted strings hold no quote and no
      backslash, and is left to the service otherwise.
    - Console output and wall-clock measurements are left out. *)

From stdpp Require Import gmap strings list pretty.
From Stdlib Require Import ZArith QArith Qcanon Qround Qpower Ascii Lqa.
From Stdlib Require Strings.Byte.

Open Scope string_scope.
Open Scope list_scope.
Open Scope Z_scope.

(** ** Python strings *)

Module PyStr.

(** [s.rfind(c)] for a one-character [c]: the highest index at which [c]
    occurs, or [-1]. *)
Fixpoint rfind_from (c : ascii) (s : string) (i last : Z) : Z :=
  match s with
  | EmptyString => last
  | String a s' => rfind_from c s' (i + 1) (if Ascii.eqb a c then i else last)
  end.

Definition rfind (c : ascii) (s : string) : Z := rfind_from c s 0 (-1).

(** [s[:n]] and [s[n:]] for [0 <= n]. *)
Fixpoint take (n : nat) (s : string) : string :=
  match n, s with
  | S n', String a s' => String a (take n' s')
  | _, _ => EmptyString
  end.

Fixpoint drop (n : nat) (s : string) : string :=
  match n, s with
  | S n', String _ s' => drop n' s'
  | _, _ => s
  end.

(** [s[i:j]] for [0 <= i <= j]. *)
Definition slice (s : string) (i j : Z) : string :=
  take (Z.to_nat (j - i)) (drop (Z.to_nat i) s).

Definition startswith (s : string) (c : ascii) : bool :=
  match s with
  | String a _ => Ascii.eqb a c
  | EmptyString => false
  end.

Fixpoint endswith (s : string) (c : ascii) : bool :=
  match s with
  | EmptyString => false
  | String a EmptyString => Ascii.eqb a c
  | String _ s' => endswith s' c
  end.

(** [s.split(c)]: the pieces between the occurrences of [c]; never empty. *)
Fixpoint split (c : ascii) (s : string) : list string :=
  match s with
  | EmptyString => [EmptyString]
  | String a s' =>
      if Ascii.eqb a c then EmptyString :: split c s'
      else match split c s' with
           | w :: ws => String a w :: ws
           | [] => [String a EmptyString]
           end
  end.

(** Truth value of a string, of an optional string and of an optional list
    ([None], [""] and [[]] are false). *)
Definition truthy (s : string) : bool :=
  match s with EmptyString => false | _ => true end.

Definition truthy_opt (o : option string) : bool :=
  match o with Some s => truthy s | None => false end.

Definition truthy_list {A} (o : option (list A)) : bool :=
  match o with Some (_ :: _) => true | _ => false end.

(** [x in l] for an optional list that is known to be true. *)
Definition mem (x : string) (o : option (list string)) : bool :=
  match o with Some l => bool_decide (x ∈ l) | None => false end.

End PyStr.

(** ** [os.path] (posixpath) *)

Module OsPath.
Import PyStr.

(** The loop of [genericpath._splitext] that skips the leading dots of the
    last component: [true] when it returns from inside the loop, that is
    when some character between [filenameIndex] and [dotIndex] is not a
    dot.  [n] is the number of iterations left, [dotIndex - filenameIndex]. *)
Fixpoint splitext_loop (p : string) (filenameIndex : Z) (n : nat) : bool :=
  match n with
  | O => false
  | S n' =>
      if negb (String.eqb (slice p filenameIndex (filenameIndex + 1)) ".")
      then true
      else splitext_loop p (filenameIndex + 1) n'
  end.

(** [os.path.splitext(p)], with [sep = '/'], [altsep = None], [extsep = '.']. *)
Definition splitext (p : string) : string * string :=
  let sepIndex := rfind "/" p in
  let dotIndex := rfind "." p in
  if (sepIndex <? dotIndex)
     && splitext_loop p (sepIndex + 1) (Z.to_nat (dotIndex - (sepIndex + 1)))
  then (take (Z.to_nat dotIndex) p, drop (Z.to_nat dotIndex) p)
  else (p, EmptyString).

(** [os.path.join(a, b)]. *)
Definition join (a b : string) : string :=
  if startswith b "/" then b
  else if negb (truthy a) || endswith a "/" then a +:+ b
  else a +:+ "/" +:+ b.

(** [os.path.join(a, *p)]. *)
Definition join_all (a : string) (p : list string) : string :=
  fold_left join p a.

(** The component loop of [os.path.normpath] for a path with initial
    slashes, as [abspath] always produces: empty and ["."] components are
    skipped, [".."] removes the component before it, if any. *)
Fixpoint normpath_loop (comps new_comps : list string) : list string :=
  match comps with
  | [] => new_comps
  | comp :: rest =>
      if bool_decide (comp = "") || bool_decide (comp = ".")
      then normpath_loop rest new_comps
      else if bool_decide (comp = "..")
           then normpath_loop rest (removelast new_comps)
           else normpath_loop rest (new_comps ++ [comp])
  end.

(** The non-empty components of [os.path.abspath(path)], given the current
    directory. *)
Definition abspath_list (cwd path : string) : list string :=
  normpath_loop (split "/" (join cwd path)) [].

(** The length of the common prefix of two component lists. *)
Fixpoint commonprefix_len (a b : list string) : nat :=
  match a, b with
  | x :: a', y :: b' => if bool_decide (x = y) then S (commonprefix_len a' b') else O
  | _, _ => O
  end.

(** [os.path.relpath(path, start)]. *)
Definition relpath (cwd path start : string) : string :=
  let start_list := abspath_list cwd start in
  let path_list := abspath_list cwd path in
  let i := commonprefix_len start_list path_list in
  let rel_list := replicate (length start_list - i)%nat ".." ++ List.skipn i path_list in
  match rel_list with
  | [] => "."
  | a :: p => join_all a p
  end.

End OsPath.

(** ** Python floats *)

Module PyFloat.

(** A float is the rational it stands for. *)
Definition float := Qc.

Definition of_int (z : Z) : float := Q2Qc (inject_Z z).

Definition ltb (x y : float) : bool :=
  match (x ?= y)%Qc with Lt => true | _ => false end.

Definition gtb (x y : float) : bool := ltb y x.

(** The integer nearest to [x], ties to the even one. *)
Definition round_half_even (x : float) : Z :=
  let f := Qfloor x in
  match (x - of_int f ?= Q2Qc (1 # 2))%Qc with
  | Lt => f
  | Gt => f + 1
  | Eq => if Z.even f then f else f + 1
  end.

(** [2.0 ** e] for an integer [e] of either sign. *)
Definition pow2 (e : Z) : float := Q2Qc (2 ^ e)%Q.

(** The exponent of a positive [x]: the [e] with
    [2 ** e <= x < 2 ** (e + 1)]. *)
Definition exponent (x : float) : Z :=
  let l := Z.log2 (Qnum x) - Z.log2 (Zpos (Qden x)) in
  if ltb x (pow2 l) then l - 1 else l.

(** The number with 53 significant bits nearest to a positive [x], ties to
    the even significand. *)
Definition nearest53 (x : float) : float :=
  let e := exponent x - 52 in
  (of_int (round_half_even (x * pow2 (- e))) * pow2 e)%Qc.

(** The rounding of every binary64 operation: to nearest, ties to even.
    The range of the exponent is left out (no overflow, no subnormal
    numbers): the quotients of the sources lie far inside it for every
    integer below [2 ** 1023]. *)
Definition binary64 (x : float) : float :=
  match (x ?= of_int 0)%Qc with
  | Eq => x
  | Gt => nearest53 x
  | Lt => (- nearest53 (- x))%Qc
  end.

(** [a / b] on two integers: Python rounds the exact quotient once.  The
    sources divide by [1024 ** 3] only, never by zero. *)
Definition truediv (a b : Z) : float := binary64 (of_int a / of_int b)%Qc.

(** [x / y] where [x] is a float, or an integer that Python divides
    exactly before it rounds. *)
Definition fdiv (x y : float) : float := binary64 (x / y)%Qc.

Definition two_digits (n : Z) : string :=
  if n <? 10 then "0" +:+ pretty n else pretty n.

(** [f"{x:.2f}"]: the decimal with two fractional digits nearest to [x],
    ties to the even one. *)
Definition format_2f (x : float) : string :=
  let neg := ltb x (of_int 0) in
  let h := round_half_even ((if neg then - x else x) * of_int 100)%Qc in
  (if neg then "-" else "")
  +:+ pretty (h / 100) +:+ "." +:+ two_digits (h mod 100).

End PyFloat.

(** ** The local file system *)

Module LocalFs.
Import PyStr.

Definition bytes := list Byte.byte.

#[warnings="-register-all"]
Inductive fsnode :=
| FsFile (data : bytes)
| FsDir (entries : list (string * fsnode)).

(** The fields of [os.statvfs] that the tool reads. *)
Record statvfs_result := { f_frsize : Z; f_blocks : Z; f_bavail : Z }.

Record fs_state := {
  fs_root : fsnode;
  fs_cwd : string;
  fs_statvfs : string → statvfs_result
}.

Definition is_dir (n : fsnode) : bool :=
  match n with FsDir _ => true | FsFile _ => false end.

Fixpoint entry (name : string) (es : list (string * fsnode)) : option fsnode :=
  match es with
  | [] => None
  | (n, x) :: es' => if bool_decide (n = name) then Some x else entry name es'
  end.

Fixpoint set_entry (name : string) (x : fsnode) (es : list (string * fsnode))
  : list (string * fsnode) :=
  match es with
  | [] => [(name, x)]
  | (n, y) :: es' =>
      if bool_decide (n = name) then (n, x) :: es' else (n, y) :: set_entry name x es'
  end.

Fixpoint fs_find (comps : list string) (n : fsnode) : option fsnode :=
  match comps with
  | [] => Some n
  | c :: cs =>
      match n with
      | FsDir es => match entry c es with Some ch => fs_find cs ch | None => None end
      | FsFile _ => None
      end
  end.

(** The node a path names; the empty path names nothing. *)
Definition lookup (st : fs_state) (path : string) : option fsnode :=
  if truthy path then fs_find (OsPath.abspath_list (fs_cwd st) path) (fs_root st)
  else None.

Definition os_path_exists (st : fs_state) (path : string) : bool :=
  bool_decide (is_Some (lookup st path)).

(** [os.path.getsize]; [None] stands for the [OSError] of a missing path
    (the sources ask for the size of regular files only). *)
Definition os_path_getsize (st : fs_state) (path : string) : option Z :=
  match lookup st path with
  | Some (FsFile data) => Some (Z.of_nat (length data))
  | _ => None
  end.

(** [os.walk(top)], top-down: one triple [(root, dirs, files)] per directory
    reached; nothing when [top] is not a directory. *)
Fixpoint walk_node (top : string) (n : fsnode)
  : list (string * list string * list string) :=
  match n with
  | FsFile _ => []
  | FsDir es =>
      (top, (filter (λ e, is_dir e.2 = true) es).*1,
            (filter (λ e, is_dir e.2 = false) es).*1)
      :: flat_map (λ e, match e with
                        | (dirname, FsDir _ as ch) => walk_node (OsPath.join top dirname) ch
                        | _ => []
                        end) es
  end.

Definition os_walk (st : fs_state) (top : string)
  : list (string * list string * list string) :=
  match lookup st top with
  | Some n => walk_node top n
  | None => []
  end.

(** [os.makedirs(path, exist_ok=True)] along a component path; [None] when a
    component is a regular file. *)
Fixpoint fs_makedirs (comps : list string) (n : fsnode) : option fsnode :=
  match n with
  | FsFile _ => None
  | FsDir es =>
      match comps with
      | [] => Some n
      | c :: cs =>
          match fs_makedirs cs (default (FsDir []) (entry c es)) with
          | Some ch => Some (FsDir (set_entry c ch es))
          | None => None
          end
      end
  end.

(** [open(path, 'wb')] followed by [write(data)] along a component path;
    [None] when the parent is not a directory or the path is one. *)
Fixpoint fs_write (comps : list string) (data : bytes) (n : fsnode) : option fsnode :=
  match comps, n with
  | [], _ => None
  | _, FsFile _ => None
  | [c], FsDir es =>
      match entry c es with
      | Some (FsDir _) => None
      | _ => Some (FsDir (set_entry c (FsFile data) es))
      end
  | c :: cs, FsDir es =>
      match entry c es with
      | Some ch =>
          match fs_write cs data ch with
          | Some ch' => Some (FsDir (set_entry c ch' es))
          | None => None
          end
      | None => None
      end
  end.

Definition with_root (st : fs_state) (r : fsnode) : fs_state :=
  {| fs_root := r; fs_cwd := fs_cwd st; fs_statvfs := fs_statvfs st |}.

Definition makedirs (st : fs_state) (path : string) : option fs_state :=
  if truthy path
  then with_root st <$> fs_makedirs (OsPath.abspath_list (fs_cwd st) path) (fs_root st)
  else None.

Definition write_file (st : fs_state) (path : string) (data : bytes) : option fs_state :=
  if truthy path
  then with_root st <$> fs_write (OsPath.abspath_list (fs_cwd st) path) data (fs_root st)
  else None.

End LocalFs.

(** ** Effects: a state and exception monad *)

Module Eff.

(** The exceptions the scripts can meet. *)
Inductive exn := OSError | HttpError | KeyError | IndexError.

(** How a computation ends: with a value, by [exit(code)], or with an
    exception that nothing has caught yet. *)
Inductive outcome (A : Type) :=
| Ok (a : A)
| Exit (code : Z)
| Raise (e : exn).
Arguments Ok {A} a.
Arguments Exit {A} code.
Arguments Raise {A} e.

Definition M (S A : Type) : Type := S → outcome A * S.

#[global] Instance M_ret {S} : MRet (M S) := λ A a s, (Ok a, s).

#[global] Instance M_bind {S} : MBind (M S) := λ A B f m s,
  match m s with
  | (Ok a, s') => f a s'
  | (Exit c, s') => (Exit c, s')
  | (Raise e, s') => (Raise e, s')
  end.

Definition get {S} : M S S := λ s, (Ok s, s).
Definition put {S} (s : S) : M S unit := λ _, (Ok tt, s).
Definition exit {S A} (code : Z) : M S A := λ s, (Exit code, s).
Definition raise {S A} (e : exn) : M S A := λ s, (Raise e, s).

(** The exit status of the process: 0 at the end of the script, the
    argument of [exit], 1 for an uncaught exception. *)
Definition status {A} (o : outcome A) : Z :=
  match o with Ok _ => 0 | Exit c => c | Raise _ => 1 end.

End Eff.

(** ** [download_drive.py] *)

Module download_drive.
Import PyStr PyFloat LocalFs Eff.

(** *** The Drive service, read-only *)

(** The fields the tool asks for: [files(id, name, mimeType, size)].  The
    API sends [size] as a string of decimal digits, which [int()] reads
    back; folders and native documents have none. *)
Record item := {
  item_id : string;
  item_name : string;
  item_mimeType : string;
  item_size : option Z
}.

(** A remote item together with the [files] that the query
    ['<id>' in parents and trashed = false] returns for it, in the order of
    the answer: the one page that the tool reads, for it asks for no other
    ([Spec.first_page] cuts what a folder holds to a page).  A call
    [f(service, folder_id, ...)] of the source is a call on the node of that
    folder. *)
#[warnings="-register-all"]
Inductive rnode := RNode (it : item) (files : list rnode).

Definition node_item (n : rnode) : item := match n with RNode it _ => it end.
Definition node_files (n : rnode) : list rnode := match n with RNode _ fs => fs end.

Record service := {
  svc_node : rnode;                        (* the item of [folder_or_file_id] *)
  svc_media : string → bytes;              (* [get_media(fileId)] *)
  svc_export : string → string → bytes     (* [export_media(fileId, mimeType)] *)
}.

Definition FOLDER : string := "application/vnd.google-apps.folder".

(** *** The world of the tool *)

Inductive event :=
| files_list (parent : string)
| files_get (fileId : string)
| files_get_media (fileId : string)
| files_export_media (fileId mimeType : string)
| os_walk_ev (top : string)
| os_statvfs_ev (path : string)
| os_makedirs_ev (path : string)
| os_write_ev (path : string) (data : bytes).

Record world := { w_fs : fs_state; w_trace : list event }.

Definition log (e : event) : M world unit :=
  λ w, (Ok tt, {| w_fs := w_fs w; w_trace := w_trace w ++ [e] |}).

Definition read_fs : M world fs_state := λ w, (Ok (w_fs w), w).

(** A file-system update that raises [OSError] when it fails. *)
Definition update_fs (f : fs_state → option fs_state) : M world unit :=
  λ w, match f (w_fs w) with
       | Some st => (Ok tt, {| w_fs := st; w_trace := w_trace w |})
       | None => (Raise OSError, w)
       end.

(** *** The functions of the script *)

Definition disk_space : M world (float * float) :=
  log (os_statvfs_ev "/");;
  fs ← read_fs;
  let st := fs_statvfs fs "/" in
  let block_size := f_frsize st in
  let total_blocks := f_blocks st in
  let free_blocks := f_bavail st in
  let total_gb := truediv (total_blocks * block_size) (1024 ^ 3) in
  let free_gb := truediv (free_blocks * block_size) (1024 ^ 3) in
  mret (total_gb, free_gb).

Definition get_file_extension (file_name : string) : string :=
  (OsPath.splitext file_name).2.

(** [os.path.exists] is read off the file system [fs]; the message printed
    by the third test is left out. *)
Definition should_process_file (fs : fs_state) (mime_type file_extension : string)
    (file_path : option string) (mime_types file_extensions : option (list string))
    (return_object overwrite : bool) : bool :=
  if truthy_list mime_types && negb (mem mime_type mime_types) then false
  else if truthy_list file_extensions && negb (mem file_extension file_extensions) then false
  else if negb return_object && negb overwrite && truthy_opt file_path
          && match file_path with Some p => os_path_exists fs p | None => false end
  then false
  else true.

Fixpoint human_readable_size_loop (units : list string) (size : float) : string :=
  match units with
  | unit :: rest =>
      if ltb size (of_int 1024) then format_2f size +:+ " " +:+ unit
      else human_readable_size_loop rest (fdiv size (of_int 1024))
  | [] => format_2f size +:+ " PB"
  end.

Definition human_readable_size (size : float) : string :=
  human_readable_size_loop ["B"; "KB"; "MB"; "GB"; "TB"] size.

Definition export_mime_types : gmap string string :=
  {[ "application/vnd.google-apps.document" := "application/pdf";
     "application/vnd.google-apps.spreadsheet" :=
       "application/vnd.openxmlformats-officedocument.spreadsheetml.sheet";
     "application/vnd.google-apps.presentation" :=
       "application/vnd.openxmlformats-officedocument.presentationml.presentation" ]}.

(** The dictionary returned in return-object mode. *)
Record file_object := {
  fo_file_id : string;
  fo_file_name : string;
  fo_mime_type : string;
  fo_file_extension : string;
  fo_content : bytes
}.

(** The request is built and run to its last chunk; [fh] is the buffer it
    fills.  The result is [None] where the source falls off its end.  The
    service answers here, so that the handler of [HttpError] does not run;
    [HttpErrors.download_file] below is the function with its handler. *)
Definition download_file (svc : service) (file_id file_name mime_type file_extension : string)
    (folder_path : option string) (return_object : bool) : M world (option file_object) :=
  let file_path :=
    match folder_path with
    | Some fp => Some (OsPath.join fp file_name)
    | None => None
    end in
  '(fh, file_name) ←
    match export_mime_types !! mime_type with
    | Some target =>
        log (files_export_media file_id target);;
        mret (svc_export svc file_id target, file_name +:+ file_extension)
    | None =>
        log (files_get_media file_id);;
        mret (svc_media svc file_id, file_name)
    end;
  if return_object
  then mret (Some {| fo_file_id := file_id; fo_file_name := file_name;
                     fo_mime_type := mime_type; fo_file_extension := file_extension;
                     fo_content := fh |})
  else match file_path with
       | Some p =>
           log (os_write_ev p fh);;
           update_fs (λ fs, write_file fs p fh);;
           mret None
       | None => mret None
       end.

(** [x if folder_path else None] *)
Definition join_if (folder_path : option string) (file_name : string) : option string :=
  match folder_path with
  | Some fp => if truthy fp then Some (OsPath.join fp file_name) else None
  | None => None
  end.

(** The function for a service that answers;
    [HttpErrors.download_files_in_folder] below is the function with its
    handler of [HttpError]. *)
Fixpoint download_files_in_folder (svc : service) (folder : rnode)
    (folder_path : option string) (recursive overwrite return_object : bool)
    (mime_types file_extensions : option (list string)) : M world (list file_object) :=
  match folder with
  | RNode it items =>
      log (files_list (item_id it));;
      match items with
      | [] => mret []
      | _ :: _ =>
          (match folder_path with
           | Some fp =>
               if negb return_object
               then log (os_makedirs_ev fp);; update_fs (λ fs, makedirs fs fp)
               else mret tt
           | None => mret tt
           end);;
          (fix loop (items : list rnode) (file_objects : list file_object)
             : M world (list file_object) :=
             match items with
             | [] => mret file_objects
             | item :: rest =>
                 let file_id := item_id (node_item item) in
                 let file_name := item_name (node_item item) in
                 let mime_type := item_mimeType (node_item item) in
                 let file_extension := get_file_extension file_name in
                 if bool_decide (mime_type = FOLDER)
                 then
                   if recursive
                   then
                     let subfolder_path := join_if folder_path file_name in
                     objs ← download_files_in_folder svc item subfolder_path recursive
                              overwrite return_object mime_types file_extensions;
                     loop rest (file_objects ++ objs)
                   else loop rest file_objects
                 else
                   let file_path := join_if folder_path file_name in
                   fs ← read_fs;
                   if negb (should_process_file fs mime_type file_extension file_path
                              mime_types file_extensions return_object overwrite)
                   then loop rest file_objects
                   else
                     file_object ← download_file svc file_id file_name mime_type
                                     file_extension folder_path return_object;
                     match file_object with
                     | Some fo =>
                         if return_object then loop rest (file_objects ++ [fo])
                         else loop rest file_objects
                     | None => loop rest file_objects
                     end
             end) items []
      end
  end.

(** The function for a service that answers its [files().get] and what
    follows. *)
Definition process_drive_item (svc : service) (local_folder_path : option string)
    (recursive overwrite return_object : bool)
    (mime_types file_extensions : option (list string)) : M world (list file_object) :=
  let item := node_item (svc_node svc) in
  log (files_get (item_id item));;
  let mime_type := item_mimeType item in
  let item_name := item_name item in
  let file_extension := get_file_extension item_name in
  if bool_decide (mime_type = FOLDER)
  then download_files_in_folder svc (svc_node svc) local_folder_path recursive overwrite
         return_object mime_types file_extensions
  else
    let file_path := join_if local_folder_path item_name in
    fs ← read_fs;
    if negb (should_process_file fs mime_type file_extension file_path
               mime_types file_extensions return_object overwrite)
    then mret []
    else
      file_object ← download_file svc (item_id item) item_name mime_type file_extension
                      local_folder_path return_object;
      match file_object with
      | Some fo => if return_object then mret [fo] else mret []
      | None => mret []
      end.

(** The dictionary the walker yields; [rf_size] is [item.get('size', 0)] as
    [int()] reads it. *)
Record remote_file := {
  rf_id : string;
  rf_name : string;
  rf_mimeType : string;
  rf_size : Z;
  rf_path : string
}.

(** The generator, run to its end: the list of what it yields. *)
Fixpoint fetch_files_in_folder (folder : rnode) (recursive : bool) (current_path : string)
  : M world (list remote_file) :=
  match folder with
  | RNode it items =>
      log (files_list (item_id it));;
      (fix loop (items : list rnode) : M world (list remote_file) :=
         match items with
         | [] => mret []
         | item :: rest =>
             let i := node_item item in
             let item_path := OsPath.join current_path (item_name i) in
             if bool_decide (item_mimeType i = FOLDER) && recursive
             then
               ys ← fetch_files_in_folder item recursive item_path;
               zs ← loop rest;
               mret (ys ++ zs)
             else
               zs ← loop rest;
               mret ({| rf_id := item_id i; rf_name := item_name i;
                        rf_mimeType := item_mimeType i;
                        rf_size := default 0 (item_size i);
                        rf_path := item_path |} :: zs)
         end) items
  end.

(** The scan of the destination folder: relative path to size. *)
Fixpoint local_files_loop (fs : fs_state) (local_folder_path root : string)
    (files : list string) (local_files : gmap string Z) : option (gmap string Z) :=
  match files with
  | [] => Some local_files
  | name :: rest =>
      let local_file_path := OsPath.join root name in
      let relative_path := OsPath.relpath (fs_cwd fs) local_file_path local_folder_path in
      match os_path_getsize fs local_file_path with
      | Some sz =>
          local_files_loop fs local_folder_path root rest (<[relative_path := sz]> local_files)
      | None => None
      end
  end.

Fixpoint local_files_walk (fs : fs_state) (local_folder_path : string)
    (triples : list (string * list string * list string)) (local_files : gmap string Z)
  : option (gmap string Z) :=
  match triples with
  | [] => Some local_files
  | (root, _, files) :: rest =>
      match local_files_loop fs local_folder_path root files local_files with
      | Some local_files' => local_files_walk fs local_folder_path rest local_files'
      | None => None
      end
  end.

Definition scan_local_files (local_folder_path : string) : M world (gmap string Z) :=
  log (os_walk_ev local_folder_path);;
  fs ← read_fs;
  match local_files_walk fs local_folder_path (os_walk fs local_folder_path) ∅ with
  | Some local_files => mret local_files
  | None => raise OSError
  end.

Fixpoint total_size_loop (remote_files : list remote_file) (local_files : gmap string Z)
    (overwrite : bool) (total_size : Z) : Z :=
  match remote_files with
  | [] => total_size
  | remote_file :: rest =>
      let remote_file_path := rf_path remote_file in
      let remote_file_size := rf_size remote_file in
      if bool_decide (is_Some (local_files !! remote_file_path)) && negb overwrite
      then total_size_loop rest local_files overwrite total_size
      else total_size_loop rest local_files overwrite (total_size + remote_file_size)
  end.

Definition calculate_total_download_size (svc : service) (local_folder_path : string)
    (recursive overwrite : bool) (mime_types file_extensions : option (list string))
  : M world Z :=
  remote_files ← fetch_files_in_folder (svc_node svc) recursive "";
  local_files ← scan_local_files local_folder_path;
  mret (total_size_loop remote_files local_files overwrite 0).

Definition check_disk_space (svc : service) (local_folder_path : option string)
    (recursive : bool) (mime_types file_extensions : option (list string))
    (overwrite : bool) : M world bool :=
  match local_folder_path with
  | Some path =>
      if negb (truthy path) then mret true
      else
        total_size ← calculate_total_download_size svc path recursive overwrite
                       mime_types file_extensions;
        disk_info ← disk_space;
        if gtb (truediv total_size (1024 ^ 3)) disk_info.2 then mret false
        else mret true
  | None => mret true
  end.

(** The parsed command line. *)
Record args := {
  local_folder_path : option string;
  recursive : bool;
  overwrite : bool;
  return_object : bool;
  mime_types : option (list string);
  file_extensions : option (list string)
}.

(** The script body; [svc] is the service positioned at
    [args.folder_or_file_id].  [parser.error] exits with status 2. *)
Definition main (svc : service) (a : args) : M world unit :=
  (if negb (return_object a) && negb (truthy_opt (local_folder_path a))
   then exit 2 else mret tt);;
  enough ← check_disk_space svc (local_folder_path a) (recursive a) (mime_types a)
             (file_extensions a) (overwrite a);
  (if negb enough then exit 1 else mret tt);;
  process_drive_item svc (local_folder_path a) (recursive a) (overwrite a)
    (return_object a) (mime_types a) (file_extensions a);;
  mret tt.

End download_drive.

(** ** [drive_upload_to_folder.py]: the upload of one file *)

Module drive_upload_to_folder.
Import PyStr LocalFs Eff.

(** *** The Drive service, as a collection of files *)

(** A remote file with the fields a client can set, and its content. *)
Record dfile := {
  df_id : string;
  df_name : string;
  df_mimeType : string;
  df_parents : list string;
  df_trashed : bool;
  df_content : bytes
}.

(** Everything the service records of a file but its content. *)
Definition metadata (f : dfile) : string * string * string * list string * bool :=
  (df_id f, df_name f, df_mimeType f, df_parents f, df_trashed f).

(** The [body] of a request: the metadata fields it carries. *)
Record file_metadata := {
  md_name : option string;
  md_mimeType : option string;
  md_parents : option (list string)
}.

Definition FOLDER : string := "application/vnd.google-apps.folder".

(** The two list queries of the scripts, by the strings pasted into them:
    ['<folder_id>' in parents and name='<file_name>' and mimeType!='<folder>' and trashed=false]
    and the same with [mimeType='<folder>']. *)
Inductive query :=
| files_named (file_name folder_id : string)
| folders_named (folder_name parent_id : string).

(** The requests the scripts send. *)
Inductive request :=
| list_request (q : query)
| update_request (fileId : string) (body : option file_metadata) (media_body : option bytes)
| create_request (body : file_metadata) (media_body : option bytes).

(** The local file system; the remote files in the order the service lists
    them; the identifier and the MIME type the service gives to a new
    file; what the service answers to a query that a quote or a backslash
    in a pasted string has turned into another one; for the requests to
    come, in order, whether the service refuses them ([true]: the client
    raises [HttpError]; none is refused once the list is used up); and the
    requests sent so far. *)
Record world := {
  w_fs : fs_state;
  w_drive : list dfile;
  w_new_id : list dfile → string;
  w_guess_mime : string → string;
  w_answer : query → list dfile → list dfile;
  w_faults : list bool;
  w_sent : list request
}.

Definition with_drive (w : world) (d : list dfile) : world :=
  {| w_fs := w_fs w; w_drive := d; w_new_id := w_new_id w; w_guess_mime := w_guess_mime w;
     w_answer := w_answer w; w_faults := w_faults w; w_sent := w_sent w |}.

(** [request.execute()]: the request is sent, and refused or not.  A
    refused request changes nothing on the remote side. *)
Definition send (r : request) : M world unit :=
  λ w, let w' := {| w_fs := w_fs w; w_drive := w_drive w; w_new_id := w_new_id w;
                    w_guess_mime := w_guess_mime w; w_answer := w_answer w;
                    w_faults := tail (w_faults w); w_sent := w_sent w ++ [r] |} in
       match w_faults w with
       | true :: _ => (Raise HttpError, w')
       | _ => (Ok tt, w')
       end.

(** A string that can be pasted between single quotes as it is: it has no
    quote and no backslash. *)
Fixpoint plain (s : string) : bool :=
  match s with
  | EmptyString => true
  | String a s' => negb (Ascii.eqb a "'") && negb (Ascii.eqb a "\") && plain s'
  end.

(** What the two queries select when the strings pasted are plain. *)
Definition list_files_named (d : list dfile) (file_name folder_id : string) : list dfile :=
  filter (λ f, folder_id ∈ df_parents f ∧ df_name f = file_name
               ∧ df_mimeType f ≠ FOLDER ∧ df_trashed f = false) d.

Definition list_folders_named (d : list dfile) (folder_name parent_id : string) : list dfile :=
  filter (λ f, parent_id ∈ df_parents f ∧ df_name f = folder_name
               ∧ df_mimeType f = FOLDER ∧ df_trashed f = false) d.

(** The [files] of the answer to a list request; the first page is taken to
    hold them. *)
Definition answer (w : world) (q : query) : list dfile :=
  match q with
  | files_named file_name folder_id =>
      if plain file_name && plain folder_id
      then list_files_named (w_drive w) file_name folder_id
      else w_answer w q (w_drive w)
  | folders_named folder_name parent_id =>
      if plain folder_name && plain parent_id
      then list_folders_named (w_drive w) folder_name parent_id
      else w_answer w q (w_drive w)
  end.

(** [files().list(q=query, ...).execute().get('files', [])] *)
Definition files_list (q : query) : M world (list dfile) :=
  send (list_request q);;
  w ← get;
  mret (answer w q).

(** What [files().update(fileId, body, media_body)] does to a file: the
    fields present in the body and the content, if one is sent, replace
    those of the file. *)
Definition update_file (body : option file_metadata) (media_body : option bytes)
    (f : dfile) : dfile :=
  {| df_id := df_id f;
     df_name := default (df_name f) (body ≫= md_name);
     df_mimeType := default (df_mimeType f) (body ≫= md_mimeType);
     df_parents := default (df_parents f) (body ≫= md_parents);
     df_trashed := df_trashed f;
     df_content := default (df_content f) media_body |}.

(** [files().update(...).execute().get("id")]; the service refuses an
    identifier it does not know. *)
Definition files_update (fileId : string) (body : option file_metadata)
    (media_body : option bytes) : M world string :=
  send (update_request fileId body media_body);;
  w ← get;
  if bool_decide (fileId ∈ map df_id (w_drive w))
  then
    put (with_drive w (map (λ f, if bool_decide (df_id f = fileId)
                                 then update_file body media_body f else f) (w_drive w)));;
    mret fileId
  else raise HttpError.

(** [files().create(body, media_body, fields="id").execute().get("id")];
    [path] is the file the media comes from, of which the MIME type is
    guessed when the body gives none. *)
Definition files_create (body : file_metadata) (media_body : option bytes) (path : string)
  : M world string :=
  send (create_request body media_body);;
  w ← get;
  let new_id := w_new_id w (w_drive w) in
  put (with_drive w (w_drive w ++
         [{| df_id := new_id;
             df_name := default "Untitled" (md_name body);
             df_mimeType := default (w_guess_mime w path) (md_mimeType body);
             df_parents := default [] (md_parents body);
             df_trashed := false;
             df_content := default [] media_body |}]));;
  mret new_id.

(** [try: ... except HttpError: ...] *)
Definition try_http {A} (body handler : M world A) : M world A :=
  λ w, match body w with
       | (Raise HttpError, w') => handler w'
       | r => r
       end.

(** *** The functions of the script *)

Definition file_exists (file_name folder_id : string) : M world (option string) :=
  files ← files_list (files_named file_name folder_id);
  match files with
  | f :: _ => mret (Some (df_id f))
  | [] => mret None
  end.

(** [os.path.basename]. *)
Definition basename (p : string) : string :=
  drop (Z.to_nat (rfind "/" p + 1)) p.

(** [MediaFileUpload(file_path)]: the bytes of the local file. *)
Definition MediaFileUpload (file_path : string) : M world bytes :=
  w ← get;
  match lookup (w_fs w) file_path with
  | Some (FsFile data) => mret data
  | _ => raise OSError
  end.

(** [os.path.getsize] raises [OSError] when nothing is at the path; the
    size it returns otherwise is only printed. *)
Definition upload_file (file_path folder_id : string) (overwrite : bool)
  : M world (option string) :=
  let file_name := basename file_path in
  w ← get;
  if negb (os_path_exists (w_fs w) file_path) then raise OSError
  else
    existing_file_id ← file_exists file_name folder_id;
    if truthy_opt existing_file_id
    then
      if overwrite
      then
        try_http
          (media ← MediaFileUpload file_path;
           file_id ← files_update (default "" existing_file_id) None (Some media);
           mret (Some file_id))
          (mret None)
      else mret None
    else
      try_http
        (let file_metadata :=
           {| md_name := Some file_name; md_mimeType := None;
              md_parents := Some [folder_id] |} in
         media ← MediaFileUpload file_path;
         file_id ← files_create file_metadata (Some media) file_path;
         mret (Some file_id))
        (mret None).

End drive_upload_to_folder.

(** ** Notions used to state the properties *)

Module Spec.
Import PyStr PyFloat LocalFs Eff download_drive.

(** *** Remote trees *)

Definition is_folder (i : item) : bool := bool_decide (item_mimeType i = FOLDER).

(** All the items of a tree, parents before children, siblings in order. *)
Fixpoint nodes (n : rnode) : list item :=
  match n with RNode it fs => it :: flat_map nodes fs end.

(** The items below a folder. *)
Definition descendants (folder : rnode) : list item :=
  flat_map nodes (node_files folder).

(** Only folders contain items. *)
Fixpoint well_formed (n : rnode) : bool :=
  match n with
  | RNode it fs =>
      (is_folder it || match fs with [] => true | _ => false end)
      && forallb well_formed fs
  end.

(** The leaves below a folder: its descendants that are not folders. *)
Definition leaves (folder : rnode) : list item :=
  filter (λ i, is_folder i = false) (descendants folder).

Definition leaf_count (folder : rnode) : nat := length (leaves folder).

(** A list request is answered one page at a time, and the script reads
    the first page only: it never sends a [pageToken].  When [n] is a tree
    of all the items the drive holds, [first_page page_size n] is the tree
    of the answers the script sees, with at most [page_size] items under
    each folder (the service puts at most 100 in a page unless the request
    sets [pageSize], which the script does not). *)
Fixpoint first_page (page_size : nat) (n : rnode) : rnode :=
  match n with
  | RNode it fs => RNode it (List.firstn page_size (map (first_page page_size) fs))
  end.

(** No folder of the tree holds more than one page. *)
Fixpoint fits (page_size : nat) (n : rnode) : bool :=
  match n with
  | RNode _ fs => bool_decide (length fs ≤ page_size)%nat && forallb (fits page_size) fs
  end.

(** What a yielded dictionary says of the item, its path left aside. *)
Definition facts (y : remote_file) : string * string * string * Z :=
  (rf_id y, rf_name y, rf_mimeType y, rf_size y).

Definition item_facts (i : item) : string * string * string * Z :=
  (item_id i, item_name i, item_mimeType i, default 0 (item_size i)).

(** The generator read as a function: what a walk of [n] yields, and the
    list queries it sends. *)
Fixpoint yields (recursive : bool) (current_path : string) (n : rnode) : list remote_file :=
  match n with
  | RNode _ items =>
      flat_map (λ item,
        let i := node_item item in
        let item_path := OsPath.join current_path (item_name i) in
        if bool_decide (item_mimeType i = FOLDER) && recursive
        then yields recursive item_path item
        else [{| rf_id := item_id i; rf_name := item_name i;
                 rf_mimeType := item_mimeType i;
                 rf_size := default 0 (item_size i);
                 rf_path := item_path |}]) items
  end.

Fixpoint queries (recursive : bool) (n : rnode) : list event :=
  match n with
  | RNode it items =>
      files_list (item_id it)
      :: flat_map (λ item,
           if bool_decide (item_mimeType (node_item item) = FOLDER) && recursive
           then queries recursive item else []) items
  end.

Definition add_trace (w : world) (evs : list event) : world :=
  {| w_fs := w_fs w; w_trace := w_trace w ++ evs |}.

(** *** Events *)

(** The events that move file content or change the local file system. *)
Definition is_transfer (e : event) : bool :=
  match e with
  | files_get_media _ | files_export_media _ _ | os_makedirs_ev _ | os_write_ev _ _ => true
  | _ => false
  end.

(** *** The transfer filter, in words *)

(** A filter list that is given, not empty, and does not contain [x]. *)
Definition rejects (allowed : option (list string)) (x : string) : Prop :=
  ∃ l, allowed = Some l ∧ l ≠ [] ∧ x ∉ l.

(** Something exists at the destination path. *)
Definition present (fs : fs_state) (file_path : option string) : Prop :=
  ∃ p, file_path = Some p ∧ is_Some (lookup fs p).

(** The extension as the specification words it: the substring from the
    final dot of the file name on, empty when the name has no dot. *)
Definition suffix_from_final_dot (file_name : string) : string :=
  let dotIndex := rfind "." file_name in
  if dotIndex <? 0 then "" else drop (Z.to_nat dotIndex) file_name.

(** The decision of the specification, with that extension. *)
Definition included_as_specified (fs : fs_state) (mime_type file_name : string)
    (file_path : option string) (mime_types file_extensions : option (list string))
    (return_object overwrite : bool) : bool :=
  if truthy_list mime_types && negb (mem mime_type mime_types) then false
  else if truthy_list file_extensions
          && negb (mem (suffix_from_final_dot file_name) file_extensions) then false
  else if negb return_object && negb overwrite
          && match file_path with Some p => os_path_exists fs p | None => false end
  then false
  else true.

(** The index of the last occurrence of a character, by recursion on the
    string. *)
Fixpoint rindex (c : ascii) (s : string) : option nat :=
  match s with
  | EmptyString => None
  | String a s' =>
      match rindex c s' with
      | Some k => Some (S k)
      | None => if Ascii.eqb a c then Some O else None
      end
  end.

(** The part of a name after its last ['/'], and a string without its
    leading dots. *)
Definition last_component (file_name : string) : string :=
  drop (Z.to_nat (rfind "/" file_name + 1)) file_name.

Fixpoint strip_dots (s : string) : string :=
  match s with
  | String a s' => if Ascii.eqb a "." then strip_dots s' else s
  | EmptyString => s
  end.

(** *** The size total and the disk-space gate, in words *)

(** The sum of the declared sizes of a list of remote files. *)
Definition declared_total (l : list remote_file) : Z :=
  foldr (λ y acc, rf_size y + acc) 0 l.

(** A remote file counts unless its path is in the local mapping and
    overwrite is off. *)
Definition counted (local_files : gmap string Z) (overwrite : bool) (y : remote_file) : bool :=
  negb (bool_decide (is_Some (local_files !! rf_path y)) && negb overwrite).

(** The free space, in GB, of the volume that holds [path]. *)
Definition free_gb_at (fs : fs_state) (path : string) : float :=
  let st := fs_statvfs fs path in
  truediv (f_bavail st * f_frsize st) (1024 ^ 3).

(** *** The size formatter, in words *)


Definition kibi : float := of_int 1024.


(** The floats: the numbers of either sign with at most 53 significant
    bits (the range of the exponent left aside). *)
Definition representable (x : float) : Prop :=
  ∃ n t : Z, Z.abs n < 2 ^ 53 ∧ x = (of_int n * pow2 t)%Qc.

End Spec.

(** ** Sample data *)

Module Sample.
Import PyStr PyFloat LocalFs Eff download_drive.

Definition mk (id name mimeType : string) (size : option Z) : item :=
  {| item_id := id; item_name := name; item_mimeType := mimeType; item_size := size |}.

(** A folder with a PDF, a subfolder holding a native document and a
    dot-file, and a text file after the subfolder. *)
Definition tree : rnode :=
  RNode (mk "F" "F" FOLDER None)
    [ RNode (mk "A" "a.pdf" "application/pdf" (Some 500)) [];
      RNode (mk "S" "S" FOLDER None)
        [ RNode (mk "B" "Report" "application/vnd.google-apps.document" None) [];
          RNode (mk "C" ".bashrc" "text/plain" (Some 7)) [] ];
      RNode (mk "D" "notes.txt" "text/plain" (Some 100)) [] ].

(** A folder that holds 101 text files of one byte each. *)
Definition crowded : rnode :=
  RNode (mk "G" "G" FOLDER None)
    (replicate 101 (RNode (mk "T" "t.txt" "text/plain" (Some 1)) [])).

Definition svc : service :=
  {| svc_node := tree;
     svc_media := λ _, [Byte.x68; Byte.x69];
     svc_export := λ _ _, [Byte.x25; Byte.x50; Byte.x44; Byte.x46] |}.

(** A root volume with 500 free blocks of 4096 bytes, a small volume
    mounted at [/mnt/usb] with one free block of 512 bytes. *)
Definition statvfs (path : string) : statvfs_result :=
  if String.prefix "/mnt/usb" path
  then {| f_frsize := 512; f_blocks := 100; f_bavail := 1 |}
  else {| f_frsize := 4096; f_blocks := 1000; f_bavail := 500 |}.

Definition fs : fs_state :=
  {| fs_root :=
       FsDir [("home", FsDir [("u", FsDir [("dl", FsDir [("a.pdf", FsFile [Byte.x00])])])]);
              ("mnt", FsDir [("usb", FsDir [])])];
     fs_cwd := "/home/u";
     fs_statvfs := statvfs |}.

Definition w : world := {| w_fs := fs; w_trace := [] |}.

(** A service that refuses the download of the PDF, and nothing else. *)
Definition refuses_pdf (e : event) : bool :=
  match e with
  | files_get_media fileId => bool_decide (fileId = "A")
  | _ => false
  end.

(** The same files on a root volume that is full. *)
Definition w_full : world :=
  {| w_fs := {| fs_root := fs_root fs; fs_cwd := fs_cwd fs;
                fs_statvfs := λ _, {| f_frsize := 4096; f_blocks := 1000; f_bavail := 0 |} |};
     w_trace := [] |}.

Definition cli (path : option string) (recursive return_object : bool)
    (mime_types : option (list string)) : args :=
  {| local_folder_path := path; recursive := recursive; overwrite := false;
     return_object := return_object; mime_types := mime_types; file_extensions := None |}.

(** The remote side of the upload tool: a folder ["P"] holding ["a.pdf"]. *)
Definition remote : list drive_upload_to_folder.dfile :=
  [ {| drive_upload_to_folder.df_id := "P"; drive_upload_to_folder.df_name := "backup";
       drive_upload_to_folder.df_mimeType := drive_upload_to_folder.FOLDER;
       drive_upload_to_folder.df_parents := ["root"];
       drive_upload_to_folder.df_trashed := false;
       drive_upload_to_folder.df_content := [] |};
    {| drive_upload_to_folder.df_id := "X1"; drive_upload_to_folder.df_name := "a.pdf";
       drive_upload_to_folder.df_mimeType := "application/pdf";
       drive_upload_to_folder.df_parents := ["P"];
       drive_upload_to_folder.df_trashed := false;
       drive_upload_to_folder.df_content := [Byte.x01; Byte.x02] |} ].

Definition uw : drive_upload_to_folder.world :=
  {| drive_upload_to_folder.w_fs := fs;
     drive_upload_to_folder.w_drive := remote;
     drive_upload_to_folder.w_new_id := λ d, "N" +:+ pretty (length d);
     drive_upload_to_folder.w_guess_mime := λ _, "application/octet-stream";
     drive_upload_to_folder.w_answer := λ _ _, [];
     drive_upload_to_folder.w_faults := [];
     drive_upload_to_folder.w_sent := [] |}.

End Sample.

(** ** [drive_create_folder.py] *)

Module drive_create_folder.
Import PyStr LocalFs Eff drive_upload_to_folder.

Definition folder_exists (folder_name starting_folder_id : string) : M world bool :=
  files ← files_list (folders_named folder_name starting_folder_id);
  mret (bool_decide (0 < length files)%nat).

(** [None] is the result of the branch that reports an existing folder, and
    of the handler of [HttpError]. *)
Definition create_folder (folder_name starting_folder_id : string) : M world (option string) :=
  try_http
    (found ← folder_exists folder_name starting_folder_id;
     if (found : bool) then mret None
     else
       let file_metadata :=
         {| md_name := Some folder_name; md_mimeType := Some FOLDER;
            md_parents := Some [starting_folder_id] |} in
       file_id ← files_create file_metadata None "";
       mret (Some file_id))
    (mret None).

End drive_create_folder.

(** ** [drive_upload_to_folder.py]: the upload of a folder, and the script *)

Module upload_folder.
Import PyStr LocalFs Eff drive_upload_to_folder drive_create_folder.

(** A folder identifier as an f-string renders it: [None] reads ["None"]. *)
Definition py_format (folder_id : option string) : string := default "None" folder_id.

(** [results.get('files', [])[0]['id']] raises [IndexError] on an empty
    answer. *)
Definition create_drive_subfolder (parent_folder_id subfolder_name : string)
  : M world (option string) :=
  found ← folder_exists subfolder_name parent_folder_id;
  if (found : bool)
  then
    files ← files_list (folders_named subfolder_name parent_folder_id);
    match files with
    | f :: _ => mret (Some (df_id f))
    | [] => raise IndexError
    end
  else create_folder subfolder_name parent_folder_id.

(** [for directory in dirs] *)
Fixpoint dirs_loop (current_folder_id : option string) (root : string) (dirs : list string)
    (folder_mapping : gmap string (option string))
  : M world (gmap string (option string)) :=
  match dirs with
  | [] => mret folder_mapping
  | directory :: rest =>
      let dir_path := OsPath.join root directory in
      folder_id ← create_drive_subfolder (py_format current_folder_id) directory;
      dirs_loop current_folder_id root rest (<[dir_path := folder_id]> folder_mapping)
  end.

(** [for file in files] *)
Fixpoint files_loop (current_folder_id : option string) (root : string) (files : list string)
    (overwrite : bool) : M world unit :=
  match files with
  | [] => mret tt
  | file :: rest =>
      let file_path := OsPath.join root file in
      upload_file file_path (py_format current_folder_id) overwrite;;
      files_loop current_folder_id root rest overwrite
  end.

(** [for root, dirs, files in os.walk(local_path)]; the walk reads the local
    file system only, which the loop body leaves alone.
    [folder_mapping[root]] raises [KeyError] when [root] is no key. *)
Fixpoint walk_loop (triples : list (string * list string * list string))
    (folder_mapping : gmap string (option string)) (overwrite : bool) : M world unit :=
  match triples with
  | [] => mret tt
  | (root, dirs, files) :: rest =>
      match folder_mapping !! root with
      | None => raise KeyError
      | Some current_folder_id =>
          folder_mapping ← dirs_loop current_folder_id root dirs folder_mapping;
          files_loop current_folder_id root files overwrite;;
          walk_loop rest folder_mapping overwrite
      end
  end.

Definition upload_to_folder (local_path parent_folder_id : string) (overwrite : bool)
  : M world unit :=
  w ← get;
  walk_loop (os_walk (w_fs w) local_path) {[ local_path := Some parent_folder_id ]} overwrite.

Definition os_path_isdir (fs : fs_state) (path : string) : bool :=
  match lookup fs path with Some (FsDir _) => true | _ => false end.

Definition os_path_isfile (fs : fs_state) (path : string) : bool :=
  match lookup fs path with Some (FsFile _) => true | _ => false end.

(** [try: ... except HttpError: ... except Exception: ...], both handlers
    printing a message. *)
Definition try_except {A} (body : M world A) (handler : exn → M world A) : M world A :=
  λ w, match body w with
       | (Raise e, w') => handler e w'
       | r => r
       end.

(** The parsed command line. *)
Record args := {
  drive_folder_id : string;
  local_folder_or_filename : string;
  create_folder_flag : bool;
  overwrite : bool
}.

(** [main()]; its messages are left out. *)
Definition main (a : args) : M world unit :=
  try_except
    (let folder_id := drive_folder_id a in
     w ← get;
     if os_path_isdir (w_fs w) (local_folder_or_filename a)
     then
       let folder_name := basename (local_folder_or_filename a) in
       if create_folder_flag a
       then
         found ← folder_exists folder_name folder_id;
         if (found : bool) then mret tt
         else
           folder_id ← create_folder folder_name folder_id;
           match folder_id with
           | None => mret tt
           | Some folder_id =>
               upload_to_folder (local_folder_or_filename a) folder_id (overwrite a)
           end
       else
         found ← folder_exists folder_name folder_id;
         if negb (found : bool) then mret tt
         else upload_to_folder (local_folder_or_filename a) folder_id (overwrite a)
     else if os_path_isfile (w_fs w) (local_folder_or_filename a)
     then upload_file (local_folder_or_filename a) folder_id (overwrite a);; mret tt
     else mret tt)
    (λ _, mret tt).

End upload_folder.

(** ** Notions for the runs of the upload tool *)

Module UploadOutcome.
Import PyStr LocalFs Eff drive_upload_to_folder drive_create_folder upload_folder.

(** Whether the service refuses the next request, and the world once the
    request [r] has been sent. *)
Definition refused (w : world) : bool :=
  match w_faults w with true :: _ => true | _ => false end.

Definition sent (w : world) (r : request) : world :=
  {| w_fs := w_fs w; w_drive := w_drive w; w_new_id := w_new_id w;
     w_guess_mime := w_guess_mime w; w_answer := w_answer w;
     w_faults := tail (w_faults w); w_sent := w_sent w ++ [r] |}.

(** [w'] is [w] with the remote files [added] at the end, after requests
    that the service has answered; no request to come is refused. *)
Definition quietly_adds (w w' : world) (added : list dfile) : Prop :=
  w_fs w' = w_fs w ∧ w_new_id w' = w_new_id w ∧ w_guess_mime w' = w_guess_mime w
  ∧ w_answer w' = w_answer w ∧ w_faults w' = []
  ∧ w_drive w' = w_drive w ++ added.

(** No request to come is refused, no guessed MIME type is the folder
    type, and the identifiers of the service are plain. *)
Definition ready (w : world) : Prop :=
  w_faults w = []
  ∧ (∀ path, w_guess_mime w path ≠ FOLDER)
  ∧ (∀ d, plain (w_new_id w d) = true)
  ∧ Forall (λ f, plain (df_id f) = true) (w_drive w).

(** How a run can end: with a result, or on the [OSError] of a local file,
    or on the [HttpError] of a refused request. *)
Definition expected {A} (o : outcome A) : Prop :=
  (∃ a, o = Ok a) ∨ o = Raise OSError ∨ o = Raise HttpError.

(** The run has not ended on a [KeyError]. *)
Definition no_key_error {A} (o : outcome A) : bool :=
  match o with
  | Raise KeyError => false
  | _ => true
  end.

(** The file [upload_file] creates for a local file. *)
Definition uploaded (w : world) (file_path folder_id : string) (data : bytes) : dfile :=
  {| df_id := w_new_id w (w_drive w);
     df_name := basename file_path;
     df_mimeType := w_guess_mime w file_path;
     df_parents := [folder_id];
     df_trashed := false;
     df_content := data |}.

(** The request that creates it. *)
Definition upload_request (file_path folder_id : string) (data : bytes) : request :=
  create_request {| md_name := Some (basename file_path); md_mimeType := None;
                    md_parents := Some [folder_id] |} (Some data).

(** The folder [create_folder] creates, and the request that creates it. *)
Definition new_folder (w : world) (folder_name starting_folder_id : string) : dfile :=
  {| df_id := w_new_id w (w_drive w);
     df_name := folder_name;
     df_mimeType := FOLDER;
     df_parents := [starting_folder_id];
     df_trashed := false;
     df_content := [] |}.

Definition folder_request (folder_name starting_folder_id : string) : request :=
  create_request {| md_name := Some folder_name; md_mimeType := Some FOLDER;
                    md_parents := Some [starting_folder_id] |} None.

(** [w'] is [w] with remote files added at the end; the local file system
    and the service are the same. *)
Definition grows (w w' : world) : Prop :=
  w_fs w' = w_fs w ∧ w_new_id w' = w_new_id w ∧ w_guess_mime w' = w_guess_mime w
  ∧ w_answer w' = w_answer w
  ∧ ∃ added, w_drive w' = w_drive w ++ added.

(** The roots of the triples are recorded before they are visited: each is
    known, or made of an earlier root and one of its directories. *)
Fixpoint covered (known : list string) (triples : list (string * list string * list string))
  : Prop :=
  match triples with
  | [] => True
  | (root, dirs, _) :: rest =>
      root ∈ known ∧ covered (map (OsPath.join root) dirs ++ known) rest
  end.

(** [w'] lists every remote file of [w] with the metadata it had, in the
    same order, and then files that are new; the local side is as in [w]. *)
Definition listing_kept (w w' : world) : Prop :=
  w_fs w' = w_fs w ∧ w_new_id w' = w_new_id w ∧ w_guess_mime w' = w_guess_mime w
  ∧ w_answer w' = w_answer w
  ∧ ∃ added, map metadata (w_drive w') = map metadata (w_drive w) ++ added.

(** A folder of that name and identifier, not trashed, under [parent]. *)
Definition has_folder (d : list dfile) (parent name folder_id : string) : Prop :=
  ∃ f, f ∈ d ∧ df_id f = folder_id ∧ df_name f = name ∧ parent ∈ df_parents f
       ∧ df_mimeType f = FOLDER ∧ df_trashed f = false.

(** A file of that name that is no folder, not trashed, under [parent]. *)
Definition has_file (d : list dfile) (parent name : string) : Prop :=
  ∃ f, f ∈ d ∧ df_name f = name ∧ parent ∈ df_parents f
       ∧ df_mimeType f ≠ FOLDER ∧ df_trashed f = false.

(** The keys [dir_path] that the walk over the triples writes to
    [folder_mapping]. *)
Definition keys_of (triples : list (string * list string * list string)) : list string :=
  flat_map (λ t, map (OsPath.join t.1.1) t.1.2) triples.

(** The names pasted into the queries of the walk: its directories, and
    its files as [basename] gives them. *)
Definition names_of (triples : list (string * list string * list string)) : list string :=
  flat_map (λ t, t.1.2 ++ map (λ file, basename (OsPath.join t.1.1 file)) t.2) triples.

(** What the upload leaves for one triple of the walk: the folder recorded
    for [root] holds a folder for each of [dirs], recorded under its path,
    and a file for each of [files]. *)
Definition placed (d : list dfile) (folder_mapping : gmap string (option string))
    (t : string * list string * list string) : Prop :=
  let '(root, dirs, files) := t in
  ∃ current_folder_id,
    folder_mapping !! root = Some current_folder_id
    ∧ (∀ directory, directory ∈ dirs →
         ∃ folder_id,
           folder_mapping !! OsPath.join root directory = Some (Some folder_id)
           ∧ has_folder d (py_format current_folder_id) directory folder_id)
    ∧ (∀ file, file ∈ files →
         has_file d (py_format current_folder_id) (basename (OsPath.join root file))).

End UploadOutcome.

(** ** Notions for the runs of the download tool *)

Module Outcome.
Import PyStr PyFloat LocalFs Eff download_drive Spec.

(** The dictionary the walker yields for an item met under [current_path]. *)
Definition describe (current_path : string) (i : item) : remote_file :=
  {| rf_id := item_id i; rf_name := item_name i; rf_mimeType := item_mimeType i;
     rf_size := default 0 (item_size i);
     rf_path := OsPath.join current_path (item_name i) |}.

(** The free space of the volume of ["/"], in bytes. *)
Definition free_bytes (fs : fs_state) : Z :=
  f_bavail (fs_statvfs fs "/") * f_frsize (fs_statvfs fs "/").

(** The events of [w'] that [w] did not have yet. *)
Definition new_events (w w' : world) : list event :=
  List.skipn (length (w_trace w)) (w_trace w').

(** Every regular file of [fs] is in [fs'] with the same bytes. *)
Definition keeps_files (fs fs' : fs_state) : Prop :=
  ∀ p d, lookup fs p = Some (FsFile d) → lookup fs' p = Some (FsFile d).

(** A yielded item that is no folder and that the MIME and extension lists
    let through: what return-object mode fetches. *)
Definition wanted (fs : fs_state) (mime_types file_extensions : option (list string))
    (overwrite : bool) (y : remote_file) : bool :=
  negb (bool_decide (rf_mimeType y = FOLDER))
  && should_process_file fs (rf_mimeType y) (get_file_extension (rf_name y)) None
       mime_types file_extensions true overwrite.

(** The bytes a download of the item brings, and the dictionary that
    return-object mode builds for it. *)
Definition fetched (svc : service) (file_id mime_type : string) : bytes :=
  match export_mime_types !! mime_type with
  | Some target => svc_export svc file_id target
  | None => svc_media svc file_id
  end.

(** The request a download of the item sends. *)
Definition request_of (file_id mime_type : string) : event :=
  match export_mime_types !! mime_type with
  | Some target => files_export_media file_id target
  | None => files_get_media file_id
  end.

Definition object_of (svc : service) (y : remote_file) : file_object :=
  let file_extension := get_file_extension (rf_name y) in
  {| fo_file_id := rf_id y;
     fo_file_name := match export_mime_types !! rf_mimeType y with
                     | Some _ => rf_name y +:+ file_extension
                     | None => rf_name y
                     end;
     fo_mime_type := rf_mimeType y;
     fo_file_extension := file_extension;
     fo_content := fetched svc (rf_id y) (rf_mimeType y) |}.

(** A computation that does not raise [HttpError]. *)
Definition calm {A} (m : M world A) : Prop := ∀ w, (m w).1 ≠ Raise HttpError.

(** The download of a yielded item is answered by a service that refuses the
    requests [refuses] holds of. *)
Definition answered (refuses : event → bool) (y : remote_file) : bool :=
  negb (refuses (request_of (rf_id y) (rf_mimeType y))).

(** The [for item in items] loop of [download_files_in_folder], from the
    items left and the objects gathered so far. *)
Definition items_loop (svc : service) (folder_path : option string)
    (recursive overwrite return_object : bool)
    (mime_types file_extensions : option (list string))
  : list rnode → list file_object → M world (list file_object) :=
  fix loop (items : list rnode) (file_objects : list file_object) :=
    match items with
    | [] => mret file_objects
    | item :: rest =>
        let file_id := item_id (node_item item) in
        let file_name := item_name (node_item item) in
        let mime_type := item_mimeType (node_item item) in
        let file_extension := get_file_extension file_name in
        if bool_decide (mime_type = FOLDER)
        then
          if recursive
          then
            let subfolder_path := join_if folder_path file_name in
            objs ← download_files_in_folder svc item subfolder_path recursive
                     overwrite return_object mime_types file_extensions;
            loop rest (file_objects ++ objs)
          else loop rest file_objects
        else
          let file_path := join_if folder_path file_name in
          fs ← read_fs;
          if negb (should_process_file fs mime_type file_extension file_path
                     mime_types file_extensions return_object overwrite)
          then loop rest file_objects
          else
            file_object ← download_file svc file_id file_name mime_type
                            file_extension folder_path return_object;
            match file_object with
            | Some fo =>
                if return_object then loop rest (file_objects ++ [fo])
                else loop rest file_objects
            | None => loop rest file_objects
            end
    end.

(** The folders of a tree, parents before children. *)
Definition folders (n : rnode) : list item :=
  filter (λ i, is_folder i = true) (nodes n).

End Outcome.

(** ** [download_drive.py] when the service refuses requests *)

(** The functions of [download_drive] above take every request to be
    answered.  Here [refuses e] tells whether the service refuses the
    request [e]: the client then raises [HttpError], which the [try] blocks
    of the script catch.  With a service that refuses nothing these are the
    functions above (lemmas [download_file_answered] and
    [download_files_in_folder_answered]). *)
Module HttpErrors.
Import PyStr PyFloat LocalFs Eff download_drive.

(** [request.execute()], or the chunks of [MediaIoBaseDownload]. *)
Definition execute (refuses : event → bool) (e : event) : M world unit :=
  log e;;
  if refuses e then raise HttpError else mret tt.

(** [try: ... except HttpError: ...] *)
Definition try_http {A} (body handler : M world A) : M world A :=
  λ w, match body w with
       | (Raise HttpError, w') => handler w'
       | r => r
       end.

(** The handler prints the error, and the function falls off its end:
    [None]. *)
Definition download_file (refuses : event → bool) (svc : service)
    (file_id file_name mime_type file_extension : string)
    (folder_path : option string) (return_object : bool) : M world (option file_object) :=
  try_http
    (let file_path :=
       match folder_path with
       | Some fp => Some (OsPath.join fp file_name)
       | None => None
       end in
     '(fh, file_name) ←
       match export_mime_types !! mime_type with
       | Some target =>
           execute refuses (files_export_media file_id target);;
           mret (svc_export svc file_id target, file_name +:+ file_extension)
       | None =>
           execute refuses (files_get_media file_id);;
           mret (svc_media svc file_id, file_name)
       end;
     if return_object
     then mret (Some {| fo_file_id := file_id; fo_file_name := file_name;
                        fo_mime_type := mime_type; fo_file_extension := file_extension;
                        fo_content := fh |})
     else match file_path with
          | Some p =>
              log (os_write_ev p fh);;
              update_fs (λ fs, write_file fs p fh);;
              mret None
          | None => mret None
          end)
    (mret None).

(** The [for item in items] loop of [download_files_in_folder], given the
    function for a subfolder. *)
Definition items_loop (refuses : event → bool) (svc : service)
    (subfolder : rnode → option string → M world (list file_object))
    (folder_path : option string)
    (recursive overwrite return_object : bool)
    (mime_types file_extensions : option (list string))
  : list rnode → list file_object → M world (list file_object) :=
  fix loop (items : list rnode) (file_objects : list file_object) :=
    match items with
    | [] => mret file_objects
    | item :: rest =>
        let file_id := item_id (node_item item) in
        let file_name := item_name (node_item item) in
        let mime_type := item_mimeType (node_item item) in
        let file_extension := get_file_extension file_name in
        if bool_decide (mime_type = FOLDER)
        then
          if recursive
          then
            let subfolder_path := join_if folder_path file_name in
            objs ← subfolder item subfolder_path;
            loop rest (file_objects ++ objs)
          else loop rest file_objects
        else
          let file_path := join_if folder_path file_name in
          fs ← read_fs;
          if negb (should_process_file fs mime_type file_extension file_path
                     mime_types file_extensions return_object overwrite)
          then loop rest file_objects
          else
            file_object ← download_file refuses svc file_id file_name mime_type
                            file_extension folder_path return_object;
            match file_object with
            | Some fo =>
                if return_object then loop rest (file_objects ++ [fo])
                else loop rest file_objects
            | None => loop rest file_objects
            end
    end.

(** The handler returns the empty list, whatever was gathered. *)
Fixpoint download_files_in_folder (refuses : event → bool) (svc : service) (folder : rnode)
    (folder_path : option string) (recursive overwrite return_object : bool)
    (mime_types file_extensions : option (list string)) : M world (list file_object) :=
  match folder with
  | RNode it items =>
      try_http
        (execute refuses (files_list (item_id it));;
         match items with
         | [] => mret []
         | _ :: _ =>
             (match folder_path with
              | Some fp =>
                  if negb return_object
                  then log (os_makedirs_ev fp);; update_fs (λ fs, makedirs fs fp)
                  else mret tt
              | None => mret tt
              end);;
             (fix loop (items : list rnode) (file_objects : list file_object)
                : M world (list file_object) :=
                match items with
                | [] => mret file_objects
                | item :: rest =>
                    let file_id := item_id (node_item item) in
                    let file_name := item_name (node_item item) in
                    let mime_type := item_mimeType (node_item item) in
                    let file_extension := get_file_extension file_name in
                    if bool_decide (mime_type = FOLDER)
                    then
                      if recursive
                      then
                        let subfolder_path := join_if folder_path file_name in
                        objs ← download_files_in_folder refuses svc item subfolder_path
                                 recursive overwrite return_object mime_types
                                 file_extensions;
                        loop rest (file_objects ++ objs)
                      else loop rest file_objects
                    else
                      let file_path := join_if folder_path file_name in
                      fs ← read_fs;
                      if negb (should_process_file fs mime_type file_extension file_path
                                 mime_types file_extensions return_object overwrite)
                      then loop rest file_objects
                      else
                        file_object ← download_file refuses svc file_id file_name
                                        mime_type file_extension folder_path return_object;
                        match file_object with
                        | Some fo =>
                            if return_object then loop rest (file_objects ++ [fo])
                            else loop rest file_objects
                        | None => loop rest file_objects
                        end
                end) items []
         end)
        (mret [])
  end.

End HttpErrors.

(** ** Proof steps *)

(** Run the first bind of the goal. *)
Ltac bind_step := unfold mbind at 1, Eff.M_bind at 1.

(** ** Floats: what rounding leaves exact *)

Section Binary64.
Import PyStr PyFloat LocalFs Eff download_drive Spec.
Local Open Scope Qc_scope.

Ltac qc_eq :=
  apply Qc_is_canon; unfold of_int, pow2, Qcmult, Qcplus, Qcopp, Q2Qc; cbn [this];
  rewrite ?Qred_correct.

Ltac qc_ring := qc_eq; ring.


Lemma ltb_lt (x y : float) : ltb x y = true ↔ x < y.
Proof.
  unfold ltb. rewrite Qclt_alt. destruct (x ?= y); split; congruence.
Qed.

Lemma ltb_ge (x y : float) : ltb x y = false ↔ y <= x.
Proof.
  rewrite Qcle_ngt, <- ltb_lt. destruct (ltb x y); split; congruence.
Qed.

Lemma two_nonzero : ¬ (2 == 0)%Q.
Proof. discriminate. Qed.

Lemma pow2_pos e : 0 < pow2 e.
Proof.
  unfold Qclt. change (this (pow2 e)) with (Qred (2 ^ e)).
  rewrite Qred_correct. by apply Qpower_0_lt.
Qed.

Lemma pow2_add a b : pow2 (a + b) = pow2 a * pow2 b.
Proof.
  qc_eq. apply Qpower_plus, two_nonzero.
Qed.

Lemma pow2_0 : pow2 0 = 1.
Proof. reflexivity. Qed.

Lemma pow2_cancel e : pow2 (- e) * pow2 e = 1.
Proof. rewrite <- pow2_add, Z.add_opp_diag_l. reflexivity. Qed.

Lemma pow2_of_int (z : Z) : (0 ≤ z)%Z → pow2 z = of_int (2 ^ z).
Proof.
  intros Hz. qc_eq. symmetry. by apply (Zpower_Qpower 2).
Qed.

Lemma pow2_lt_inv a b : pow2 a < pow2 b → (a < b)%Z.
Proof.
  unfold Qclt. change (this (pow2 a)) with (Qred (2 ^ a)).
  change (this (pow2 b)) with (Qred (2 ^ b)). rewrite !Qred_correct. intros H.
  by apply (Qpower_lt_compat_l_inv 2).
Qed.

Lemma of_int_mul a b : of_int (a * b) = of_int a * of_int b.
Proof.
  qc_eq. by rewrite inject_Z_mult.
Qed.

Lemma of_int_lt (a b : Z) : of_int a < of_int b ↔ (a < b)%Z.
Proof.
  unfold Qclt. change (this (of_int a)) with (Qred (inject_Z a)).
  change (this (of_int b)) with (Qred (inject_Z b)). rewrite !Qred_correct.
  by rewrite <- Zlt_Qlt.
Qed.


Lemma round_half_even_of_int z : round_half_even (of_int z) = z.
Proof.
  unfold round_half_even.
  assert (Qfloor (of_int z) = z) as ->.
  { unfold of_int. simpl. rewrite (Qfloor_comp _ (inject_Z z)) by apply Qred_correct.
    apply Qfloor_Z. }
  assert (of_int z - of_int z = 0) as -> by ring.
  reflexivity.
Qed.

(** The exponent is not above the number. *)
Lemma exponent_le (x : float) : 0 < x → pow2 (exponent x) <= x.
Proof.
  intros Hx. unfold exponent.
  set (p := Z.log2 (Qnum x)). set (q := Z.log2 (Z.pos (Qden x))).
  destruct (ltb x (pow2 (p - q))) eqn:E; [|by apply ltb_ge].
  assert (0 < Qnum x)%Z as Hn.
  { unfold Qclt, Qlt in Hx. simpl in Hx. lia. }
  destruct (Z.log2_spec (Qnum x) Hn) as [Hp _]. fold p in Hp.
  destruct (Z.log2_spec (Z.pos (Qden x)) eq_refl) as [_ Hq]. fold q in Hq.
  assert (0 ≤ p)%Z as Hp0 by apply Z.log2_nonneg.
  assert (0 ≤ q)%Z as Hq0 by apply Z.log2_nonneg.
  replace (p - q - 1)%Z with (p - (q + 1))%Z by lia.
  unfold Qcle. change (this (pow2 (p - (q + 1)))) with (Qred (2 ^ (p - (q + 1)))).
  rewrite Qred_correct.
  rewrite Qpower_minus by apply two_nonzero.
  rewrite <- !(Zpower_Qpower 2) by lia.
  apply Qle_shift_div_r.
  { rewrite <- (Zlt_Qlt 0). lia. }
  destruct x as [[n d] Hc]. simpl in *.
  unfold Qle, Qmult, inject_Z. simpl.
  assert (0 < 2 ^ p)%Z by lia. nia.
Qed.

Lemma exponent_lt (x : float) (k : Z) : 0 < x → x < pow2 k → (exponent x < k)%Z.
Proof.
  intros Hx Hk. apply pow2_lt_inv.
  eapply Qcle_lt_trans; [by apply exponent_le | done].
Qed.

(** A number with at most 53 significant bits is its own nearest one. *)
Lemma nearest53_exact (n t : Z) :
  (0 < n < 2 ^ 53)%Z → nearest53 (of_int n * pow2 t) = of_int n * pow2 t.
Proof.
  intros Hn. unfold nearest53.
  set (x := of_int n * pow2 t).
  assert (0 < x) as Hx.
  { apply Qcmult_pos_pos; [apply (proj2 (of_int_lt 0 n)); lia | apply pow2_pos]. }
  assert (x < pow2 (53 + t)) as Hlt.
  { rewrite pow2_add, (pow2_of_int 53) by lia.
    apply Qcmult_lt_mono_pos_r; [apply pow2_pos | apply (proj2 (of_int_lt _ _)); lia]. }
  pose proof (exponent_lt x _ Hx Hlt) as He.
  set (e := (exponent x - 52)%Z) in *.
  assert (x * pow2 (- e) = of_int (n * 2 ^ (t - e))) as ->.
  { unfold x. rewrite <- Qcmult_assoc, <- pow2_add, of_int_mul, <- pow2_of_int by lia.
    repeat f_equal; lia. }
  rewrite round_half_even_of_int.
  unfold x. rewrite of_int_mul, <- pow2_of_int, <- Qcmult_assoc, <- pow2_add by lia.
  repeat f_equal; lia.
Qed.

Lemma of_int_opp n : of_int (- n) = - of_int n.
Proof.
  qc_eq. by rewrite inject_Z_opp.
Qed.

Lemma binary64_exact (x : float) : representable x → binary64 x = x.
Proof.
  intros (n & t & Hn & ->). unfold binary64.
  destruct (Z.lt_trichotomy n 0) as [Hneg|[->|Hpos]].
  - assert (of_int n * pow2 t < of_int 0) as Hlt.
    { assert (of_int n < 0) as H by (apply (proj2 (of_int_lt n 0)); lia).
      apply (Qcmult_lt_mono_pos_r _ _ (pow2 t) (pow2_pos t)) in H.
      by rewrite Qcmult_0_l in H. }
    rewrite (proj1 (Qclt_alt _ _) Hlt).
    assert (- (of_int n * pow2 t) = of_int (- n) * pow2 t) as ->
      by (rewrite of_int_opp; qc_ring).
    rewrite nearest53_exact by lia. rewrite of_int_opp. qc_ring.
  - change (of_int 0) with (0 : Qc). by rewrite Qcmult_0_l.
  - assert (of_int 0 < of_int n * pow2 t) as Hgt.
    { apply Qcmult_pos_pos; [apply (proj2 (of_int_lt 0 n)); lia | apply pow2_pos]. }
    rewrite (proj1 (Qcgt_alt _ _) Hgt). apply nearest53_exact. lia.
Qed.

Lemma representable_of_int (n : Z) : (Z.abs n ≤ 2 ^ 53)%Z → representable (of_int n).
Proof.
  intros Hn. destruct (decide (Z.abs n = 2 ^ 53)%Z) as [E|E].
  - exists (Z.sgn n), 53%Z. split; [lia|].
    rewrite pow2_of_int, <- of_int_mul by lia. f_equal. lia.
  - exists n, 0%Z. split; [lia|]. rewrite pow2_0. qc_ring.
Qed.

Lemma representable_scale (x : float) (k : Z) :
  representable x → representable (x * pow2 k).
Proof.
  intros (n & t & Hn & ->). exists n, (t + k)%Z. split; [done|].
  rewrite pow2_add. qc_ring.
Qed.

Lemma pow2_inv (k : Z) : / pow2 k = pow2 (- k).
Proof.
  apply Qc_is_canon. unfold Qcinv, pow2, Q2Qc. cbn [this]. rewrite !Qred_correct.
  by rewrite Qpower_opp.
Qed.

Lemma div_pow2 (x : float) (k : Z) : (0 ≤ k)%Z → x / of_int (2 ^ k) = x * pow2 (- k).
Proof. intros Hk. rewrite <- pow2_of_int by done. unfold Qcdiv. by rewrite pow2_inv. Qed.

(** Dividing an integer of at most 53 bits by a power of two is exact. *)
Lemma truediv_exact (n : Z) (k : Z) :
  (Z.abs n ≤ 2 ^ 53)%Z → (0 ≤ k)%Z → truediv n (2 ^ k) = of_int n / of_int (2 ^ k).
Proof.
  intros Hn Hk. unfold truediv. apply binary64_exact.
  rewrite div_pow2 by done. by apply representable_scale, representable_of_int.
Qed.

(** Below [2 ** 53] the comparison of two sizes in GB is the comparison of
    the byte counts. *)
Lemma gtb_truediv (a b : Z) :
  (Z.abs a ≤ 2 ^ 53)%Z → (Z.abs b ≤ 2 ^ 53)%Z →
  gtb (truediv a (1024 ^ 3)) (truediv b (1024 ^ 3)) = (b <? a)%Z.
Proof.
  intros Ha Hb. change (1024 ^ 3)%Z with (2 ^ 30)%Z.
  rewrite !truediv_exact by (done || lia).
  assert (∀ x y : Z, ltb (of_int x / of_int (2 ^ 30)) (of_int y / of_int (2 ^ 30)) = true
                     ↔ (x < y)%Z) as Hlt.
  { intros x y. rewrite ltb_lt. unfold Qcdiv.
    rewrite <- (Qcmult_lt_mono_pos_r (of_int x) (of_int y) (/ of_int (2 ^ 30))).
    - apply of_int_lt.
    - apply Qcinv_pos. by apply (of_int_lt 0). }
  unfold gtb. destruct (Z.ltb_spec b a) as [H|H].
  - by apply Hlt.
  - destruct (ltb _ _) eqn:E; [|done]. apply Hlt in E. lia.
Qed.

(** Above it the two quotients can round to the same float. *)
Lemma gtb_truediv_rounds :
  gtb (truediv (2 ^ 53 + 1) (1024 ^ 3)) (truediv (2 ^ 53) (1024 ^ 3)) = false.
Proof. vm_compute. reflexivity. Qed.
End Binary64.


(** ** The remote tree walker *)

Section Walker.
Import PyStr PyFloat LocalFs Eff download_drive Spec.

Lemma rnode_forall_ind (P : rnode → Prop) :
  (∀ it fs, Forall P fs → P (RNode it fs)) → ∀ n, P n.
Proof.
  intros H. fix IH 1. intros [it fs]. apply H.
  induction fs as [|x fs IHfs]; constructor; [apply IH | exact IHfs].
Qed.

Lemma add_trace_app w e1 e2 : add_trace (add_trace w e1) e2 = add_trace w (e1 ++ e2).
Proof. unfold add_trace; simpl. by rewrite <- app_assoc. Qed.

Lemma add_trace_cons w e l : add_trace w (e :: l) = add_trace (add_trace w [e]) l.
Proof. by rewrite add_trace_app. Qed.

Lemma add_trace_nil w : add_trace w [] = w.
Proof. destruct w; unfold add_trace; simpl. by rewrite app_nil_r. Qed.

Lemma fetch_run (n : rnode) : ∀ recursive current_path w,
  fetch_files_in_folder n recursive current_path w
  = (Ok (yields recursive current_path n), add_trace w (queries recursive n)).
Proof.
  induction n as [it fs IH] using rnode_forall_ind.
  intros recursive current_path w. simpl.
  unfold mbind, M_bind at 1. unfold log at 1.
  rewrite (add_trace_cons w).
  fold (add_trace w [files_list (item_id it)]).
  generalize (add_trace w [files_list (item_id it)]). clear w.
  induction IH as [|x fs Hx _ IHfs]; intros w.
  - simpl. by rewrite add_trace_nil.
  - simpl.
    destruct (bool_decide (item_mimeType (node_item x) = FOLDER) && recursive) eqn:E.
    + unfold mbind, M_bind at 1. rewrite Hx.
      unfold mbind, M_bind at 1. rewrite IHfs.
      unfold mret, M_ret. by rewrite add_trace_app.
    + unfold mbind, M_bind at 1. rewrite IHfs. done.
Qed.

Lemma leaves_cons_folder x fs it :
  is_folder (node_item x) = true →
  leaves (RNode it (x :: fs)) = leaves x ++ leaves (RNode it fs).
Proof.
  intros Hx. unfold leaves, descendants. simpl. destruct x as [ix fx]. simpl in *.
  rewrite filter_cons_False by (rewrite Hx; done).
  by rewrite filter_app.
Qed.

Lemma leaves_cons_file x fs it :
  is_folder (node_item x) = false → node_files x = [] →
  leaves (RNode it (x :: fs)) = node_item x :: leaves (RNode it fs).
Proof.
  intros Hx Hf. unfold leaves, descendants. simpl. destruct x as [ix fx]. simpl in *.
  subst fx. simpl. by rewrite filter_cons_True.
Qed.

Lemma yields_recursive_leaves (n : rnode) : ∀ current_path,
  well_formed n = true →
  map facts (yields true current_path n) = map item_facts (leaves n)
  ∧ Forall (λ y, rf_mimeType y ≠ FOLDER) (yields true current_path n).
Proof.
  induction n as [it fs IH] using rnode_forall_ind.
  intros current_path Hwf. simpl in Hwf.
  apply andb_prop in Hwf as [_ Hwf].
  induction IH as [|x fs Hx _ IHfs].
  - split; [done | constructor].
  - simpl in Hwf. apply andb_prop in Hwf as [Hwx Hwfs].
    destruct (IHfs Hwfs) as [IH1 IH2]. clear IHfs.
    simpl in *. rewrite andb_true_r.
    destruct (bool_decide (item_mimeType (node_item x) = FOLDER)) eqn:E.
    + destruct (Hx (OsPath.join current_path (item_name (node_item x))) Hwx) as [H1 H2].
      rewrite (leaves_cons_folder x fs it E). split.
      * rewrite !map_app. by rewrite H1, IH1.
      * apply Forall_app; done.
    + assert (node_files x = []) as Hnil.
      { destruct x as [ix fx]. simpl in *. unfold is_folder in Hwx. rewrite E in Hwx.
        simpl in Hwx. destruct fx; [done | discriminate]. }
      rewrite (leaves_cons_file x fs it E Hnil). split.
      * simpl. by rewrite IH1.
      * constructor; [|done]. simpl. by apply bool_decide_eq_false in E.
Qed.

Lemma yields_siblings recursive current_path it (before after : list rnode) :
  yields recursive current_path (RNode it (before ++ after))
  = yields recursive current_path (RNode it before)
    ++ yields recursive current_path (RNode it after).
Proof. simpl. apply flat_map_app. Qed.

Lemma yields_subfolder current_path it (sub : rnode) :
  is_folder (node_item sub) = true →
  yields true current_path (RNode it [sub])
  = yields true (OsPath.join current_path (item_name (node_item sub))) sub.
Proof. intros H. simpl. unfold is_folder in H. rewrite H. simpl. apply app_nil_r. Qed.

Lemma first_page_fits page_size (n : rnode) :
  fits page_size n = true → first_page page_size n = n.
Proof.
  induction n as [it fs IH] using rnode_forall_ind. simpl. intros H.
  apply andb_prop in H as [Hlen Hall]. apply bool_decide_eq_true in Hlen.
  f_equal. rewrite List.firstn_all2 by (by rewrite length_map).
  induction IH as [|x fs Hx _ IHfs]; [done|]. simpl in *.
  apply andb_prop in Hall as [Hx' Hfs]. rewrite Hx by done. f_equal.
  apply IHfs; [lia | done].
Qed.

Lemma fetch_recursive_answers (folder : rnode) (current_path : string) (w : world) :
  well_formed folder = true →
  ∃ ys,
    (fetch_files_in_folder folder true current_path w).1 = Ok ys
    ∧ map facts ys = map item_facts (leaves folder)
    ∧ length ys = leaf_count folder
    ∧ Forall (λ y, rf_mimeType y ≠ FOLDER) ys
    ∧ ∀ before sub after,
        node_files folder = before ++ sub :: after →
        is_folder (node_item sub) = true →
        ∃ ys1 ys2 ys3,
          ys = ys1 ++ ys2 ++ ys3
          ∧ (fetch_files_in_folder (RNode (node_item folder) before) true current_path w).1
            = Ok ys1
          ∧ (fetch_files_in_folder sub true
               (OsPath.join current_path (item_name (node_item sub))) w).1 = Ok ys2
          ∧ (fetch_files_in_folder (RNode (node_item folder) after) true current_path w).1
            = Ok ys3.
Proof.
  intros Hwf. exists (yields true current_path folder).
  destruct (yields_recursive_leaves folder current_path Hwf) as [Hfacts Hfiles].
  split; [by rewrite fetch_run|]. split; [done|]. split.
  { unfold leaf_count. by rewrite <- (length_map item_facts (leaves folder)), <- Hfacts, length_map. }
  split; [done|].
  intros before sub after Hsplit Hsub. destruct folder as [it fs]. simpl in Hsplit. subst fs.
  eexists _, _, _. rewrite !fetch_run. simpl fst. split; [|done].
  change (before ++ sub :: after) with (before ++ [sub] ++ after).
  by rewrite !yields_siblings, (yields_subfolder _ _ _ Hsub).
Qed.

(** C3, amended: let [tree] be what the drive holds, a tree in which only
    folders contain items, and let no folder of it hold more than one page
    of a list answer.  Then the recursive walk, run on the answers the
    service gives, returns a list [ys] that describes exactly the leaves of
    [tree] (its descendants that are not folders) in depth-first order, so
    as many items as there are leaves and no folder among them; and what a
    subfolder yields stands in [ys] after everything its earlier siblings
    yield and before anything its later siblings yield. *)
Theorem fetch_recursive_yields_leaves (page_size : nat) (tree : rnode)
    (current_path : string) (w : world) :
  well_formed tree = true →
  fits page_size tree = true →
  ∃ ys,
    (fetch_files_in_folder (first_page page_size tree) true current_path w).1 = Ok ys
    ∧ map facts ys = map item_facts (leaves tree)
    ∧ length ys = leaf_count tree
    ∧ Forall (λ y, rf_mimeType y ≠ FOLDER) ys
    ∧ ∀ before sub after,
        node_files tree = before ++ sub :: after →
        is_folder (node_item sub) = true →
        ∃ ys1 ys2 ys3,
          ys = ys1 ++ ys2 ++ ys3
          ∧ (fetch_files_in_folder (first_page page_size (RNode (node_item tree) before))
               true current_path w).1 = Ok ys1
          ∧ (fetch_files_in_folder (first_page page_size sub) true
               (OsPath.join current_path (item_name (node_item sub))) w).1 = Ok ys2
          ∧ (fetch_files_in_folder (first_page page_size (RNode (node_item tree) after))
               true current_path w).1 = Ok ys3.
Proof.
  intros Hwf Hfits. rewrite (first_page_fits _ _ Hfits).
  destruct (fetch_recursive_answers tree current_path w Hwf)
    as (ys & Hrun & Hfacts & Hlen & Hfiles & Hsub).
  exists ys. split; [done|]. split; [done|]. split; [done|]. split; [done|].
  intros before sub after Hsplit Hfolder.
  destruct tree as [it fs]. simpl in Hsplit, Hfits. subst fs.
  apply andb_prop in Hfits as [Hlen' Hall]. apply bool_decide_eq_true in Hlen'.
  rewrite length_app in Hlen'. simpl in Hlen'.
  rewrite forallb_app in Hall. apply andb_prop in Hall as [Hb Hsa]. simpl in Hsa.
  apply andb_prop in Hsa as [Hs Ha].
  rewrite !first_page_fits; [by apply Hsub | | done |].
  - simpl. rewrite Ha, andb_true_r. apply bool_decide_eq_true. lia.
  - simpl. rewrite Hb, andb_true_r. apply bool_decide_eq_true. lia.
Qed.

(** The walk of the sample tree, through the theorem, with pages of 100. *)
Lemma fetch_recursive_yields_leaves_witness :
  ∃ ys, (fetch_files_in_folder (first_page 100 Sample.tree) true "" Sample.w).1 = Ok ys
        ∧ map rf_path ys = ["a.pdf"; "S/Report"; "S/.bashrc"; "notes.txt"].
Proof.
  destruct (fetch_recursive_yields_leaves 100 Sample.tree "" Sample.w eq_refl eq_refl)
    as (ys & Hrun & _).
  exists ys. split; [exact Hrun|].
  vm_compute in Hrun. injection Hrun as <-. reflexivity.
Defined.

(** C3 as stated fails: of the 101 files of a folder the service lists 100
    in the first page of its answer, and the walk, which asks for no other
    page, yields 100 items where the tree has 101 leaves. *)
Lemma later_pages_are_not_walked :
  well_formed Sample.crowded = true
  ∧ leaf_count Sample.crowded = 101%nat
  ∧ ∃ ys, (fetch_files_in_folder (first_page 100 Sample.crowded) true "" Sample.w).1 = Ok ys
          ∧ length ys = 100%nat.
Proof.
  split; [vm_compute; reflexivity|]. split; [vm_compute; reflexivity|].
  eexists. rewrite fetch_run. split; [reflexivity|]. vm_compute. reflexivity.
Qed.
End Walker.


(** ** The walk without recursion, and the export of native documents *)

Section Flat.
Import PyStr PyFloat LocalFs Eff download_drive Spec.

Lemma yields_flat current_path it (fs : list rnode) :
  yields false current_path (RNode it fs)
  = map (λ item,
      let i := node_item item in
      {| rf_id := item_id i; rf_name := item_name i; rf_mimeType := item_mimeType i;
         rf_size := default 0 (item_size i);
         rf_path := OsPath.join current_path (item_name i) |}) fs.
Proof.
  simpl. induction fs as [|x fs IH]; [done|]. simpl.
  rewrite andb_false_r. simpl. by rewrite IH.
Qed.

(** C4, at the sample tree: the walk with [recursive = false] stays with the
    immediate children, and it yields the subfolder ["S"] itself, a
    dictionary whose [mimeType] is the folder type. *)
Theorem fetch_flat_yields_folder :
  (fetch_files_in_folder Sample.tree false "" Sample.w).1
  = Ok [ {| rf_id := "A"; rf_name := "a.pdf"; rf_mimeType := "application/pdf";
            rf_size := 500; rf_path := "a.pdf" |};
         {| rf_id := "S"; rf_name := "S"; rf_mimeType := FOLDER;
            rf_size := 0; rf_path := "S" |};
         {| rf_id := "D"; rf_name := "notes.txt"; rf_mimeType := "text/plain";
            rf_size := 100; rf_path := "notes.txt" |} ].
Proof. rewrite fetch_run. reflexivity. Qed.
End Flat.

Section NativeDocuments.
Import PyStr PyFloat LocalFs Eff download_drive Spec.

Lemma download_file_export_name svc file_id file_name mime_type file_extension target w :
  export_mime_types !! mime_type = Some target →
  download_file svc file_id file_name mime_type file_extension None true w
  = (Ok (Some {| fo_file_id := file_id; fo_file_name := file_name +:+ file_extension;
                 fo_mime_type := mime_type; fo_file_extension := file_extension;
                 fo_content := svc_export svc file_id target |}),
     add_trace w [files_export_media file_id target]).
Proof. intros H. unfold download_file. rewrite H. reflexivity. Qed.

Lemma download_file_raw_name svc file_id file_name mime_type file_extension w :
  export_mime_types !! mime_type = None →
  download_file svc file_id file_name mime_type file_extension None true w
  = (Ok (Some {| fo_file_id := file_id; fo_file_name := file_name;
                 fo_mime_type := mime_type; fo_file_extension := file_extension;
                 fo_content := svc_media svc file_id |}),
     add_trace w [files_get_media file_id]).
Proof. intros H. unfold download_file. rewrite H. reflexivity. Qed.

(** C5, at a native document named ["Report"]: it is fetched through the
    export to PDF, and the name reported is ["Report"] followed by the
    extension of ["Report"] itself, which is empty; no [".pdf"] is added. *)
Theorem download_file_native_document_name :
  download_file Sample.svc "B" "Report" "application/vnd.google-apps.document"
    (get_file_extension "Report") None true Sample.w
  = (Ok (Some {| fo_file_id := "B"; fo_file_name := "Report";
                 fo_mime_type := "application/vnd.google-apps.document";
                 fo_file_extension := "";
                 fo_content := [Byte.x25; Byte.x50; Byte.x44; Byte.x46] |}),
     add_trace Sample.w [files_export_media "B" "application/pdf"]).
Proof. vm_compute. reflexivity. Qed.
End NativeDocuments.

(** ** The size total and the disk-space gate *)

Section Gate.
Import PyStr PyFloat LocalFs Eff download_drive Spec Outcome.

Lemma total_size_loop_counted remote_files local_files overwrite : ∀ total_size,
  total_size_loop remote_files local_files overwrite total_size
  = total_size + declared_total (filter (λ y, counted local_files overwrite y = true) remote_files).
Proof.
  induction remote_files as [|y l IH]; intros acc; simpl.
  - unfold declared_total. cbn. lia.
  - destruct (bool_decide (is_Some (local_files !! rf_path y)) && negb overwrite) eqn:E.
    + rewrite filter_cons_False by (unfold counted; rewrite E; done). apply IH.
    + rewrite filter_cons_True by (unfold counted; rewrite E; done).
      rewrite IH. unfold declared_total. simpl. lia.
Qed.

Lemma scan_local_files_state local_folder_path w :
  (scan_local_files local_folder_path w).2 = add_trace w [os_walk_ev local_folder_path].
Proof.
  unfold scan_local_files, mbind, M_bind, log, read_fs. simpl.
  destruct (local_files_walk _ _ _ _); reflexivity.
Qed.

Lemma scan_local_files_absent local_folder_path w :
  os_path_exists (w_fs w) local_folder_path = false →
  scan_local_files local_folder_path w = (Ok ∅, add_trace w [os_walk_ev local_folder_path]).
Proof.
  intros H. unfold os_path_exists in H. apply bool_decide_eq_false in H.
  unfold scan_local_files, mbind, M_bind, log, read_fs. simpl.
  unfold os_walk. destruct (lookup (w_fs w) local_folder_path) eqn:E.
  - exfalso. apply H. eauto.
  - reflexivity.
Qed.

Lemma calculate_total_download_size_state svc path recursive overwrite mt fe w :
  (calculate_total_download_size svc path recursive overwrite mt fe w).2
  = add_trace w (queries recursive (svc_node svc) ++ [os_walk_ev path]).
Proof.
  unfold calculate_total_download_size. bind_step.
  rewrite fetch_run. unfold mbind, M_bind.
  pose proof (scan_local_files_state path (add_trace w (queries recursive (svc_node svc)))) as Hs.
  destruct (scan_local_files _ _) as [[l| |] w']; simpl in *; subst w';
    by rewrite add_trace_app.
Qed.

Lemma calculate_total_download_size_filters_unused svc path recursive overwrite mt fe mt' fe' :
  calculate_total_download_size svc path recursive overwrite mt fe
  = calculate_total_download_size svc path recursive overwrite mt' fe'.
Proof. reflexivity. Qed.

Lemma disk_space_run w :
  disk_space w
  = (Ok (truediv (f_blocks (fs_statvfs (w_fs w) "/") * f_frsize (fs_statvfs (w_fs w) "/"))
           (1024 ^ 3),
         free_gb_at (w_fs w) "/"),
     add_trace w [os_statvfs_ev "/"]).
Proof. reflexivity. Qed.

Lemma is_transfer_queries recursive n :
  Forall (λ e, is_transfer e = false) (queries recursive n).
Proof.
  induction n as [it fs IH] using rnode_forall_ind. simpl. constructor; [done|].
  induction IH as [|x fs Hx _ IHfs]; simpl; [constructor|].
  apply Forall_app. split; [|done].
  destruct (_ && _); [done | constructor].
Qed.

(** C2, at the sample folder with [--mime_types application/pdf]: the text
    file, which the MIME filter rejects, is counted with its 100 bytes (the
    PDF is left out because it is already in the destination). *)
Theorem total_size_counts_filtered_out :
  (calculate_total_download_size Sample.svc "dl" false false
     (Some ["application/pdf"]) None Sample.w).1 = Ok 100
  ∧ should_process_file Sample.fs "text/plain" (get_file_extension "notes.txt")
      (Some "dl/notes.txt") (Some ["application/pdf"]) None false false = false.
Proof. split; vm_compute; reflexivity. Qed.

(** C9: when nothing exists at the local root, the scan returns the empty
    mapping, and the total is the sum of the declared sizes of all the
    remote files the walk returns: none is set aside as already there. *)
Theorem absent_root_empty_mapping svc local_folder_path recursive overwrite mt fe w :
  os_path_exists (w_fs w) local_folder_path = false →
  (scan_local_files local_folder_path w).1 = Ok ∅
  ∧ ∃ remote_files,
      (fetch_files_in_folder (svc_node svc) recursive "" w).1 = Ok remote_files
      ∧ (calculate_total_download_size svc local_folder_path recursive overwrite mt fe w).1
        = Ok (declared_total remote_files).
Proof.
  intros H. split.
  { by rewrite scan_local_files_absent. }
  exists (yields recursive "" (svc_node svc)). rewrite fetch_run. split; [done|].
  unfold calculate_total_download_size. bind_step. rewrite fetch_run.
  unfold mbind, M_bind. rewrite scan_local_files_absent by done.
  unfold mret, M_ret. simpl. rewrite total_size_loop_counted.
  f_equal. rewrite Z.add_0_l. f_equal.
  induction (yields _ _ _) as [|y l IH]; [done|].
  rewrite filter_cons_True; [by rewrite IH|].
  unfold counted. rewrite lookup_empty. 
  rewrite bool_decide_eq_false_2; [done|]. by intros [? ?].
Qed.

Lemma absent_root_empty_mapping_witness :
  (scan_local_files "/tmp/new" Sample.w).1 = Ok ∅
  ∧ (calculate_total_download_size Sample.svc "/tmp/new" true false None None Sample.w).1
    = Ok 607.
Proof.
  destruct (absent_root_empty_mapping Sample.svc "/tmp/new" true false None None Sample.w
              eq_refl) as [Hscan (remote_files & Hfetch & Htotal)].
  split; [exact Hscan|].
  rewrite Htotal. vm_compute in Hfetch. injection Hfetch as <-. reflexivity.
Defined.

(** C10: without a destination path ([None] or the empty string) the check
    answers [True] at once and leaves the world as it is: no event is
    logged, so no list query, no scan of the local tree, no [statvfs]. *)
Theorem check_disk_space_without_destination svc local_folder_path recursive mt fe overwrite w :
  truthy_opt local_folder_path = false →
  check_disk_space svc local_folder_path recursive mt fe overwrite w = (Ok true, w).
Proof.
  intros H. unfold check_disk_space. destruct local_folder_path as [path|]; [|done].
  simpl in H. by rewrite H.
Qed.

Lemma check_disk_space_without_destination_witness :
  check_disk_space Sample.svc None true None None false Sample.w_full = (Ok true, Sample.w_full)
  ∧ w_trace (check_disk_space Sample.svc None true None None false Sample.w_full).2 = [].
Proof.
  pose proof (check_disk_space_without_destination Sample.svc None true None None false
                Sample.w_full eq_refl) as H.
  split; [exact H | by rewrite H].
Defined.

Lemma check_disk_space_run svc path recursive mt fe overwrite w total :
  truthy path = true →
  (calculate_total_download_size svc path recursive overwrite mt fe w).1 = Ok total →
  check_disk_space svc (Some path) recursive mt fe overwrite w
  = (Ok (negb (gtb (truediv total (1024 ^ 3)) (free_gb_at (w_fs w) "/"))),
     add_trace w (queries recursive (svc_node svc) ++ [os_walk_ev path; os_statvfs_ev "/"])).
Proof.
  intros Hpath Htotal. unfold check_disk_space. rewrite Hpath.
  change (negb true) with false. cbv beta iota.
  pose proof (calculate_total_download_size_state svc path recursive overwrite mt fe w) as Hst.
  bind_step.
  destruct (calculate_total_download_size _ _ _ _ _ _ w) as [o w']. simpl in Htotal, Hst.
  subst o w'. cbv beta iota. unfold mbind, M_bind. rewrite disk_space_run.
  cbv beta iota. cbn [snd].
  change (w_fs (add_trace w ?e)) with (w_fs w).
  rewrite add_trace_app, <- app_assoc. simpl app.
  by destruct (gtb _ _).
Qed.

(** The test of the gate on byte counts of at most [2 ** 53]. *)
Lemma gate_in_bytes (fs : fs_state) (total : Z) :
  Z.abs total ≤ 2 ^ 53 → Z.abs (free_bytes fs) ≤ 2 ^ 53 →
  gtb (truediv total (1024 ^ 3)) (free_gb_at fs "/") = (free_bytes fs <? total).
Proof. intros Ht Hf. unfold free_gb_at. fold (free_bytes fs). by apply gtb_truediv. Qed.

(** C6, amended: with a destination path, if the computed total exceeds the
    free space of the volume of ["/"], both being byte counts of at most
    [2 ** 53] (for which the conversion to GB as a float is exact), the
    check answers [False], the script exits with status 1, and up to that
    exit it has only listed, scanned and asked for the free space: the file
    system is unchanged and no event is a transfer. *)
Theorem insufficient_space_exits_before_transfer svc a w path total :
  local_folder_path a = Some path →
  truthy path = true →
  (calculate_total_download_size svc path (recursive a) (overwrite a)
     (mime_types a) (file_extensions a) w).1 = Ok total →
  Z.abs total ≤ 2 ^ 53 →
  Z.abs (free_bytes (w_fs w)) ≤ 2 ^ 53 →
  free_bytes (w_fs w) < total →
  (check_disk_space svc (local_folder_path a) (recursive a) (mime_types a)
     (file_extensions a) (overwrite a) w).1 = Ok false
  ∧ (main svc a w).1 = Exit 1
  ∧ status (main svc a w).1 = 1
  ∧ w_fs (main svc a w).2 = w_fs w
  ∧ ∃ evs, w_trace (main svc a w).2 = w_trace w ++ evs
           ∧ Forall (λ e, is_transfer e = false) evs.
Proof.
  intros Hdest Hpath Htotal Hbt Hbf Hgt.
  pose proof (check_disk_space_run svc path (recursive a) (mime_types a) (file_extensions a)
                (overwrite a) w total Hpath Htotal) as Hcheck.
  rewrite (gate_in_bytes _ _ Hbt Hbf) in Hcheck.
  rewrite (proj2 (Z.ltb_lt _ _) Hgt) in Hcheck. simpl negb in Hcheck.
  assert (main svc a w
          = (Exit 1, add_trace w (queries (recursive a) (svc_node svc)
                                  ++ [os_walk_ev path; os_statvfs_ev "/"]))) as Hmain.
  { unfold main. rewrite Hdest. simpl truthy_opt. rewrite Hpath, andb_false_r.
    unfold mbind, M_bind, mret, M_ret. rewrite Hcheck. reflexivity. }
  rewrite Hdest, Hcheck, Hmain. simpl. repeat split; try done.
  eexists. split; [reflexivity|].
  apply Forall_app. split; [apply is_transfer_queries | by repeat constructor].
Qed.

Lemma insufficient_space_exits_before_transfer_witness :
  (main Sample.svc (Sample.cli (Some "dl") true false None) Sample.w_full).1 = Exit 1
  ∧ w_trace (main Sample.svc (Sample.cli (Some "dl") true false None) Sample.w_full).2
    = [files_list "F"; files_list "S"; os_walk_ev "dl"; os_statvfs_ev "/"].
Proof.
  destruct (insufficient_space_exits_before_transfer Sample.svc
              (Sample.cli (Some "dl") true false None) Sample.w_full "dl" 107
              eq_refl eq_refl eq_refl) as (_ & Hexit & _ & _ & evs & Htrace & _);
    [vm_compute; discriminate | vm_compute; discriminate | reflexivity |].
  split; [exact Hexit|]. vm_compute. reflexivity.
Defined.

(** C6 as stated fails: the destination is on a volume with 512 free bytes,
    the total is 607 bytes, yet the check passes, because the free space is
    read at ["/"], and the files are transferred. *)
Lemma free_space_is_read_at_root :
  (calculate_total_download_size Sample.svc "/mnt/usb/dl" true false None None Sample.w).1
  = Ok 607
  ∧ gtb (truediv 607 (1024 ^ 3)) (free_gb_at Sample.fs "/mnt/usb/dl") = true
  ∧ (check_disk_space Sample.svc (Some "/mnt/usb/dl") true None None false Sample.w).1
    = Ok true
  ∧ status (main Sample.svc (Sample.cli (Some "/mnt/usb/dl") true false None) Sample.w).1 = 0
  ∧ filter (λ e, is_transfer e = true)
      (w_trace (main Sample.svc (Sample.cli (Some "/mnt/usb/dl") true false None) Sample.w).2)
    = [ os_makedirs_ev "/mnt/usb/dl";
        files_get_media "A";
        os_write_ev "/mnt/usb/dl/a.pdf" [Byte.x68; Byte.x69];
        os_makedirs_ev "/mnt/usb/dl/S";
        files_export_media "B" "application/pdf";
        os_write_ev "/mnt/usb/dl/S/Report" [Byte.x25; Byte.x50; Byte.x44; Byte.x46];
        files_get_media "C";
        os_write_ev "/mnt/usb/dl/S/.bashrc" [Byte.x68; Byte.x69];
        files_get_media "D";
        os_write_ev "/mnt/usb/dl/notes.txt" [Byte.x68; Byte.x69] ].
Proof. repeat split; vm_compute; reflexivity. Qed.
End Gate.


(** ** The size formatter *)

Section Formatter.
Import PyStr PyFloat LocalFs Eff download_drive Spec.
Local Open Scope Qc_scope.

Lemma kibi_pos : 0 < kibi.
Proof. reflexivity. Qed.

Lemma kibi_inv_pos : 0 < / kibi.
Proof. apply Qcinv_pos, kibi_pos. Qed.



















(** Above [2 ** 53] the first division rounds: 9147936743096321 bytes are
    8.12500000000000044 PB, and are printed as the float 8.125 is. *)
Lemma human_readable_size_rounds :
  human_readable_size (of_int 9147936743096321) = "8.12 PB".
Proof. vm_compute. reflexivity. Qed.
End Formatter.

(** ** The extension and the transfer filter *)

Section Extension.
Import PyStr OsPath LocalFs Eff download_drive Spec.

Lemma rfind_from_rindex c s : ∀ i last,
  rfind_from c s i last
  = match rindex c s with Some k => i + Z.of_nat k | None => last end.
Proof.
  induction s as [|a s IH]; intros i last; simpl; [done|].
  rewrite IH. destruct (rindex c s) as [k|]; [lia|].
  destruct (Ascii.eqb a c); lia.
Qed.

Lemma rfind_rindex c s :
  rfind c s = match rindex c s with Some k => Z.of_nat k | None => -1 end.
Proof. unfold rfind. rewrite rfind_from_rindex. by destruct (rindex c s). Qed.

Lemma append_nil s : "" +:+ s = s.
Proof. reflexivity. Qed.

Lemma append_cons a s1 s2 : String a s1 +:+ s2 = String a (s1 +:+ s2).
Proof. reflexivity. Qed.

Lemma rindex_app c s1 s2 :
  rindex c (s1 +:+ s2)
  = match rindex c s2 with
    | Some j => Some (String.length s1 + j)%nat
    | None => rindex c s1
    end.
Proof.
  induction s1 as [|a s1 IH].
  - rewrite append_nil. by destruct (rindex c s2).
  - rewrite append_cons. simpl. rewrite IH. destruct (rindex c s2); reflexivity.
Qed.

Lemma rindex_lt c s k : rindex c s = Some k → (k < String.length s)%nat.
Proof.
  revert k. induction s as [|a s IH]; intros k; simpl; [done|].
  destruct (rindex c s) as [j|].
  - intros [= <-]. specialize (IH j eq_refl). lia.
  - destruct (Ascii.eqb a c); [intros [= <-]; lia | done].
Qed.

Lemma take_drop n s : take n s +:+ drop n s = s.
Proof.
  revert s. induction n as [|n IH]; intros [|a s]; simpl; try done.
  by rewrite append_cons, IH.
Qed.

Lemma length_take n s : (n ≤ String.length s)%nat → String.length (take n s) = n.
Proof.
  revert s. induction n as [|n IH]; intros [|a s]; simpl; try done; try lia.
  intros H. rewrite IH; lia.
Qed.

Lemma drop_app_length s1 s2 n :
  drop (String.length s1 + n) (s1 +:+ s2) = drop n s2.
Proof. induction s1 as [|a s1 IH]; [done|]. by rewrite append_cons. Qed.

(** Nothing after the last occurrence. *)
Lemma rindex_drop c s k : rindex c s = Some k → rindex c (drop (S k) s) = None.
Proof.
  revert k. induction s as [|a s IH]; intros k; simpl; [done|].
  destruct (rindex c s) as [j|] eqn:E.
  - intros [= <-]. by apply IH.
  - destruct (Ascii.eqb a c); [|done]. intros [= <-]. simpl. by destruct s.
Qed.

Lemma rindex_strip_dots c s : rindex c s = None → rindex c (strip_dots s) = None.
Proof.
  induction s as [|a s IH]; simpl; [done|].
  destruct (rindex c s) as [j|] eqn:E; [done|].
  destruct (Ascii.eqb a c) eqn:Ec; [done|]. intros _.
  destruct (Ascii.eqb a "."); [by apply IH|]. simpl. by rewrite E, Ec.
Qed.

Lemma slice_cons a s t :
  slice (String a s) (Z.of_nat (S t)) (Z.of_nat (S t) + 1) = slice s (Z.of_nat t) (Z.of_nat t + 1).
Proof.
  unfold slice. replace (Z.of_nat (S t) + 1 - Z.of_nat (S t)) with 1 by lia.
  replace (Z.of_nat t + 1 - Z.of_nat t) with 1 by lia.
  by rewrite !Nat2Z.id.
Qed.

Lemma splitext_loop_cons a s n : ∀ t,
  splitext_loop (String a s) (Z.of_nat (S t)) n = splitext_loop s (Z.of_nat t) n.
Proof.
  induction n as [|n IH]; intros t; simpl; [done|].
  rewrite slice_cons.
  replace (Z.of_nat (S t) + 1) with (Z.of_nat (S (S t))) by lia.
  replace (Z.of_nat t + 1) with (Z.of_nat (S t)) by lia.
  by rewrite IH.
Qed.

Lemma splitext_loop_app pre s n :
  splitext_loop (pre +:+ s) (Z.of_nat (String.length pre)) n = splitext_loop s 0 n.
Proof.
  induction pre as [|a pre IH]; [done|].
  rewrite append_cons. simpl String.length. by rewrite splitext_loop_cons.
Qed.

Lemma suffix_from_final_dot_rindex s :
  suffix_from_final_dot s
  = match rindex "." s with Some k => drop k s | None => "" end.
Proof.
  unfold suffix_from_final_dot. rewrite rfind_rindex.
  destruct (rindex "." s) as [k|]; [|done].
  destruct (Z.ltb_spec (Z.of_nat k) 0); [lia|]. by rewrite Nat2Z.id.
Qed.

Lemma splitext_loop_head a s n :
  splitext_loop (String a s) 0 (S n)
  = if Ascii.eqb a "." then splitext_loop s 0 n else true.
Proof.
  simpl splitext_loop.
  change (slice (String a s) 0 (0 + 1)) with (String a "").
  change (String a "" =? ".")%string with (Ascii.eqb a "." && true).
  destruct (Ascii.eqb a "."); [|done]. simpl.
  change (0 + 1) with (Z.of_nat 1). apply (splitext_loop_cons a s n 0).
Qed.

(** The extension of a name without ['/'], read off its last dot. *)
Lemma component_extension comp : ∀ j,
  rindex "." comp = Some j →
  (if splitext_loop comp 0 j then drop j comp else "")
  = suffix_from_final_dot (strip_dots comp).
Proof.
  induction comp as [|a s IH]; intros j; [done|].
  simpl rindex. simpl strip_dots.
  destruct (rindex "." s) as [j'|] eqn:E.
  - intros [= <-]. rewrite splitext_loop_head.
    destruct (Ascii.eqb a ".") eqn:Ea.
    + simpl drop. by apply IH.
    + rewrite suffix_from_final_dot_rindex. simpl. by rewrite E.
  - destruct (Ascii.eqb a ".") eqn:Ea; [|done].
    intros [= <-]. simpl.
    rewrite suffix_from_final_dot_rindex. by rewrite rindex_strip_dots.
Qed.

Lemma get_file_extension_spec file_name :
  get_file_extension file_name
  = suffix_from_final_dot (strip_dots (last_component file_name)).
Proof.
  unfold get_file_extension, splitext, last_component.
  rewrite !rfind_rindex.
  set (n0 := Z.to_nat (match rindex "/" file_name with
                       | Some k => Z.of_nat k | None => -1 end + 1)).
  assert (n0 ≤ String.length file_name)%nat as Hn0.
  { subst n0. destruct (rindex "/" file_name) as [k|] eqn:E; [|simpl; lia].
    apply rindex_lt in E. lia. }
  assert (match rindex "/" file_name with
          | Some k => Z.of_nat k | None => -1 end = Z.of_nat n0 - 1) as Hsep.
  { subst n0. destruct (rindex "/" file_name); lia. }
  rewrite Hsep. clear Hsep.
  pose proof (take_drop n0 file_name) as Hsplit.
  pose proof (length_take n0 file_name Hn0) as Hlen.
  set (pre := take n0 file_name) in *. set (comp := drop n0 file_name) in *.
  clearbody pre comp n0. subst file_name. clear Hn0.
  rewrite rindex_app.
  destruct (rindex "." comp) as [j|] eqn:Ej.
  - rewrite Hlen.
    destruct (Z.ltb_spec (Z.of_nat n0 - 1) (Z.of_nat (n0 + j))); [|lia]. simpl andb.
    replace (Z.of_nat n0 - 1 + 1) with (Z.of_nat (String.length pre)) by lia.
    replace (Z.to_nat (Z.of_nat (n0 + j) - Z.of_nat (String.length pre))) with j by lia.
    rewrite splitext_loop_app, Nat2Z.id.
    rewrite <- (component_extension comp j Ej).
    destruct (splitext_loop comp 0 j); [|done]. simpl.
    rewrite <- Hlen. apply drop_app_length.
  - rewrite suffix_from_final_dot_rindex, (rindex_strip_dots _ _ Ej).
    destruct (rindex "." pre) as [k|] eqn:Ek.
    + apply rindex_lt in Ek.
      destruct (Z.ltb_spec (Z.of_nat n0 - 1) (Z.of_nat k)); [lia | done].
    + destruct (Z.ltb_spec (Z.of_nat n0 - 1) (-1)); [lia | done].
Qed.
End Extension.

Section Filter.
Import PyStr OsPath LocalFs Eff download_drive Spec.

Lemma rejects_test allowed x :
  truthy_list allowed && negb (mem x allowed) = true ↔ rejects allowed x.
Proof.
  unfold rejects. split.
  - intros H. apply andb_prop in H as [Ht Hm].
    destruct allowed as [[|y l]|]; try discriminate.
    exists (y :: l). split; [done|]. split; [done|].
    simpl in Hm. apply negb_true_iff, bool_decide_eq_false in Hm. exact Hm.
  - intros (l & -> & Hne & Hnot). destruct l as [|y l]; [done|]. simpl.
    apply negb_true_iff, bool_decide_eq_false. exact Hnot.
Qed.

Lemma present_test fs file_path :
  truthy_opt file_path
  && match file_path with Some p => os_path_exists fs p | None => false end = true
  ↔ present fs file_path.
Proof.
  unfold present, os_path_exists. split.
  - intros H. apply andb_prop in H as [_ H]. destruct file_path as [p|]; [|done].
    exists p. split; [done|]. by apply bool_decide_eq_true in H.
  - intros (p & -> & Hp). simpl. apply andb_true_intro. split.
    + unfold lookup in Hp. destruct (truthy p); [done|]. by destruct Hp.
    + by apply bool_decide_eq_true.
Qed.

(** C1, amended: the extension tested is that of [os.path.splitext], the
    substring from the final dot of the last ['/']-component of the name once
    the dots that lead this component are set aside (empty when no dot is
    left); and the verdict follows the first rule that applies: a MIME list
    that rejects the type excludes; otherwise an extension list that rejects
    the extension excludes; otherwise, with return-object and overwrite both
    off, something present at the destination path excludes; otherwise the
    item is included. *)
Theorem should_process_file_first_match (fs : fs_state) (mime_type file_name : string)
    (file_path : option string) (mime_types file_extensions : option (list string))
    (return_object overwrite : bool) :
  let file_extension := get_file_extension file_name in
  let verdict := should_process_file fs mime_type file_extension file_path
                   mime_types file_extensions return_object overwrite in
  let rule1 := rejects mime_types mime_type in
  let rule2 := rejects file_extensions file_extension in
  let rule3 := return_object = false ∧ overwrite = false ∧ present fs file_path in
  file_extension = suffix_from_final_dot (strip_dots (last_component file_name))
  ∧ (rule1 → verdict = false)
  ∧ (¬ rule1 → rule2 → verdict = false)
  ∧ (¬ rule1 → ¬ rule2 → rule3 → verdict = false)
  ∧ (¬ rule1 → ¬ rule2 → ¬ rule3 → verdict = true).
Proof.
  intros file_extension verdict rule1 rule2 rule3.
  split; [apply get_file_extension_spec|].
  subst verdict rule1 rule2 rule3. unfold should_process_file.
  pose proof (rejects_test mime_types mime_type) as H1.
  pose proof (rejects_test file_extensions file_extension) as H2.
  pose proof (present_test fs file_path) as H3.
  destruct (truthy_list mime_types && negb (mem mime_type mime_types)).
  { repeat split; try done; intros Hn; exfalso; apply Hn, H1; done. }
  assert (¬ rejects mime_types mime_type) as Hn1 by (intros H; by apply H1 in H).
  destruct (truthy_list file_extensions && negb (mem file_extension file_extensions)).
  { repeat split; try done; intros _ Hn; exfalso; apply Hn, H2; done. }
  assert (¬ rejects file_extensions file_extension) as Hn2 by (intros H; by apply H2 in H).
  rewrite <- andb_assoc.
  destruct (truthy_opt file_path
            && match file_path with Some p => os_path_exists fs p | None => false end).
  - destruct return_object, overwrite; simpl; repeat split; try done;
      try (intros _ _ (? & ? & _); done).
    intros _ _ Hn. exfalso. apply Hn. repeat split; try done. by apply H3.
  - rewrite !andb_false_r. repeat split; try done.
    intros _ _ (_ & _ & Hp). apply H3 in Hp. done.
Qed.

(** The third rule at the sample destination, through the theorem. *)
Lemma should_process_file_first_match_witness :
  should_process_file Sample.fs "application/pdf" (get_file_extension "a.pdf")
    (Some "dl/a.pdf") (Some ["application/pdf"]) (Some [".pdf"]) false false = false.
Proof.
  destruct (should_process_file_first_match Sample.fs "application/pdf" "a.pdf"
              (Some "dl/a.pdf") (Some ["application/pdf"]) (Some [".pdf"]) false false)
    as (_ & _ & _ & H3 & _).
  apply H3.
  - intros (l & [= <-] & _ & Hnot). apply Hnot. set_solver.
  - intros (l & [= <-] & _ & Hnot). apply Hnot. vm_compute. set_solver.
  - repeat split. exists "dl/a.pdf". split; [done|]. vm_compute. eauto.
Defined.

(** C1 as stated fails on a dot-file: the substring from the final dot of
    [".bashrc"] is [".bashrc"], a member of the extension list, so the rules
    as stated include the item; [splitext] gives it no extension and the
    code excludes it. *)
Lemma extension_of_dot_file :
  suffix_from_final_dot ".bashrc" = ".bashrc"
  ∧ get_file_extension ".bashrc" = ""
  ∧ included_as_specified Sample.fs "text/plain" ".bashrc" None None (Some [".bashrc"])
      true false = true
  ∧ should_process_file Sample.fs "text/plain" (get_file_extension ".bashrc") None None
      (Some [".bashrc"]) true false = false.
Proof. repeat split; vm_compute; reflexivity. Qed.
End Filter.


(** ** The local file system: writes and reads *)

Section FileSystem.
Import PyStr PyFloat LocalFs Eff download_drive Spec Outcome.

Lemma entry_set_entry c x es : entry c (set_entry c x es) = Some x.
Proof.
  induction es as [|[n y] es IH]; simpl.
  - by rewrite bool_decide_eq_true_2.
  - case_bool_decide as E; simpl.
    + by rewrite bool_decide_eq_true_2.
    + by rewrite bool_decide_eq_false_2.
Qed.

Lemma entry_set_entry_ne c c' x es :
  c ≠ c' → entry c' (set_entry c x es) = entry c' es.
Proof.
  intros Hne. induction es as [|[n y] es IH]; simpl.
  - by rewrite bool_decide_eq_false_2.
  - case_bool_decide as E; simpl.
    + subst n. by rewrite !bool_decide_eq_false_2.
    + by rewrite IH.
Qed.

Lemma fs_find_cons c cs es :
  fs_find (c :: cs) (FsDir es) = entry c es ≫= fs_find cs.
Proof. simpl. by destruct (entry c es). Qed.

Lemma fs_write_step c c2 cs data es :
  fs_write (c :: c2 :: cs) data (FsDir es)
  = match entry c es with
    | Some ch =>
        match fs_write (c2 :: cs) data ch with
        | Some ch' => Some (FsDir (set_entry c ch' es))
        | None => None
        end
    | None => None
    end.
Proof. reflexivity. Qed.

Lemma fs_write_inv comps data n n' :
  fs_write comps data n = Some n' →
  ∃ c cs es, comps = c :: cs ∧ n = FsDir es
    ∧ ((cs = [] ∧ (∀ es', entry c es ≠ Some (FsDir es'))
        ∧ n' = FsDir (set_entry c (FsFile data) es))
       ∨ (cs ≠ [] ∧ ∃ ch ch', entry c es = Some ch ∧ fs_write cs data ch = Some ch'
                              ∧ n' = FsDir (set_entry c ch' es))).
Proof.
  destruct comps as [|c cs]; [done|]. destruct n as [d|es]; [by destruct cs|].
  intros H. exists c, cs, es. split; [done|]. split; [done|].
  destruct cs as [|c2 cs].
  - left. simpl in H. split; [done|].
    destruct (entry c es) as [[|]|]; inversion H; subst; split; congruence.
  - right. split; [done|]. rewrite fs_write_step in H.
    destruct (entry c es) as [ch|]; [|done].
    destruct (fs_write (c2 :: cs) data ch) as [ch'|] eqn:E; [|done].
    inversion H. eauto.
Qed.

(** What is written can be read back. *)
Lemma fs_write_find comps data : ∀ n n',
  fs_write comps data n = Some n' → fs_find comps n' = Some (FsFile data).
Proof.
  induction comps as [|c cs IH]; intros n n' H; [done|].
  apply fs_write_inv in H as (c0 & cs0 & es & [= <- <-] & -> & [(-> & _ & ->)|(Hne & ch & ch' & He & Hw & ->)]).
  - rewrite fs_find_cons, entry_set_entry. done.
  - rewrite fs_find_cons, entry_set_entry. simpl. by apply (IH ch).
Qed.

(** Writing at one path leaves the files at the other paths alone. *)
Lemma fs_write_other comps data : ∀ n n' comps' d,
  fs_write comps data n = Some n' →
  comps' ≠ comps →
  fs_find comps' n = Some (FsFile d) → fs_find comps' n' = Some (FsFile d).
Proof.
  induction comps as [|c cs IH]; intros n n' comps' d H Hne Hfind; [done|].
  apply fs_write_inv in H as (c0 & cs0 & es & [= <- <-] & -> & Hcase).
  destruct comps' as [|c' cs']; [done|].
  rewrite fs_find_cons in Hfind.
  destruct (decide (c = c')) as [<-|Hc].
  - destruct Hcase as [(-> & Hdir & ->)|(Hcs & ch & ch' & He & Hw & ->)].
    + destruct (entry c es) as [[dd|es']|] eqn:He; simpl in Hfind; try done.
      * destruct cs'; [congruence | done].
      * by destruct (Hdir es').
    + rewrite He in Hfind. simpl in Hfind.
      rewrite fs_find_cons, entry_set_entry. simpl.
      apply (IH ch); [done | congruence | done].
  - destruct Hcase as [(-> & Hdir & ->)|(Hcs & ch & ch' & He & Hw & ->)];
      by rewrite fs_find_cons, entry_set_entry_ne.
Qed.

(** Creating directories leaves every file alone. *)
Lemma fs_makedirs_keeps comps : ∀ n n' comps' d,
  fs_makedirs comps n = Some n' →
  fs_find comps' n = Some (FsFile d) → fs_find comps' n' = Some (FsFile d).
Proof.
  induction comps as [|c cs IH]; intros n n' comps' d H Hfind.
  - destruct n; simpl in H; congruence.
  - destruct n as [dd|es]; [done|]. simpl in H.
    destruct (fs_makedirs cs (default (FsDir []) (entry c es))) as [ch|] eqn:E; [|done].
    injection H as <-.
    destruct comps' as [|c' cs']; [done|]. rewrite fs_find_cons in *.
    destruct (decide (c = c')) as [<-|Hc].
    + rewrite entry_set_entry. simpl.
      destruct (entry c es) as [x|]; [|done]. simpl in *. by apply (IH x).
    + by rewrite entry_set_entry_ne.
Qed.

Lemma makedirs_keeps_files fs fs' path :
  makedirs fs path = Some fs' → keeps_files fs fs'.
Proof.
  unfold makedirs. destruct (truthy path); [|done].
  destruct (fs_makedirs _ _) as [r|] eqn:E; [|done]. intros [= <-] p d.
  unfold lookup. simpl. destruct (truthy p); [|done].
  by apply fs_makedirs_keeps with (1 := E).
Qed.

Lemma write_file_lookup fs fs' path data :
  write_file fs path data = Some fs' → lookup fs' path = Some (FsFile data).
Proof.
  unfold write_file, lookup. destruct (truthy path); [|done].
  destruct (fs_write _ _ _) as [r|] eqn:E; [|done]. intros [= <-]. simpl.
  by apply fs_write_find with (1 := E).
Qed.

Lemma write_file_keeps_files fs fs' path data :
  write_file fs path data = Some fs' →
  os_path_exists fs path = false →
  keeps_files fs fs'.
Proof.
  unfold write_file, os_path_exists. intros H Hex p d Hp.
  apply bool_decide_eq_false in Hex.
  unfold lookup in *. destruct (truthy path); [|done].
  destruct (fs_write _ _ _) as [r|] eqn:E; [|done]. injection H as <-. simpl.
  destruct (truthy p); [|done].
  apply fs_write_other with (1 := E); [|done].
  intros Heq. apply Hex. rewrite <- Heq, Hp. eauto.
Qed.

Lemma keeps_files_refl fs : keeps_files fs fs.
Proof. by intros p d. Qed.

Lemma keeps_files_trans fs1 fs2 fs3 :
  keeps_files fs1 fs2 → keeps_files fs2 fs3 → keeps_files fs1 fs3.
Proof. intros H1 H2 p d Hp. by apply H2, H1. Qed.
End FileSystem.

(** ** The size total in general *)

Section Accounting.
Import PyStr PyFloat LocalFs Eff download_drive Spec Outcome.

Lemma scan_local_files_trace local_folder_path w evs :
  (scan_local_files local_folder_path (add_trace w evs)).1
  = (scan_local_files local_folder_path w).1.
Proof.
  unfold scan_local_files, mbind, M_bind, log, read_fs. simpl.
  by destruct (local_files_walk _ _ _ _).
Qed.

Lemma declared_total_all_counted local_files (remote_files : list remote_file) :
  filter (λ y, counted local_files true y = true) remote_files = remote_files.
Proof.
  induction remote_files as [|y l IH]; [done|].
  rewrite filter_cons_True; [by rewrite IH|].
  unfold counted. by rewrite andb_false_r.
Qed.

Lemma declared_total_filter_le (P : remote_file → bool) (remote_files : list remote_file) :
  Forall (λ y, 0 ≤ rf_size y) remote_files →
  0 ≤ declared_total (filter (λ y, P y = true) remote_files) ≤ declared_total remote_files.
Proof.
  induction 1 as [|y l Hy Hl IH]; [done|].
  destruct (P y) eqn:E.
  - rewrite filter_cons_True by done. unfold declared_total in *. simpl. lia.
  - rewrite filter_cons_False by (rewrite E; done). unfold declared_total in *. simpl. lia.
Qed.

(** X1: once the walk and the local scan have returned, the total is the sum
    of the declared sizes of the yielded items that are counted, an item
    being left out exactly when its path is a key of the local mapping and
    overwrite is off; with overwrite on it is the sum of all declared sizes;
    and when no declared size is negative it lies between 0 and that sum. *)
Theorem total_is_sum_of_counted svc local_folder_path recursive overwrite mt fe w
    remote_files local_files :
  (fetch_files_in_folder (svc_node svc) recursive "" w).1 = Ok remote_files →
  (scan_local_files local_folder_path w).1 = Ok local_files →
  (calculate_total_download_size svc local_folder_path recursive overwrite mt fe w).1
  = Ok (declared_total (filter (λ y, counted local_files overwrite y = true) remote_files))
  ∧ (overwrite = true →
     (calculate_total_download_size svc local_folder_path recursive overwrite mt fe w).1
     = Ok (declared_total remote_files))
  ∧ (Forall (λ y, 0 ≤ rf_size y) remote_files →
     ∃ total,
       (calculate_total_download_size svc local_folder_path recursive overwrite mt fe w).1
       = Ok total ∧ 0 ≤ total ≤ declared_total remote_files).
Proof.
  intros Hfetch Hscan. rewrite fetch_run in Hfetch. simpl in Hfetch.
  injection Hfetch as <-.
  assert ((calculate_total_download_size svc local_folder_path recursive overwrite mt fe w).1
          = Ok (declared_total (filter (λ y, counted local_files overwrite y = true)
                                  (yields recursive "" (svc_node svc))))) as Htotal.
  { unfold calculate_total_download_size. bind_step. rewrite fetch_run.
    unfold mbind, M_bind.
    pose proof (scan_local_files_trace local_folder_path w
                  (queries recursive (svc_node svc))) as Ht.
    rewrite Hscan in Ht.
    destruct (scan_local_files local_folder_path (add_trace _ _)) as [o w'].
    simpl in Ht. subst o.
    unfold mret, M_ret. simpl. by rewrite total_size_loop_counted, Z.add_0_l. }
  split; [exact Htotal|]. split.
  - intros ->. by rewrite Htotal, declared_total_all_counted.
  - intros Hpos. eexists. split; [exact Htotal|].
    apply (declared_total_filter_le (counted local_files overwrite)), Hpos.
Qed.

(** The totals of the sample folder, through the theorem. *)
Lemma total_is_sum_of_counted_witness :
  (calculate_total_download_size Sample.svc "dl" true false None None Sample.w).1 = Ok 107
  ∧ (calculate_total_download_size Sample.svc "dl" true true None None Sample.w).1 = Ok 607.
Proof.
  split.
  - destruct (total_is_sum_of_counted Sample.svc "dl" true false None None Sample.w
                _ _ eq_refl eq_refl) as (H & _). rewrite H. vm_compute. reflexivity.
  - destruct (total_is_sum_of_counted Sample.svc "dl" true true None None Sample.w
                _ _ eq_refl eq_refl) as (_ & H & _). rewrite (H eq_refl).
    vm_compute. reflexivity.
Defined.

(** X2: without recursion the walk sends one list query, for the folder
    itself, and yields one dictionary per item of the answer, in the order
    of the answer, with the path [join(current_path, name)]. *)
Theorem fetch_flat_lists_children (folder : rnode) (current_path : string) (w : world) :
  fetch_files_in_folder folder false current_path w
  = (Ok (map (λ child, describe current_path (node_item child)) (node_files folder)),
     add_trace w [files_list (item_id (node_item folder))]).
Proof.
  rewrite fetch_run. destruct folder as [it fs]. f_equal.
  - by rewrite yields_flat.
  - f_equal. simpl. f_equal.
    induction fs as [|x fs IH]; [done|]. simpl. by rewrite andb_false_r.
Qed.
End Accounting.

(** ** The gate in bytes *)

Section GateInBytes.
Import PyStr PyFloat LocalFs Eff download_drive Spec Outcome.

Lemma new_events_add_trace w evs : new_events w (add_trace w evs) = evs.
Proof. unfold new_events, add_trace. simpl. apply list.drop_app_length. Qed.

(** X3: with a destination path, and a total and a free space of at most
    [2 ** 53] bytes, the check answers [True] exactly when the total in
    bytes is at most [f_bavail * f_frsize] of ["/"]: the two divisions by
    [1024 ** 3] round nothing, and cancel. *)
Theorem check_disk_space_compares_bytes svc path recursive mt fe overwrite w total :
  truthy path = true →
  (calculate_total_download_size svc path recursive overwrite mt fe w).1 = Ok total →
  Z.abs total ≤ 2 ^ 53 →
  Z.abs (free_bytes (w_fs w)) ≤ 2 ^ 53 →
  (check_disk_space svc (Some path) recursive mt fe overwrite w).1
  = Ok (total <=? free_bytes (w_fs w)).
Proof.
  intros Hpath Htotal Hbt Hbf.
  rewrite (check_disk_space_run _ _ _ _ _ _ _ total) by done.
  rewrite (gate_in_bytes _ _ Hbt Hbf). simpl. by rewrite Z.leb_antisym.
Qed.

(** The check on the sample volumes, through the theorem. *)
Lemma check_disk_space_compares_bytes_witness :
  (check_disk_space Sample.svc (Some "dl") true None None false Sample.w).1 = Ok true
  ∧ (check_disk_space Sample.svc (Some "dl") true None None false Sample.w_full).1 = Ok false.
Proof.
  split.
  - rewrite (check_disk_space_compares_bytes Sample.svc "dl" true None None false Sample.w 107);
      [reflexivity | reflexivity | reflexivity | vm_compute; discriminate
       | vm_compute; discriminate].
  - rewrite (check_disk_space_compares_bytes Sample.svc "dl" true None None false
               Sample.w_full 107);
      [reflexivity | reflexivity | reflexivity | vm_compute; discriminate
       | vm_compute; discriminate].
Defined.

Lemma scan_local_files_outcome local_folder_path w :
  (∃ local_files, (scan_local_files local_folder_path w).1 = Ok local_files)
  ∨ (scan_local_files local_folder_path w).1 = Raise OSError.
Proof.
  unfold scan_local_files, mbind, M_bind, log, read_fs. simpl.
  destruct (local_files_walk _ _ _ _); [left; eauto | by right].
Qed.

Lemma calculate_total_download_size_outcome svc path recursive overwrite mt fe w :
  (∃ total, (calculate_total_download_size svc path recursive overwrite mt fe w).1 = Ok total)
  ∨ (calculate_total_download_size svc path recursive overwrite mt fe w).1 = Raise OSError.
Proof.
  unfold calculate_total_download_size, mbind, M_bind. rewrite !fetch_run.
  destruct (scan_local_files_outcome path (add_trace w (queries recursive (svc_node svc))))
    as [[local_files E]|E];
    destruct (scan_local_files path _) as [o w']; simpl in E; subst o;
    [left; eexists; reflexivity | right; reflexivity].
Qed.

Lemma check_disk_space_reads_only svc local_folder_path recursive mt fe overwrite w :
  ∃ o evs, check_disk_space svc local_folder_path recursive mt fe overwrite w
           = (o, add_trace w evs)
           ∧ Forall (λ e, is_transfer e = false) evs
           ∧ ((∃ enough, o = Ok enough) ∨ o = Raise OSError).
Proof.
  destruct local_folder_path as [path|];
    [|exists (Ok true), []; rewrite add_trace_nil; repeat split; eauto].
  destruct (truthy path) eqn:Hpath.
  2:{ exists (Ok true), []. unfold check_disk_space. rewrite Hpath, add_trace_nil.
      repeat split; eauto. }
  destruct (calculate_total_download_size_outcome svc path recursive overwrite mt fe w)
    as [[total E]|E].
  - eexists _, _. rewrite (check_disk_space_run _ _ _ _ _ _ _ total Hpath E).
    split; [done|]. split; [|eauto].
    apply Forall_app. split; [apply is_transfer_queries | by repeat constructor].
  - exists (Raise OSError), (queries recursive (svc_node svc) ++ [os_walk_ev path]).
    pose proof (calculate_total_download_size_state svc path recursive overwrite mt fe w) as Hst.
    unfold check_disk_space. rewrite Hpath. change (negb true) with false. cbv beta iota.
    bind_step. destruct (calculate_total_download_size _ _ _ _ _ _ w) as [o w'].
    simpl in E, Hst. subst o w'. split; [done|]. split; [|by right].
    apply Forall_app. split; [apply is_transfer_queries | by repeat constructor].
Qed.

(** X4: either the arguments are valid and the check has answered [True],
    or the script ends with status 1 or 2 having left the local file system
    as it was and having sent no media or export request. *)
Theorem main_transfers_only_after_check svc a w :
  ((return_object a = true ∨ truthy_opt (local_folder_path a) = true)
   ∧ (check_disk_space svc (local_folder_path a) (recursive a) (mime_types a)
        (file_extensions a) (overwrite a) w).1 = Ok true)
  ∨ (w_fs (main svc a w).2 = w_fs w
     ∧ Forall (λ e, is_transfer e = false) (new_events w (main svc a w).2)
     ∧ 1 ≤ status (main svc a w).1 ≤ 2).
Proof.
  unfold main.
  destruct (negb (return_object a) && negb (truthy_opt (local_folder_path a))) eqn:Hargs.
  { right. simpl. unfold new_events. rewrite drop_all. by repeat split. }
  assert (return_object a = true ∨ truthy_opt (local_folder_path a) = true) as Hvalid.
  { destruct (return_object a), (truthy_opt (local_folder_path a)); auto. }
  destruct (check_disk_space_reads_only svc (local_folder_path a) (recursive a)
              (mime_types a) (file_extensions a) (overwrite a) w)
    as (o & evs & Hrun & Hevs & [[enough ->]| ->]).
  - destruct enough; [left; by rewrite Hrun|].
    right. unfold mbind, M_bind, mret, M_ret. cbv beta iota. rewrite Hrun. simpl.
    rewrite new_events_add_trace. by repeat split.
  - right. unfold mbind, M_bind, mret, M_ret. cbv beta iota. rewrite Hrun. simpl.
    rewrite new_events_add_trace. by repeat split.
Qed.
End GateInBytes.

(** ** One download *)

Section OneFile.
Import PyStr PyFloat LocalFs Eff download_drive Spec Outcome.

Lemma download_file_run svc file_id file_name mime_type file_extension folder_path
    return_object w :
  download_file svc file_id file_name mime_type file_extension folder_path return_object w
  = let data := fetched svc file_id mime_type in
    let request := request_of file_id mime_type in
    if return_object
    then (Ok (Some {| fo_file_id := file_id;
                      fo_file_name := match export_mime_types !! mime_type with
                                      | Some _ => file_name +:+ file_extension
                                      | None => file_name
                                      end;
                      fo_mime_type := mime_type; fo_file_extension := file_extension;
                      fo_content := data |}),
          add_trace w [request])
    else match folder_path with
         | None => (Ok None, add_trace w [request])
         | Some fp =>
             let p := OsPath.join fp file_name in
             match write_file (w_fs w) p data with
             | Some fs' =>
                 (Ok None, {| w_fs := fs'; w_trace := w_trace w ++ [request; os_write_ev p data] |})
             | None => (Raise OSError, add_trace w [request; os_write_ev p data])
             end
         end.
Proof.
  unfold download_file, fetched, request_of.
  destruct (export_mime_types !! mime_type) as [target|];
    destruct return_object; try reflexivity;
    destruct folder_path as [fp|]; try reflexivity;
    unfold mbind, M_bind, log, update_fs, mret, M_ret, add_trace; simpl;
    destruct (write_file (w_fs w) (OsPath.join fp file_name) _); simpl;
    by rewrite <- app_assoc.
Qed.

Lemma truthy_join a b : truthy a = true → truthy (OsPath.join a b) = true.
Proof.
  intros Ha. unfold OsPath.join.
  destruct b as [|c b]; simpl.
  - rewrite Ha. simpl. destruct (endswith a "/"); by destruct a.
  - destruct (Ascii.eqb c "/"); [done|]. rewrite Ha. simpl.
    destruct (endswith a "/"); by destruct a.
Qed.

Lemma join_absolute a b : startswith b "/" = true → OsPath.join a b = b.
Proof. intros H. unfold OsPath.join. by rewrite H. Qed.

(** X6: a remote name that starts with ['/'] is written at that very path,
    whatever the destination folder: [os.path.join] drops the folder. *)
Theorem download_file_absolute_name svc file_id file_name mime_type file_extension
    folder_path w :
  startswith file_name "/" = true →
  let r := download_file svc file_id file_name mime_type file_extension
             (Some folder_path) false w in
  w_trace r.2
  = w_trace w ++ [request_of file_id mime_type;
                  os_write_ev file_name (fetched svc file_id mime_type)]
  ∧ (r.1 = Ok None →
     lookup (w_fs r.2) file_name = Some (FsFile (fetched svc file_id mime_type))).
Proof.
  intros Habs. cbv zeta. rewrite download_file_run. cbv zeta iota.
  rewrite (join_absolute _ _ Habs).
  destruct (write_file _ _ _) as [fs'|] eqn:E; simpl.
  - split; [done|]. intros _. by apply write_file_lookup with (1 := E).
  - by split.
Qed.

(** A file named [/mnt/usb/x] downloaded to [dl], through the theorem. *)
Lemma download_file_absolute_name_witness :
  lookup (w_fs (download_file Sample.svc "Z" "/mnt/usb/x" "text/plain" "" (Some "dl")
                  false Sample.w).2) "/mnt/usb/x"
  = Some (FsFile [Byte.x68; Byte.x69]).
Proof.
  destruct (download_file_absolute_name Sample.svc "Z" "/mnt/usb/x" "text/plain" ""
              "dl" Sample.w eq_refl) as [_ H].
  apply H. vm_compute. reflexivity.
Defined.
End OneFile.

(** ** Invariants of the executor *)

(** An invariant of every step of the executor is an invariant of its runs. *)
Section Invariant.
Import PyStr PyFloat LocalFs Eff download_drive Spec Outcome.

Variable svc : service.
Variables recursive overwrite return_object : bool.
Variables mime_types file_extensions : option (list string).
Variable R : world → world → Prop.
Variable ok : option string → Prop.

Hypothesis R_refl : ∀ w, R w w.
Hypothesis R_trans : ∀ w1 w2 w3, R w1 w2 → R w2 w3 → R w1 w3.
Hypothesis R_log : ∀ w e, R w (add_trace w [e]).
Hypothesis R_makedirs :
  return_object = false → ∀ fp w, R w (update_fs (λ fs, makedirs fs fp) w).2.
Hypothesis R_download : ∀ file_id file_name mime_type folder_path w,
  ok folder_path →
  should_process_file (w_fs w) mime_type (get_file_extension file_name)
    (join_if folder_path file_name) mime_types file_extensions return_object overwrite
  = true →
  R w (download_file svc file_id file_name mime_type (get_file_extension file_name)
         folder_path return_object w).2.
Hypothesis ok_join : ∀ folder_path file_name,
  ok folder_path → ok (join_if folder_path file_name).

Lemma bind_invariant {A B} (m : M world A) (f : A → M world B) w :
  R w (m w).2 →
  (∀ a w', m w = (Ok a, w') → R w' (f a w').2) →
  R w ((m ≫= f) w).2.
Proof.
  intros Hm Hf. unfold mbind, M_bind.
  destruct (m w) as [[a|c|e] w'] eqn:E; simpl in *; [|done..].
  eapply R_trans; [exact Hm|]. by apply Hf.
Qed.

Lemma download_files_in_folder_unfold it items folder_path :
  download_files_in_folder svc (RNode it items) folder_path recursive overwrite
    return_object mime_types file_extensions
  = (log (files_list (item_id it));;
     match items with
     | [] => mret []
     | _ :: _ =>
         (match folder_path with
          | Some fp =>
              if negb return_object
              then log (os_makedirs_ev fp);; update_fs (λ fs, makedirs fs fp)
              else mret tt
          | None => mret tt
          end);;
         items_loop svc folder_path recursive overwrite return_object
           mime_types file_extensions items []
     end).
Proof. reflexivity. Qed.

Lemma download_files_in_folder_invariant (folder : rnode) : ∀ folder_path w,
  ok folder_path →
  R w (download_files_in_folder svc folder folder_path recursive overwrite return_object
         mime_types file_extensions w).2.
Proof.
  induction folder as [it items IH] using rnode_forall_ind.
  intros folder_path w Hok. rewrite download_files_in_folder_unfold.
  apply bind_invariant; [apply R_log|]. intros [] w1 _.
  destruct items as [|item0 items0]; [apply R_refl|].
  remember (item0 :: items0) as items eqn:Eitems. clear Eitems item0 items0.
  apply bind_invariant.
  { destruct folder_path as [fp|]; [|apply R_refl].
    destruct return_object eqn:Hro; [apply R_refl|]. simpl.
    apply bind_invariant; [apply R_log|]. intros [] w2 _. by apply R_makedirs. }
  intros [] w2 _. generalize (@nil file_object) as file_objects. revert w2.
  induction IH as [|item rest Hitem _ IHrest]; intros w2 file_objects; [apply R_refl|].
  simpl items_loop. cbv zeta.
  destruct (bool_decide (item_mimeType (node_item item) = FOLDER)).
  - destruct recursive; [|apply IHrest].
    apply bind_invariant; [apply Hitem, ok_join, Hok|]. intros objs w3 _. apply IHrest.
  - apply bind_invariant; [apply R_refl|]. intros fs w3 [= <- <-].
    destruct (should_process_file _ _ _ _ _ _ _ _) eqn:Hsp; simpl negb; cbv iota;
      [|apply IHrest].
    apply bind_invariant; [by apply R_download|].
    intros [fo|] w4 _; [destruct return_object|]; apply IHrest.
Qed.

Lemma process_drive_item_invariant local_folder_path w :
  ok local_folder_path →
  R w (process_drive_item svc local_folder_path recursive overwrite return_object
         mime_types file_extensions w).2.
Proof.
  intros Hok. unfold process_drive_item.
  apply bind_invariant; [apply R_log|]. intros [] w1 _.
  destruct (bool_decide _); [by apply download_files_in_folder_invariant|].
  apply bind_invariant; [apply R_refl|]. intros fs w2 [= <- <-].
  destruct (should_process_file _ _ _ _ _ _ _ _) eqn:Hsp; simpl; [|apply R_refl].
  apply bind_invariant; [by apply R_download|].
  intros [fo|] w3 _; [destruct return_object|]; apply R_refl.
Qed.
End Invariant.

Section Safety.
Import PyStr PyFloat LocalFs Eff download_drive Spec Outcome.

Lemma download_file_return_object_fs svc file_id file_name mime_type ext folder_path w :
  w_fs (download_file svc file_id file_name mime_type ext folder_path true w).2 = w_fs w.
Proof. by rewrite download_file_run. Qed.

(** In return-object mode the local file system is not touched. *)
Lemma process_drive_item_return_object_fs svc local_folder_path recursive overwrite mt fe w :
  w_fs (process_drive_item svc local_folder_path recursive overwrite true mt fe w).2 = w_fs w.
Proof.
  apply (process_drive_item_invariant svc recursive overwrite true mt fe
           (λ w w', w_fs w' = w_fs w) (λ _, True)); try done.
  - intros w1 w2 w3 H1 H2. by rewrite H2.
  - intros. apply download_file_return_object_fs.
Qed.

Lemma download_file_keeps_files svc file_id file_name mime_type folder_path mt fe w :
  truthy_opt folder_path = true →
  should_process_file (w_fs w) mime_type (get_file_extension file_name)
    (join_if folder_path file_name) mt fe false false = true →
  keeps_files (w_fs w)
    (w_fs (download_file svc file_id file_name mime_type (get_file_extension file_name)
             folder_path false w).2).
Proof.
  intros Hfp Hsp. rewrite download_file_run. cbv zeta iota.
  destruct folder_path as [fp|]; [|done]. simpl in Hfp.
  unfold should_process_file, join_if in Hsp. rewrite Hfp in Hsp.
  destruct (_ && _) in Hsp; [done|]. destruct (_ && _) in Hsp; [done|].
  simpl in Hsp. rewrite (truthy_join _ _ Hfp) in Hsp. simpl in Hsp.
  destruct (os_path_exists (w_fs w) (OsPath.join fp file_name)) eqn:Hex; [done|].
  destruct (write_file _ _ _) as [fs'|] eqn:E; simpl; [|apply keeps_files_refl].
  by apply write_file_keeps_files with (1 := E).
Qed.

Lemma process_drive_item_keeps_files svc local_folder_path recursive mt fe w :
  truthy_opt local_folder_path = true →
  keeps_files (w_fs w)
    (w_fs (process_drive_item svc local_folder_path recursive false false mt fe w).2).
Proof.
  apply (process_drive_item_invariant svc recursive false false mt fe
           (λ w w', keeps_files (w_fs w) (w_fs w')) (λ fp, truthy_opt fp = true)).
  - intros. apply keeps_files_refl.
  - intros w1 w2 w3. apply keeps_files_trans.
  - intros. apply keeps_files_refl.
  - intros _ fp w1. unfold update_fs.
    destruct (makedirs (w_fs w1) fp) as [fs'|] eqn:E; simpl; [|apply keeps_files_refl].
    by apply makedirs_keeps_files with (1 := E).
  - intros id name mime fp w1 Hok Hsp. by apply (download_file_keeps_files _ _ _ _ _ mt fe).
  - intros [fp|] name H; [|done]. simpl in *. rewrite H. simpl. by apply truthy_join.
Qed.

(** X7: without [--overwrite], a regular file that exists before the run
    exists after it with the same bytes, however the run ends. *)
Theorem main_keeps_existing_files svc a w p d :
  overwrite a = false →
  lookup (w_fs w) p = Some (FsFile d) →
  lookup (w_fs (main svc a w).2) p = Some (FsFile d).
Proof.
  intros How Hp. revert p d Hp. change (keeps_files (w_fs w) (w_fs (main svc a w).2)).
  unfold main.
  destruct (negb (return_object a) && negb (truthy_opt (local_folder_path a))) eqn:Hargs;
    [apply keeps_files_refl|].
  destruct (check_disk_space_reads_only svc (local_folder_path a) (recursive a)
              (mime_types a) (file_extensions a) (overwrite a) w)
    as (o & evs & Hrun & _ & _).
  unfold mbind, M_bind, mret, M_ret. cbv beta iota. rewrite Hrun.
  destruct o as [[]|c|e]; simpl; try apply keeps_files_refl.
  rewrite How.
  set (w1 := add_trace w evs).
  change (w_fs w) with (w_fs w1).
  assert (keeps_files (w_fs w1)
            (w_fs (process_drive_item svc (local_folder_path a) (recursive a) false
                     (return_object a) (mime_types a) (file_extensions a) w1).2)) as H.
  { destruct (return_object a) eqn:Hro.
    - rewrite process_drive_item_return_object_fs. apply keeps_files_refl.
    - apply process_drive_item_keeps_files. simpl in Hargs.
      by destruct (truthy_opt (local_folder_path a)). }
  by destruct (process_drive_item _ _ _ _ _ _ _ w1) as [[l|c|e] w2].
Qed.

(** The PDF already in the sample destination, through the theorem. *)
Lemma main_keeps_existing_files_witness :
  lookup (w_fs (main Sample.svc (Sample.cli (Some "dl") true false None) Sample.w).2)
    "dl/a.pdf" = Some (FsFile [Byte.x00]).
Proof.
  apply (main_keeps_existing_files Sample.svc (Sample.cli (Some "dl") true false None)
           Sample.w "dl/a.pdf" [Byte.x00]); reflexivity.
Defined.

(** X8: in return-object mode the run leaves the local file system as it
    was, with or without a destination path. *)
Theorem main_return_object_leaves_files svc a w :
  return_object a = true →
  w_fs (main svc a w).2 = w_fs w.
Proof.
  intros Hro. unfold main. rewrite Hro. simpl.
  destruct (check_disk_space_reads_only svc (local_folder_path a) (recursive a)
              (mime_types a) (file_extensions a) (overwrite a) w)
    as (o & evs & Hrun & _ & _).
  unfold mbind, M_bind, mret, M_ret. cbv beta iota. rewrite Hrun.
  destruct o as [[]|c|e]; simpl; try done.
  pose proof (process_drive_item_return_object_fs svc (local_folder_path a) (recursive a)
                (overwrite a) (mime_types a) (file_extensions a) (add_trace w evs)) as H.
  by destruct (process_drive_item _ _ _ _ _ _ _ _) as [[l|c|e] w2].
Qed.
(** Return-object mode on the sample folder, through the theorem. *)
Lemma main_return_object_leaves_files_witness :
  w_fs (main Sample.svc (Sample.cli (Some "dl") true true None) Sample.w).2 = Sample.fs.
Proof.
  exact (main_return_object_leaves_files Sample.svc
           (Sample.cli (Some "dl") true true None) Sample.w eq_refl).
Defined.
End Safety.

(** ** Refused requests of the download tool, and the work list of return-object mode *)

Section Refusals.
Import PyStr PyFloat LocalFs Eff download_drive Spec Outcome.

Lemma should_process_file_return_object fs fs' mime_type ext file_path mt fe overwrite :
  should_process_file fs mime_type ext file_path mt fe true overwrite
  = should_process_file fs' mime_type ext None mt fe true overwrite.
Proof. unfold should_process_file. by repeat destruct (_ && _). Qed.

Lemma execute_run refuses e w :
  HttpErrors.execute refuses e w
  = (if refuses e then Raise HttpError else Ok tt, add_trace w [e]).
Proof.
  unfold HttpErrors.execute, mbind, M_bind, log, add_trace.
  by destruct (refuses e).
Qed.

(** A refused download leaves the request in the trace and nothing else;
    an answered one goes as [download_file] above. *)
Lemma download_file_refusal refuses svc file_id file_name mime_type file_extension
    folder_path return_object w :
  HttpErrors.download_file refuses svc file_id file_name mime_type file_extension
    folder_path return_object w
  = if refuses (request_of file_id mime_type)
    then (Ok None, add_trace w [request_of file_id mime_type])
    else download_file svc file_id file_name mime_type file_extension folder_path
           return_object w.
Proof.
  unfold HttpErrors.download_file, HttpErrors.try_http, download_file, request_of.
  destruct (export_mime_types !! mime_type) as [target|];
    unfold mbind, M_bind; rewrite execute_run; unfold log, add_trace;
    (destruct (refuses _); [reflexivity|]);
    (destruct return_object; [reflexivity|]);
    (destruct folder_path as [fp|]; [|reflexivity]);
    unfold update_fs, mret, M_ret; simpl;
    by destruct (write_file _ _ _).
Qed.

(** With a service that refuses nothing the handler of [download_file] does
    not run. *)
Lemma download_file_answered svc file_id file_name mime_type file_extension folder_path
    return_object w :
  HttpErrors.download_file (λ _, false) svc file_id file_name mime_type file_extension
    folder_path return_object w
  = download_file svc file_id file_name mime_type file_extension folder_path
      return_object w.
Proof. by rewrite download_file_refusal. Qed.

Lemma refusals_unfold refuses svc it items folder_path recursive overwrite return_object
    mime_types file_extensions :
  HttpErrors.download_files_in_folder refuses svc (RNode it items) folder_path recursive
    overwrite return_object mime_types file_extensions
  = HttpErrors.try_http
      (HttpErrors.execute refuses (files_list (item_id it));;
       match items with
       | [] => mret []
       | _ :: _ =>
           (match folder_path with
            | Some fp =>
                if negb return_object
                then log (os_makedirs_ev fp);; update_fs (λ fs, makedirs fs fp)
                else mret tt
            | None => mret tt
            end);;
           HttpErrors.items_loop refuses svc
             (λ item subfolder_path,
                HttpErrors.download_files_in_folder refuses svc item subfolder_path
                  recursive overwrite return_object mime_types file_extensions)
             folder_path recursive overwrite return_object mime_types file_extensions
             items []
       end)
      (mret []).
Proof. reflexivity. Qed.

Lemma calm_bind {A B} (m : M world A) (f : A → M world B) :
  calm m → (∀ a, calm (f a)) → calm (m ≫= f).
Proof.
  intros Hm Hf w. unfold mbind, M_bind. specialize (Hm w).
  destruct (m w) as [[a|c|e] w']; simpl in *; [apply Hf|done|].
  intros [= ->]. by apply Hm.
Qed.

Lemma calm_ret {A} (a : A) : calm (mret a : M world A).
Proof. by intros w. Qed.

Lemma calm_log e : calm (log e).
Proof. by intros w. Qed.

Lemma calm_read_fs : calm read_fs.
Proof. by intros w. Qed.

Lemma calm_update_fs f : calm (update_fs f).
Proof. intros w. unfold update_fs. by destruct (f (w_fs w)). Qed.

Lemma calm_download_file svc file_id file_name mime_type file_extension folder_path
    return_object :
  calm (download_file svc file_id file_name mime_type file_extension folder_path
          return_object).
Proof.
  intros w. rewrite download_file_run. cbv zeta.
  destruct return_object; [done|]. destruct folder_path; [|done].
  by destruct (write_file _ _ _).
Qed.

Lemma calm_download_files_in_folder svc recursive overwrite return_object mt fe
    (folder : rnode) : ∀ folder_path,
  calm (download_files_in_folder svc folder folder_path recursive overwrite return_object
          mt fe).
Proof.
  induction folder as [it items IH] using rnode_forall_ind.
  intros folder_path. rewrite download_files_in_folder_unfold.
  apply calm_bind; [apply calm_log|]. intros [].
  destruct items as [|item0 items0]; [apply calm_ret|].
  remember (item0 :: items0) as items eqn:Eitems. clear Eitems item0 items0.
  apply calm_bind.
  { destruct folder_path; [|apply calm_ret]. destruct (negb return_object); [|apply calm_ret].
    apply calm_bind; [apply calm_log|]. intros []. apply calm_update_fs. }
  intros []. generalize (@nil file_object) as file_objects.
  induction IH as [|item rest Hitem _ IHrest]; intros file_objects; [apply calm_ret|].
  simpl items_loop. cbv zeta.
  destruct (bool_decide (item_mimeType (node_item item) = FOLDER)).
  - destruct recursive; [|apply IHrest].
    apply calm_bind; [apply Hitem|]. intros objs. apply IHrest.
  - apply calm_bind; [apply calm_read_fs|]. intros fs.
    destruct (negb _); [apply IHrest|].
    apply calm_bind; [apply calm_download_file|].
    intros [fo|]; [destruct return_object|]; apply IHrest.
Qed.

Lemma bind_ext {A B} (m m' : M world A) (f f' : A → M world B) w :
  m w = m' w → (∀ a w', f a w' = f' a w') → (m ≫= f) w = (m' ≫= f') w.
Proof.
  intros Hm Hf. unfold mbind, M_bind. rewrite Hm.
  by destruct (m' w) as [[a|c|e] w'].
Qed.

(** With a service that refuses nothing the handler of
    [download_files_in_folder] does not run, in the folder or below it. *)
Lemma download_files_in_folder_answered svc recursive overwrite return_object mt fe
    (folder : rnode) : ∀ folder_path w,
  HttpErrors.download_files_in_folder (λ _, false) svc folder folder_path recursive
    overwrite return_object mt fe w
  = download_files_in_folder svc folder folder_path recursive overwrite return_object
      mt fe w.
Proof.
  induction folder as [it items IH] using rnode_forall_ind.
  intros folder_path w. rewrite refusals_unfold.
  pose proof (calm_download_files_in_folder svc recursive overwrite return_object mt fe
                (RNode it items) folder_path w) as Hcalm.
  rewrite download_files_in_folder_unfold in Hcalm |- *.
  unfold HttpErrors.try_http.
  match goal with |- match ?b w with _ => _ end = ?c w =>
    assert (b w = c w) as -> end.
  - apply bind_ext; [by rewrite execute_run|]. intros [] w1.
    destruct items as [|item0 items0]; [done|].
    remember (item0 :: items0) as items eqn:Eitems. clear Eitems item0 items0 Hcalm.
    apply bind_ext; [done|]. intros [] w2.
    generalize (@nil file_object) as file_objects. revert w2.
    induction IH as [|item rest Hitem _ IHrest]; intros w2 file_objects; [done|].
    simpl HttpErrors.items_loop. simpl items_loop. cbv zeta.
    destruct (bool_decide (item_mimeType (node_item item) = FOLDER)).
    + destruct recursive; [|apply IHrest].
      apply bind_ext; [apply Hitem|]. intros objs w3. apply IHrest.
    + apply bind_ext; [done|]. intros fs w3.
      destruct (negb _); [apply IHrest|].
      apply bind_ext; [apply download_file_answered|].
      intros [fo|] w4; [destruct return_object|]; apply IHrest.
  - match type of Hcalm with (?r).1 ≠ _ => destruct r as [[a|c|[]] w'] end; done.
Qed.
(** X5: outside return-object mode [download_file] returns [None] when it
    returns.  When the service refuses the download the handler leaves the
    files as they were and the trace has gained the request alone.  When it
    answers, the file at [join(folder_path, file_name)] holds exactly the
    bytes fetched (a native document is stored under its unchanged name),
    the trace has gained the request and the write, and with a destination
    that is not empty a second pass without overwrite skips the item. *)
Theorem download_file_writes_fetched_bytes refuses svc file_id file_name mime_type
    file_extension folder_path w r w' :
  HttpErrors.download_file refuses svc file_id file_name mime_type file_extension
    (Some folder_path) false w = (Ok r, w') →
  r = None
  ∧ if refuses (request_of file_id mime_type)
    then w_fs w' = w_fs w ∧ w_trace w' = w_trace w ++ [request_of file_id mime_type]
    else lookup (w_fs w') (OsPath.join folder_path file_name)
         = Some (FsFile (fetched svc file_id mime_type))
         ∧ w_trace w'
           = w_trace w ++ [request_of file_id mime_type;
                           os_write_ev (OsPath.join folder_path file_name)
                             (fetched svc file_id mime_type)]
         ∧ ∀ mime_types file_extensions,
             truthy folder_path = true →
             should_process_file (w_fs w') mime_type file_extension
               (join_if (Some folder_path) file_name) mime_types file_extensions
               false false
             = false.
Proof.
  rewrite download_file_refusal.
  destruct (refuses (request_of file_id mime_type)).
  { by intros [= <- <-]. }
  rewrite download_file_run. cbv zeta. cbv iota.
  destruct (write_file _ _ _) as [fs'|] eqn:E; [|done].
  intros [= <- <-]. split; [done|]. simpl.
  pose proof (write_file_lookup _ _ _ _ E) as Hl.
  split; [done|]. split; [done|].
  intros mts fes Hfp. unfold should_process_file, join_if. rewrite Hfp.
  destruct (_ && _); [done|]. destruct (_ && _); [done|]. simpl.
  rewrite (truthy_join _ _ Hfp). unfold os_path_exists. rewrite Hl.
  by rewrite bool_decide_eq_true_2.
Qed.

(** The export of the sample document when the service answers, through the
    theorem. *)
Lemma download_file_writes_fetched_bytes_witness :
  lookup (w_fs (HttpErrors.download_file (λ _, false) Sample.svc "B" "Report"
                  "application/vnd.google-apps.document" "" (Some "dl") false
                  Sample.w).2) "dl/Report"
  = Some (FsFile [Byte.x25; Byte.x50; Byte.x44; Byte.x46]).
Proof.
  destruct (HttpErrors.download_file (λ _, false) Sample.svc "B" "Report"
              "application/vnd.google-apps.document" "" (Some "dl") false Sample.w)
    as [o w'] eqn:E.
  assert (o = Ok None) as -> by (by vm_compute in E; injection E as <- _).
  destruct (download_file_writes_fetched_bytes _ _ _ _ _ _ _ _ _ _ E) as (_ & H & _).
  exact H.
Defined.

Lemma return_object_objects refuses svc recursive overwrite mt fe :
  (∀ parent, refuses (files_list parent) = false) →
  ∀ (folder : rnode) folder_path current_path w,
  ∃ w',
    HttpErrors.download_files_in_folder refuses svc folder folder_path recursive overwrite
      true mt fe w
    = (Ok (map (object_of svc)
             (filter (λ y, wanted (w_fs w) mt fe overwrite y && answered refuses y = true)
                (yields recursive current_path folder))), w')
    ∧ w_fs w' = w_fs w.
Proof.
  intros Hlist folder.
  induction folder as [it items IH] using rnode_forall_ind.
  intros folder_path current_path w.
  rewrite refusals_unfold. unfold HttpErrors.try_http.
  match goal with |- ∃ w', match ?b w with _ => _ end = _ ∧ _ =>
    cut (∃ w', b w = (Ok (map (object_of svc)
             (filter (λ y, wanted (w_fs w) mt fe overwrite y && answered refuses y = true)
                (yields recursive current_path (RNode it items)))), w') ∧ w_fs w' = w_fs w)
  end.
  { intros (w' & -> & Hfs). by exists w'. }
  unfold mbind at 1, M_bind at 1. rewrite execute_run, Hlist.
  destruct items as [|item0 items0]; [by eexists|].
  remember (item0 :: items0) as items eqn:Eitems. clear Eitems item0 items0.
  assert (∀ objs : list file_object, objs = [] ++ objs) as Hnil by done.
  simpl yields. rewrite (Hnil (map _ _)).
  replace (match folder_path with
           | Some fp => if negb true then log (os_makedirs_ev fp);;
                                          update_fs (λ fs, makedirs fs fp) else mret ()
           | None => mret ()
           end) with (mret () : M world unit) by (by destruct folder_path).
  unfold mbind at 1, M_bind at 1, mret at 1, M_ret at 1.
  set (w1 := add_trace w [files_list (item_id it)]).
  change (w_fs w) with (w_fs w1). generalize w1. clear w1 w.
  generalize (@nil file_object) as file_objects.
  induction IH as [|item rest Hitem _ IHrest]; intros file_objects w.
  - exists w. simpl. by rewrite app_nil_r.
  - simpl HttpErrors.items_loop. cbv zeta. simpl flat_map.
    rewrite filter_app, map_app, app_assoc.
    destruct (bool_decide (item_mimeType (node_item item) = FOLDER)) eqn:Ef.
    + destruct recursive eqn:Erec; simpl andb; cbv iota.
      * destruct (Hitem (join_if folder_path (item_name (node_item item)))
                    (OsPath.join current_path (item_name (node_item item))) w)
          as (w2 & Hrun & Hfs).
        unfold mbind at 1, M_bind at 1. rewrite Hrun.
        destruct (IHrest (file_objects ++ map (object_of svc)
                     (filter (λ y, wanted (w_fs w) mt fe overwrite y
                                   && answered refuses y = true)
                        (yields true (OsPath.join current_path (item_name (node_item item)))
                           item))) w2) as (w3 & Hrun3 & Hfs3).
        exists w3. rewrite Hrun3, Hfs. split; [done | congruence].
      * rewrite filter_cons_False, app_nil_r.
        -- apply IHrest.
        -- unfold wanted. simpl. rewrite Ef. done.
    + simpl andb. cbv iota.
      unfold mbind at 1, M_bind at 1, read_fs at 1.
      rewrite (should_process_file_return_object (w_fs w) (w_fs w) _ _ _ mt fe overwrite).
      destruct (should_process_file (w_fs w) _ _ None mt fe true overwrite) eqn:Hsp.
      * change (negb true) with false. cbv iota. unfold mbind at 1, M_bind at 1.
        rewrite download_file_refusal.
        destruct (refuses (request_of (item_id (node_item item))
                             (item_mimeType (node_item item)))) eqn:Href.
        -- rewrite filter_cons_False, app_nil_r
             by (unfold wanted, answered; simpl; rewrite Ef, Hsp, Href; done).
           destruct (IHrest file_objects
                       (add_trace w [request_of (item_id (node_item item))
                                       (item_mimeType (node_item item))]))
             as (w3 & Hrun3 & Hfs3).
           exists w3. split; [|done]. exact Hrun3.
        -- rewrite download_file_run. cbv zeta iota.
           rewrite filter_cons_True
             by (unfold wanted, answered; simpl; rewrite Ef, Hsp, Href; done).
           destruct (IHrest (file_objects ++ [object_of svc
                        (describe current_path (node_item item))])
                       (add_trace w [request_of (item_id (node_item item))
                                       (item_mimeType (node_item item))]))
             as (w3 & Hrun3 & Hfs3).
           exists w3. split; [|done]. exact Hrun3.
      * change (negb false) with true. cbv iota.
        rewrite filter_cons_False, app_nil_r
          by (unfold wanted; simpl; rewrite Ef, Hsp; done).
        apply IHrest.
Qed.

(** X9: when the service refuses the listing of the folder,
    [download_files_in_folder] returns the empty list and has sent that
    request alone.  When it refuses no listing, return-object mode returns,
    in the order of the walk, one dictionary for each item the walker yields
    that is no folder, that the MIME and extension lists let through and
    whose download is answered, with the bytes fetched for it. *)
Theorem return_object_fetches_what_the_walk_yields refuses svc folder folder_path
    recursive overwrite mt fe w :
  (refuses (files_list (item_id (node_item folder))) = true →
   HttpErrors.download_files_in_folder refuses svc folder folder_path recursive overwrite
     true mt fe w
   = (Ok [], add_trace w [files_list (item_id (node_item folder))]))
  ∧ ((∀ parent, refuses (files_list parent) = false) →
     ∃ ys objs,
       (fetch_files_in_folder folder recursive "" w).1 = Ok ys
       ∧ (HttpErrors.download_files_in_folder refuses svc folder folder_path recursive
            overwrite true mt fe w).1 = Ok objs
       ∧ objs = map (object_of svc)
                  (filter (λ y, wanted (w_fs w) mt fe overwrite y && answered refuses y
                                = true) ys)).
Proof.
  split.
  - destruct folder as [it items]. simpl node_item. intros Href.
    rewrite refusals_unfold. unfold HttpErrors.try_http.
    unfold mbind at 1, M_bind at 1. by rewrite execute_run, Href.
  - intros Hlist.
    destruct (return_object_objects refuses svc recursive overwrite mt fe Hlist folder
                folder_path "" w) as (w' & Hrun & _).
    eexists _, _. rewrite fetch_run, Hrun. by repeat split.
Qed.

(** The sample tree when the service refuses the download of the PDF alone:
    the recursive walk returns the three other files. *)
Lemma return_object_fetches_what_the_walk_yields_witness :
  ∃ objs,
    (HttpErrors.download_files_in_folder
       Sample.refuses_pdf Sample.svc Sample.tree None true
       false true None None Sample.w).1 = Ok objs
    ∧ length objs = 3%nat.
Proof.
  destruct (return_object_fetches_what_the_walk_yields
              Sample.refuses_pdf Sample.svc Sample.tree None
              true false None None Sample.w) as [_ H].
  destruct H as (ys & objs & Hys & Hobjs & ->).
  { done. }
  eexists. split; [exact Hobjs|].
  vm_compute in Hys. injection Hys as <-. vm_compute. reflexivity.
Defined.
End Refusals.

(** ** The requests of the upload tool *)

Section Requests.
Import PyStr LocalFs Eff drive_upload_to_folder drive_create_folder upload_folder UploadOutcome.

Lemma grows_refl w : grows w w.
Proof.
  split; [done|]. split; [done|]. split; [done|]. split; [done|].
  exists []. by rewrite app_nil_r.
Qed.

Lemma grows_trans w1 w2 w3 : grows w1 w2 → grows w2 w3 → grows w1 w3.
Proof.
  intros (Hf1 & Hn1 & Hg1 & Ha1 & a1 & Hd1) (Hf2 & Hn2 & Hg2 & Ha2 & a2 & Hd2).
  split; [congruence|]. split; [congruence|]. split; [congruence|]. split; [congruence|].
  exists (a1 ++ a2). by rewrite Hd2, Hd1, <- app_assoc.
Qed.

Lemma listing_kept_refl w : listing_kept w w.
Proof.
  split; [done|]. split; [done|]. split; [done|]. split; [done|].
  exists []. by rewrite app_nil_r.
Qed.

Lemma listing_kept_trans w1 w2 w3 :
  listing_kept w1 w2 → listing_kept w2 w3 → listing_kept w1 w3.
Proof.
  intros (Hf1 & Hn1 & Hg1 & Ha1 & a1 & Hd1) (Hf2 & Hn2 & Hg2 & Ha2 & a2 & Hd2).
  split; [congruence|]. split; [congruence|]. split; [congruence|]. split; [congruence|].
  exists (a1 ++ a2). by rewrite Hd2, Hd1, <- app_assoc.
Qed.

Lemma grows_listing_kept w w' : grows w w' → listing_kept w w'.
Proof.
  intros (Hf & Hn & Hg & Ha & added & Hd).
  split; [done|]. split; [done|]. split; [done|]. split; [done|].
  exists (map metadata added). by rewrite Hd, map_app.
Qed.

Lemma update_file_content_only data f :
  metadata (update_file None (Some data) f) = metadata f
  ∧ df_content (update_file None (Some data) f) = data.
Proof. by destruct f. Qed.

(** *** What every step keeps *)

Section Kept.
Variable ow : bool.
Variable R : world → world → Prop.
Hypothesis R_refl : ∀ w, R w w.
Hypothesis R_trans : ∀ w1 w2 w3, R w1 w2 → R w2 w3 → R w1 w3.
Hypothesis R_send : ∀ r w, R w (send r w).2.
Hypothesis R_add : ∀ w f, R w (with_drive w (w_drive w ++ [f])).
Hypothesis R_update : ow = true → ∀ w fileId data,
  R w (with_drive w (map (λ f, if bool_decide (df_id f = fileId)
                               then update_file None (Some data) f else f) (w_drive w))).

Lemma bind_kept {A B} (m : M world A) (f : A → M world B) w :
  R w (m w).2 → (∀ a w', R w' (f a w').2) → R w ((m ≫= f) w).2.
Proof.
  intros Hm Hf. unfold mbind, M_bind.
  destruct (m w) as [[a|c|e] w']; simpl in *; [|done..].
  eapply R_trans; [exact Hm | apply Hf].
Qed.

Lemma try_http_kept {A} (body handler : M world A) w :
  R w (body w).2 → (∀ w', R w' (handler w').2) → R w (try_http body handler w).2.
Proof.
  intros Hb Hh. unfold try_http.
  destruct (body w) as [[a|c|[]] w']; simpl in *; try done.
  eapply R_trans; [exact Hb | apply Hh].
Qed.

Lemma files_list_kept q w : R w (files_list q w).2.
Proof.
  unfold files_list. apply bind_kept; [apply R_send|]. intros _ w'. apply R_refl.
Qed.

Lemma file_exists_kept file_name folder_id w : R w (file_exists file_name folder_id w).2.
Proof.
  unfold file_exists. apply bind_kept; [apply files_list_kept|].
  intros [|f files] w'; apply R_refl.
Qed.

Lemma folder_exists_kept folder_name parent w : R w (folder_exists folder_name parent w).2.
Proof.
  unfold folder_exists. apply bind_kept; [apply files_list_kept|]. intros files w'. apply R_refl.
Qed.

Lemma files_create_kept body media_body path w : R w (files_create body media_body path w).2.
Proof.
  unfold files_create. apply bind_kept; [apply R_send|]. intros _ w'.
  unfold mbind, M_bind, Eff.get, Eff.put, mret, M_ret. simpl. apply R_add.
Qed.

Lemma files_update_kept fileId data w :
  ow = true → R w (files_update fileId None (Some data) w).2.
Proof.
  intros How. unfold files_update. apply bind_kept; [apply R_send|]. intros _ w'.
  unfold mbind, M_bind, Eff.get, Eff.put, mret, M_ret, raise.
  case_bool_decide; simpl; [by apply R_update | apply R_refl].
Qed.

Lemma MediaFileUpload_state file_path w : (MediaFileUpload file_path w).2 = w.
Proof.
  unfold MediaFileUpload, mbind, M_bind, Eff.get.
  by destruct (lookup (w_fs w) file_path) as [[data|es]|].
Qed.

Lemma upload_file_kept file_path folder_id w : R w (upload_file file_path folder_id ow w).2.
Proof.
  unfold upload_file. bind_step. unfold Eff.get at 1.
  destruct (negb (os_path_exists (w_fs w) file_path)); [apply R_refl|].
  apply bind_kept; [apply file_exists_kept|]. intros existing w1.
  destruct (truthy_opt existing).
  - remember ow as b eqn:How in |- *. destruct b; [|apply R_refl].
    apply try_http_kept; [|intros; apply R_refl].
    apply bind_kept; [rewrite MediaFileUpload_state; apply R_refl|]. intros media w2.
    apply bind_kept; [by apply files_update_kept|]. intros; apply R_refl.
  - apply try_http_kept; [|intros; apply R_refl].
    apply bind_kept; [rewrite MediaFileUpload_state; apply R_refl|]. intros media w2.
    apply bind_kept; [apply files_create_kept|]. intros; apply R_refl.
Qed.

Lemma create_folder_kept folder_name parent w : R w (create_folder folder_name parent w).2.
Proof.
  unfold create_folder. apply try_http_kept; [|intros; apply R_refl].
  apply bind_kept; [apply folder_exists_kept|]. intros [|] w1; [apply R_refl|].
  apply bind_kept; [apply files_create_kept|]. intros; apply R_refl.
Qed.

Lemma create_drive_subfolder_kept parent name w :
  R w (create_drive_subfolder parent name w).2.
Proof.
  unfold create_drive_subfolder.
  apply bind_kept; [apply folder_exists_kept|]. intros [|] w1; [|apply create_folder_kept].
  apply bind_kept; [apply files_list_kept|]. intros [|f files] w2; apply R_refl.
Qed.

Lemma dirs_loop_kept current_folder_id root dirs : ∀ folder_mapping w,
  R w (dirs_loop current_folder_id root dirs folder_mapping w).2.
Proof.
  induction dirs as [|directory rest IH]; intros m w; [apply R_refl|].
  simpl. apply bind_kept; [apply create_drive_subfolder_kept|]. intros folder_id w1. apply IH.
Qed.

Lemma files_loop_kept current_folder_id root files : ∀ w,
  R w (files_loop current_folder_id root files ow w).2.
Proof.
  induction files as [|file rest IH]; intros w; [apply R_refl|].
  simpl. apply bind_kept; [apply upload_file_kept | intros _ w'; apply IH].
Qed.

Lemma walk_loop_kept triples : ∀ folder_mapping w,
  R w (walk_loop triples folder_mapping ow w).2.
Proof.
  induction triples as [|[[root dirs] files] rest IH]; intros m w; [apply R_refl|].
  simpl. destruct (m !! root) as [current_folder_id|]; [|apply R_refl].
  apply bind_kept; [apply dirs_loop_kept|]. intros m' w'.
  apply bind_kept; [apply files_loop_kept|]. intros _ w''. apply IH.
Qed.

Lemma upload_to_folder_kept local_path parent_folder_id w :
  R w (upload_to_folder local_path parent_folder_id ow w).2.
Proof. unfold upload_to_folder, mbind, M_bind, Eff.get. apply walk_loop_kept. Qed.

Lemma try_except_state {A} (body : M world A) (a : A) w :
  (try_except body (λ _, mret a) w).2 = (body w).2.
Proof. unfold try_except. by destruct (body w) as [[x|c|e] w']. Qed.

Lemma main_kept (a : args) w : overwrite a = ow → R w (main a w).2.
Proof.
  intros How. unfold main. rewrite try_except_state.
  bind_step. unfold Eff.get at 1. rewrite How.
  destruct (os_path_isdir _ _).
  - destruct (create_folder_flag a).
    + apply bind_kept; [apply folder_exists_kept|]. intros [|] w1; [apply R_refl|].
      apply bind_kept; [apply create_folder_kept|]. intros [folder_id|] w2; [|apply R_refl].
      apply upload_to_folder_kept.
    + apply bind_kept; [apply folder_exists_kept|]. intros [|] w1; [|apply R_refl].
      apply upload_to_folder_kept.
  - destruct (os_path_isfile _ _); [|apply R_refl].
    apply bind_kept; [apply upload_file_kept|]. intros _ w3. apply R_refl.
Qed.
End Kept.

Lemma send_grows r w : grows w (send r w).2.
Proof.
  unfold send. destruct (w_faults w) as [|[|] l]; simpl;
    (split; [done|]; split; [done|]; split; [done|]; split; [done|];
     exists []; by rewrite app_nil_r).
Qed.

Lemma add_grows w f : grows w (with_drive w (w_drive w ++ [f])).
Proof. split; [done|]. split; [done|]. split; [done|]. split; [done|]. by exists [f]. Qed.

Lemma update_listing_kept w fileId data :
  listing_kept w (with_drive w (map (λ f, if bool_decide (df_id f = fileId)
                                          then update_file None (Some data) f else f)
                                    (w_drive w))).
Proof.
  split; [done|]. split; [done|]. split; [done|]. split; [done|].
  exists []. rewrite app_nil_r. simpl.
  rewrite map_map. apply map_ext. intros g.
  case_bool_decide; [apply update_file_content_only | done].
Qed.

(** X15: the upload script reads the local file system without changing
    it, and on the remote side it only rewrites content and adds files:
    the files it found are listed afterwards in the same order with the
    identifier, name, MIME type, parents and trashed flag they had. *)
Theorem main_keeps_remote_metadata (a : args) w :
  w_fs (main a w).2 = w_fs w
  ∧ ∃ added, map metadata (w_drive (main a w).2) = map metadata (w_drive w) ++ added.
Proof.
  destruct (main_kept (overwrite a) listing_kept listing_kept_refl listing_kept_trans
              (λ r w, grows_listing_kept _ _ (send_grows r w))
              (λ w f, grows_listing_kept _ _ (add_grows w f))
              (λ _, update_listing_kept)
              a w eq_refl) as (Hfs & _ & _ & _ & Hadded).
  by split.
Qed.

(** X16: without [--overwrite] the upload script changes no remote file:
    the files it found are there afterwards, content included, followed
    by those it has added. *)
Theorem main_without_overwrite_only_adds (a : args) w :
  overwrite a = false →
  ∃ added, w_drive (main a w).2 = w_drive w ++ added.
Proof.
  intros How.
  destruct (main_kept false grows grows_refl grows_trans send_grows add_grows
              (λ H, match Bool.diff_false_true H with end) a w How)
    as (_ & _ & _ & _ & Hadded).
  exact Hadded.
Qed.

(** The sample folder, uploaded under a folder made for it: two files added. *)
Lemma main_without_overwrite_only_adds_witness :
  ∃ added,
    w_drive (main {| drive_folder_id := "P"; local_folder_or_filename := "/home/u/dl";
                     create_folder_flag := true; overwrite := false |} Sample.uw).2
    = w_drive Sample.uw ++ added
    ∧ length added = 2%nat.
Proof.
  destruct (main_without_overwrite_only_adds
              {| drive_folder_id := "P"; local_folder_or_filename := "/home/u/dl";
                 create_folder_flag := true; overwrite := false |} Sample.uw eq_refl)
    as (added & Hadded).
  exists added. split; [exact Hadded|].
  vm_compute in Hadded. by injection Hadded as <-.
Defined.
End Requests.

(** ** One request after another *)

Section Runs.
Import PyStr LocalFs Eff drive_upload_to_folder drive_create_folder upload_folder UploadOutcome.

Lemma send_run r w :
  send r w = (if refused w then Raise HttpError else Ok tt, sent w r).
Proof. unfold send, refused, sent. by destruct (w_faults w) as [|[|] l]. Qed.

Lemma answer_sent w r q : answer (sent w r) q = answer w q.
Proof. by destruct q. Qed.

Lemma files_list_run q w :
  files_list q w
  = (if refused w then Raise HttpError else Ok (answer w q), sent w (list_request q)).
Proof.
  unfold files_list. bind_step. rewrite send_run.
  destruct (refused w); [done|]. unfold mbind, M_bind, Eff.get, mret, M_ret.
  by rewrite answer_sent.
Qed.

Lemma file_exists_run file_name folder_id w :
  file_exists file_name folder_id w
  = (if refused w then Raise HttpError
     else Ok (df_id <$> head (answer w (files_named file_name folder_id))),
     sent w (list_request (files_named file_name folder_id))).
Proof.
  unfold file_exists. bind_step. rewrite files_list_run.
  destruct (refused w); [done|]. by destruct (answer w _).
Qed.

Lemma folder_exists_run folder_name parent w :
  folder_exists folder_name parent w
  = (if refused w then Raise HttpError
     else Ok (bool_decide (0 < length (answer w (folders_named folder_name parent)))%nat),
     sent w (list_request (folders_named folder_name parent))).
Proof.
  unfold folder_exists. bind_step. rewrite files_list_run. by destruct (refused w).
Qed.

Lemma files_create_run body media_body path w :
  files_create body media_body path w
  = if refused w then (Raise HttpError, sent w (create_request body media_body))
    else (Ok (w_new_id w (w_drive w)),
          with_drive (sent w (create_request body media_body))
            (w_drive w ++
               [{| df_id := w_new_id w (w_drive w);
                   df_name := default "Untitled" (md_name body);
                   df_mimeType := default (w_guess_mime w path) (md_mimeType body);
                   df_parents := default [] (md_parents body);
                   df_trashed := false;
                   df_content := default [] media_body |}])).
Proof.
  unfold files_create. bind_step. rewrite send_run. by destruct (refused w).
Qed.

Lemma files_update_run fileId body media_body w :
  files_update fileId body media_body w
  = if refused w || negb (bool_decide (fileId ∈ map df_id (w_drive w)))
    then (Raise HttpError, sent w (update_request fileId body media_body))
    else (Ok fileId,
          with_drive (sent w (update_request fileId body media_body))
            (map (λ f, if bool_decide (df_id f = fileId)
                       then update_file body media_body f else f) (w_drive w))).
Proof.
  unfold files_update. bind_step. rewrite send_run.
  destruct (refused w); [done|]. unfold mbind, M_bind, Eff.get, Eff.put, mret, M_ret, raise.
  simpl. by case_bool_decide.
Qed.

Lemma plain_files_named w file_name folder_id :
  plain file_name = true → plain folder_id = true →
  answer w (files_named file_name folder_id)
  = list_files_named (w_drive w) file_name folder_id.
Proof. intros H1 H2. simpl. by rewrite H1, H2. Qed.

Lemma plain_folders_named w folder_name parent :
  plain folder_name = true → plain parent = true →
  answer w (folders_named folder_name parent)
  = list_folders_named (w_drive w) folder_name parent.
Proof. intros H1 H2. simpl. by rewrite H1, H2. Qed.

Lemma head_filter_elem {A} (P : A → Prop) `{∀ x, Decision (P x)} (l : list A) x :
  head (filter P l) = Some x → x ∈ l ∧ P x.
Proof.
  intros Hh. assert (x ∈ filter P l) as Hin.
  { destruct (filter P l) as [|y l']; [done|]. injection Hh as ->. left. }
  by apply list_elem_of_filter in Hin as [? ?].
Qed.




(** C8: when [file_exists] has found a file of that name in the folder
    and overwrite is on, [upload_file] sends, after the list request, one
    request: an update of the identifier found, with the bytes of the local
    file and no body.  It returns that identifier, or [None] when the
    service refuses the update.  Afterwards every remote file has the
    metadata it had (identifier, name, MIME type, parents, trashed flag);
    after an update the files with that identifier hold the bytes of the
    local file and the others their old content, and after a refusal all
    have their old content; the local file system is as before. *)
Theorem upload_overwrite_keeps_metadata file_path folder_id w w1 existing data :
  lookup (w_fs w) file_path = Some (FsFile data) →
  file_exists (basename file_path) folder_id w = (Ok (Some existing), w1) →
  truthy existing = true →
  ∃ r w',
    upload_file file_path folder_id true w = (Ok r, w')
    ∧ w_sent w' = w_sent w ++ [list_request (files_named (basename file_path) folder_id);
                               update_request existing None (Some data)]
    ∧ w_fs w' = w_fs w
    ∧ map metadata (w_drive w') = map metadata (w_drive w)
    ∧ (r = Some existing
       ∧ (∀ i f, w_drive w !! i = Some f →
            ∃ f', w_drive w' !! i = Some f'
                  ∧ df_content f'
                    = if bool_decide (df_id f = existing) then data else df_content f)
       ∨ r = None ∧ w_drive w' = w_drive w)
    ∧ (refused w1 = false → existing ∈ map df_id (w_drive w) → r = Some existing).
Proof.
  intros Hl Hfound Ht.
  assert (w1 = sent w (list_request (files_named (basename file_path) folder_id))) as ->.
  { rewrite file_exists_run in Hfound. by injection Hfound as _ <-. }
  unfold upload_file. bind_step. unfold Eff.get at 1.
  unfold os_path_exists. rewrite bool_decide_eq_true_2 by (rewrite Hl; eauto).
  change (negb true) with false. cbv iota.
  bind_step. rewrite Hfound. cbv iota beta.
  change (truthy_opt (Some existing)) with (truthy existing). rewrite Ht.
  set (w1 := sent w _). unfold try_http.
  bind_step. unfold MediaFileUpload at 1. unfold mbind at 1, M_bind at 1, Eff.get at 1.
  change (w_fs w1) with (w_fs w). rewrite Hl.
  unfold mret at 1, M_ret at 1. cbv iota beta. bind_step.
  simpl default. rewrite files_update_run.
  destruct (refused w1 || negb (bool_decide (existing ∈ map df_id (w_drive w1)))) eqn:E.
  - exists None, (sent w1 (update_request existing None (Some data))).
    split; [done|]. split; [simpl; by rewrite <- app_assoc|]. split; [done|]. split; [done|].
    split; [by right|]. intros Hr Hin. rewrite Hr in E. simpl in E.
    by rewrite bool_decide_eq_true_2 in E.
  - eexists _, _. split; [reflexivity|]. split; [simpl; by rewrite <- app_assoc|].
    split; [done|]. split.
    { simpl. rewrite map_map. apply map_ext. intros g.
      destruct (bool_decide (df_id g = existing)); [apply update_file_content_only | done]. }
    split; [|done]. left. split; [done|].
    intros i f Hi. eexists. split.
    { simpl. change (map ?g ?l) with (g <$> l). rewrite list_lookup_fmap.
      change (w_drive w1) with (w_drive w). rewrite Hi. reflexivity. }
    simpl. destruct (bool_decide (df_id f = existing)); [by destruct f | done].
Qed.

(** The sample upload, through the theorem. *)
Lemma upload_overwrite_keeps_metadata_witness :
  ∃ w', upload_file "dl/a.pdf" "P" true Sample.uw = (Ok (Some "X1"), w')
        ∧ map df_parents (w_drive w') = [["root"]; ["P"]]
        ∧ map df_content (w_drive w') = [[]; [Byte.x00]].
Proof.
  destruct (upload_overwrite_keeps_metadata "dl/a.pdf" "P" Sample.uw
              (file_exists "a.pdf" "P" Sample.uw).2 "X1" [Byte.x00]
              eq_refl eq_refl eq_refl) as (r & w' & Hrun & _).
  exists w'. vm_compute in Hrun. injection Hrun as <- <-.
  split; [reflexivity|]. split; reflexivity.
Defined.
End Runs.

(** ** Uploading twice, creating twice *)

Section RemoteEdits.
Import PyStr LocalFs Eff drive_upload_to_folder drive_create_folder upload_folder UploadOutcome.

Lemma quietly_adds_refl w : w_faults w = [] → quietly_adds w w [].
Proof. intros H. repeat (split; [done|]). by rewrite app_nil_r. Qed.

Lemma quietly_adds_trans w1 w2 w3 a b :
  quietly_adds w1 w2 a → quietly_adds w2 w3 b → quietly_adds w1 w3 (a ++ b).
Proof.
  intros (Hf1 & Hn1 & Hg1 & Ha1 & Hq1 & Hd1) (Hf2 & Hn2 & Hg2 & Ha2 & Hq2 & Hd2).
  split; [congruence|]. split; [congruence|]. split; [congruence|]. split; [congruence|].
  split; [done|]. by rewrite Hd2, Hd1, <- app_assoc.
Qed.

Lemma quietly_adds_grows w w' added : quietly_adds w w' added → grows w w'.
Proof.
  intros (Hf & Hn & Hg & Ha & _ & Hd). repeat (split; [done|]). by exists added.
Qed.

Lemma quiet_not_refused w : w_faults w = [] → refused w = false.
Proof. intros H. unfold refused. by rewrite H. Qed.

Lemma quietly_sent w r : w_faults w = [] → refused w = false ∧ quietly_adds w (sent w r) [].
Proof.
  intros H. unfold refused, quietly_adds, sent. simpl. rewrite H.
  repeat (split; [done|]). by rewrite app_nil_r.
Qed.

Lemma quietly_created w r f :
  w_faults w = [] → quietly_adds w (with_drive (sent w r) (w_drive w ++ [f])) [f].
Proof.
  intros H. unfold quietly_adds, sent. simpl. by rewrite H.
Qed.


Lemma list_folders_named_app d1 d2 folder_name parent :
  list_folders_named (d1 ++ d2) folder_name parent
  = list_folders_named d1 folder_name parent ++ list_folders_named d2 folder_name parent.
Proof. apply filter_app. Qed.

Lemma head_app_Some {A} (l1 l2 : list A) x : head l1 = Some x → head (l1 ++ l2) = Some x.
Proof. by destruct l1. Qed.




Lemma create_folder_quiet folder_name parent w :
  w_faults w = [] → plain folder_name = true → plain parent = true →
  ∃ r w1,
    create_folder folder_name parent w = (Ok r, w1)
    ∧ match list_folders_named (w_drive w) folder_name parent with
      | _ :: _ => r = None ∧ quietly_adds w w1 []
      | [] => r = Some (w_new_id w (w_drive w))
              ∧ quietly_adds w w1 [new_folder w folder_name parent]
      end.
Proof.
  intros Hq Hn Hp.
  destruct (quietly_sent w (list_request (folders_named folder_name parent)) Hq) as [Hr Hs].
  set (w0 := sent w (list_request (folders_named folder_name parent))) in *.
  assert (w_faults w0 = []) as Hq0 by apply Hs.
  unfold create_folder, try_http. bind_step. rewrite folder_exists_run, Hr.
  cbv iota beta. fold w0. rewrite (plain_folders_named w _ _ Hn Hp).
  destruct (list_folders_named (w_drive w) folder_name parent) as [|f fs].
  - rewrite bool_decide_eq_false_2 by (simpl; lia). cbv iota.
    bind_step. rewrite files_create_run.
    destruct (quietly_sent w0 (folder_request folder_name parent) Hq0) as [-> _].
    eexists _, _. split; [reflexivity|]. split; [done|].
    apply (quietly_adds_trans w w0 _ [] _ Hs). apply (quietly_created w0 _ _ Hq0).
  - rewrite bool_decide_eq_true_2 by (simpl; lia). by exists None, w0.
Qed.

Lemma list_folders_named_new w folder_name parent :
  list_folders_named [new_folder w folder_name parent] folder_name parent
  = [new_folder w folder_name parent].
Proof.
  unfold list_folders_named. rewrite filter_cons_True; [done|].
  simpl. split; [left | done].
Qed.

(** X12: when the name and the parent identifier are plain and no request
    is refused, [create_folder] returns [None], the remote files unchanged,
    exactly when [folder_exists] holds before; otherwise it adds one folder
    at the end and returns its identifier; in both cases [folder_exists]
    holds afterwards and a second call returns [None] and leaves the
    remote files alone. *)
Theorem create_folder_then_exists folder_name parent w :
  plain folder_name = true →
  plain parent = true →
  w_faults w = [] →
  ∃ r w1,
    create_folder folder_name parent w = (Ok r, w1)
    ∧ (r = None ↔ (folder_exists folder_name parent w).1 = Ok true)
    ∧ (r = None → w_drive w1 = w_drive w)
    ∧ (∀ file_id, r = Some file_id →
         w_drive w1 = w_drive w ++ [new_folder w folder_name parent]
         ∧ file_id = df_id (new_folder w folder_name parent))
    ∧ (folder_exists folder_name parent w1).1 = Ok true
    ∧ ∃ w2, create_folder folder_name parent w1 = (Ok None, w2) ∧ w_drive w2 = w_drive w1.
Proof.
  intros Hn Hp Hq.
  destruct (create_folder_quiet folder_name parent w Hq Hn Hp) as (r & w1 & Hrun & Hcase).
  exists r, w1. split; [done|].
  assert (w_faults w1 = []
          ∧ ∃ f fs, list_folders_named (w_drive w1) folder_name parent = f :: fs)
    as (Hq1 & f1 & fs1 & Hfound1).
  { destruct (list_folders_named (w_drive w) folder_name parent) as [|f fs] eqn:E;
      destruct Hcase as [_ (_ & _ & _ & _ & Hq1 & Hd)]; (split; [done|]); rewrite Hd.
    - rewrite list_folders_named_app, E, list_folders_named_new. eauto.
    - rewrite app_nil_r, E. eauto. }
  rewrite folder_exists_run, (quiet_not_refused w Hq),
    (plain_folders_named w _ _ Hn Hp). cbn [fst].
  split; [|split; [|split; [|split]]].
  - destruct (list_folders_named (w_drive w) folder_name parent) as [|f fs];
      destruct Hcase as [-> _]; simpl; split; done.
  - intros ->. destruct (list_folders_named (w_drive w) folder_name parent) as [|f fs];
      destruct Hcase as [? (_ & _ & _ & _ & _ & Hd)]; [done|]. by rewrite app_nil_r in Hd.
  - intros file_id ->.
    destruct (list_folders_named (w_drive w) folder_name parent) as [|f fs];
      destruct Hcase as [[= ->] (_ & _ & _ & _ & _ & Hd)]. by split.
  - rewrite folder_exists_run, (quiet_not_refused w1 Hq1),
      (plain_folders_named w1 _ _ Hn Hp), Hfound1. cbn [fst].
    rewrite bool_decide_eq_true_2; [done | simpl; lia].
  - destruct (create_folder_quiet folder_name parent w1 Hq1 Hn Hp)
      as (r2 & w2 & Hrun2 & Hcase2).
    rewrite Hfound1 in Hcase2. destruct Hcase2 as [-> (_ & _ & _ & _ & _ & Hd2)].
    exists w2. split; [done|]. by rewrite app_nil_r in Hd2.
Qed.

(** A new folder under the sample folder, through the theorem. *)
Lemma create_folder_then_exists_witness :
  ∃ w1, create_folder "photos" "P" Sample.uw = (Ok (Some "N2"), w1)
        ∧ (folder_exists "photos" "P" w1).1 = Ok true.
Proof.
  destruct (create_folder_then_exists "photos" "P" Sample.uw eq_refl eq_refl eq_refl)
    as (r & w1 & Hrun & _ & _ & _ & Hexists & _).
  exists w1. split; [|exact Hexists].
  rewrite Hrun. vm_compute in Hrun. injection Hrun as <- _. reflexivity.
Defined.

Lemma create_drive_subfolder_quiet parent name w :
  w_faults w = [] → plain name = true → plain parent = true →
  ∃ w1,
    match list_folders_named (w_drive w) name parent with
    | f :: _ =>
        create_drive_subfolder parent name w = (Ok (Some (df_id f)), w1)
        ∧ quietly_adds w w1 []
    | [] =>
        create_drive_subfolder parent name w = (Ok (Some (w_new_id w (w_drive w))), w1)
        ∧ quietly_adds w w1 [new_folder w name parent]
    end.
Proof.
  intros Hq Hn Hp.
  destruct (quietly_sent w (list_request (folders_named name parent)) Hq) as [Hr Hs].
  set (w0 := sent w (list_request (folders_named name parent))) in *.
  assert (w_faults w0 = []) as Hq0 by apply Hs.
  destruct (list_folders_named (w_drive w) name parent) as [|f fs] eqn:E;
    unfold create_drive_subfolder; bind_step; rewrite folder_exists_run, Hr;
    cbv iota beta; fold w0; rewrite (plain_folders_named w _ _ Hn Hp), E.
  - rewrite bool_decide_eq_false_2 by (simpl; lia). cbv iota.
    destruct (create_folder_quiet name parent w0 Hq0 Hn Hp) as (r & w1 & Hrun & Hcase).
    change (w_drive w0) with (w_drive w) in Hcase. rewrite E in Hcase.
    destruct Hcase as [-> Hadds]. exists w1. split; [done|].
    by apply (quietly_adds_trans w w0 _ [] _ Hs).
  - rewrite bool_decide_eq_true_2 by (simpl; lia). cbv iota.
    bind_step. rewrite files_list_run.
    destruct (quietly_sent w0 (list_request (folders_named name parent)) Hq0) as [-> Hs0].
    cbv iota beta. rewrite (plain_folders_named w0 _ _ Hn Hp).
    change (w_drive w0) with (w_drive w). rewrite E.
    eexists. split; [reflexivity|].
    by apply (quietly_adds_trans w w0 _ [] [] Hs).
Qed.


End RemoteEdits.

(** ** The folder mapping of [upload_to_folder] *)

Section FolderUpload.
Import PyStr LocalFs Eff drive_upload_to_folder drive_create_folder upload_folder UploadOutcome.

Lemma fsnode_forall_ind (P : fsnode → Prop) :
  (∀ data, P (FsFile data)) →
  (∀ es, Forall (λ e, P e.2) es → P (FsDir es)) →
  ∀ n, P n.
Proof.
  intros Hfile Hdir. fix IH 1. intros [data|es]; [apply Hfile|]. apply Hdir.
  induction es as [|[name ch] es IHes]; constructor; [apply IH | exact IHes].
Qed.

Lemma covered_mono triples : ∀ known known',
  (∀ k, k ∈ known → k ∈ known') → covered known triples → covered known' triples.
Proof.
  induction triples as [|[[root dirs] files] rest IH]; intros known known' Hsub; [done|].
  simpl. intros [Hroot Hrest]. split; [by apply Hsub|].
  apply (IH (map (OsPath.join root) dirs ++ known)); [|done].
  intros k Hk. apply elem_of_app in Hk as [Hk|Hk]; apply elem_of_app; auto.
Qed.

Lemma covered_app triples1 : ∀ triples2 known,
  covered known triples1 → covered known triples2 → covered known (triples1 ++ triples2).
Proof.
  induction triples1 as [|[[root dirs] files] rest IH]; intros triples2 known; [done|].
  simpl. intros [Hroot Hrest] H2. split; [done|]. apply IH; [done|].
  apply (covered_mono _ known); [|done]. intros k Hk. apply elem_of_app. auto.
Qed.

(** [os.walk] names a directory in the [dirs] of its parent before it
    visits it. *)
Lemma covered_walk_node (n : fsnode) : ∀ top known,
  top ∈ known → covered known (walk_node top n).
Proof.
  induction n as [data|es IH] using fsnode_forall_ind; intros top known Htop; [done|].
  simpl. split; [done|].
  set (dirs := (filter (λ e, is_dir e.2 = true) es).*1).
  set (known' := map (OsPath.join top) dirs ++ known).
  assert (∀ e, e ∈ es → is_dir e.2 = true → OsPath.join top e.1 ∈ known') as Hdirs.
  { intros e He Hd. apply elem_of_app. left. apply list_elem_of_In, in_map, list_elem_of_In.
    apply list_elem_of_fmap. exists e. split; [done|]. by apply list_elem_of_filter. }
  clearbody known' dirs.
  induction IH as [|[name ch] es Hch _ IHes]; [done|].
  simpl flat_map. apply covered_app.
  - destruct ch as [data|es']; [done|].
    apply Hch. apply (Hdirs (name, FsDir es')); [left | done].
  - apply IHes. intros e He. apply Hdirs. by right.
Qed.

Lemma expected_bind {A B} (m : M world A) (k : A → M world B) w :
  expected (m w).1 →
  (∀ a w', m w = (Ok a, w') → expected (k a w').1) →
  expected ((m ≫= k) w).1.
Proof.
  intros Hm Hk. unfold mbind, M_bind.
  destruct (m w) as [[a|c|e] w']; simpl in *; [by apply Hk | |].
  - destruct Hm as [[a [=]]|[[=]|[=]]].
  - destruct Hm as [[a [=]]|[Hm|Hm]]; injection Hm as ->; [right; by left | right; by right].
Qed.

Lemma expected_try_http {A} (body handler : M world A) w :
  expected (body w).1 → (∀ w', expected (handler w').1) →
  expected (try_http body handler w).1.
Proof.
  intros Hb Hh. unfold try_http.
  destruct (body w) as [[a|c|[]] w']; simpl in *; done || apply Hh.
Qed.

Lemma file_exists_expected file_name folder_id w :
  expected (file_exists file_name folder_id w).1.
Proof.
  rewrite file_exists_run. destruct (refused w); [right; by right | left; eauto].
Qed.

Lemma MediaFileUpload_expected file_path w : expected (MediaFileUpload file_path w).1.
Proof.
  unfold MediaFileUpload, mbind, M_bind, Eff.get.
  destruct (lookup (w_fs w) file_path) as [[data|es]|];
    [left; eexists; reflexivity | right; by left | right; by left].
Qed.

Lemma upload_file_expected file_path folder_id overwrite w :
  expected (upload_file file_path folder_id overwrite w).1.
Proof.
  unfold upload_file. bind_step. unfold Eff.get at 1.
  destruct (negb (os_path_exists (w_fs w) file_path)); [right; by left|].
  apply expected_bind; [apply file_exists_expected|]. intros existing w1 _.
  destruct (truthy_opt existing).
  - destruct overwrite; [|left; eexists; reflexivity].
    apply expected_try_http; [|intros; left; eexists; reflexivity].
    apply expected_bind; [apply MediaFileUpload_expected|]. intros media w2 _.
    bind_step. rewrite files_update_run.
    destruct (_ || _); [right; by right | left; eexists; reflexivity].
  - apply expected_try_http; [|intros; left; eexists; reflexivity].
    apply expected_bind; [apply MediaFileUpload_expected|]. intros media w2 _.
    bind_step. rewrite files_create_run.
    destruct (refused w2); [right; by right | left; eexists; reflexivity].
Qed.

Lemma files_loop_expected current_folder_id root overwrite files : ∀ w,
  expected (files_loop current_folder_id root files overwrite w).1.
Proof.
  induction files as [|file rest IH]; intros w; [left; by exists tt|].
  simpl. apply expected_bind; [apply upload_file_expected|]. intros _ w' _. apply IH.
Qed.

(** [create_folder] catches every refusal. *)
Lemma create_folder_returns folder_name parent w :
  ∃ r w', create_folder folder_name parent w = (Ok r, w').
Proof.
  unfold create_folder, try_http. bind_step. rewrite folder_exists_run.
  destruct (refused w); [by eexists _, _|]. cbv iota beta.
  destruct (bool_decide _); [by eexists _, _|].
  bind_step. rewrite files_create_run.
  destruct (refused _); by eexists _, _.
Qed.

(** The second list request of [create_drive_subfolder] is answered as the
    first was: [results[0]] is there. *)
Lemma create_drive_subfolder_outcome parent name w :
  ∃ o w', create_drive_subfolder parent name w = (o, w')
          ∧ ((∃ r, o = Ok r) ∨ o = Raise HttpError).
Proof.
  unfold create_drive_subfolder. bind_step. rewrite folder_exists_run.
  destruct (refused w); [eexists _, _; split; [reflexivity | by right]|]. cbv iota beta.
  case_bool_decide as Hlen.
  - bind_step. rewrite files_list_run.
    destruct (refused _); [eexists _, _; split; [reflexivity | by right]|].
    cbv iota beta. rewrite answer_sent.
    destruct (answer w (folders_named name parent)); [simpl in Hlen; lia|].
    eexists _, _. split; [reflexivity|]. left. eauto.
  - destruct (create_folder_returns name parent
                (sent w (list_request (folders_named name parent)))) as (r & w' & ->).
    eexists _, _. split; [reflexivity|]. left. eauto.
Qed.

Lemma dirs_loop_outcome current_folder_id root dirs : ∀ folder_mapping w,
  (∃ folder_mapping' w',
     dirs_loop current_folder_id root dirs folder_mapping w = (Ok folder_mapping', w')
     ∧ (∀ k, is_Some (folder_mapping !! k) → is_Some (folder_mapping' !! k))
     ∧ (∀ d, d ∈ dirs → is_Some (folder_mapping' !! OsPath.join root d)))
  ∨ (dirs_loop current_folder_id root dirs folder_mapping w).1 = Raise HttpError.
Proof.
  induction dirs as [|directory rest IH]; intros m w.
  - left. exists m, w. split; [done|]. split; [done|].
    intros d Hd. by apply elem_of_nil in Hd.
  - simpl. unfold mbind, M_bind.
    destruct (create_drive_subfolder_outcome (py_format current_folder_id) directory w)
      as (o & w1 & -> & [[folder_id ->]| ->]); [|by right].
    destruct (IH (<[OsPath.join root directory := folder_id]> m) w1)
      as [(m' & w' & Hrun' & Hold & Hnew)|E]; [|by right].
    left. exists m', w'. split; [done|]. split.
    + intros k Hk. apply Hold.
      destruct (decide (OsPath.join root directory = k)) as [<-|Hne].
      * rewrite lookup_insert_eq. eauto.
      * by rewrite lookup_insert_ne.
    + intros d Hd. apply elem_of_cons in Hd as [->|Hd]; [|by apply Hnew].
      apply Hold. rewrite lookup_insert_eq. eauto.
Qed.

Lemma walk_loop_expected overwrite triples : ∀ known folder_mapping w,
  covered known triples →
  (∀ k, k ∈ known → is_Some (folder_mapping !! k)) →
  expected (walk_loop triples folder_mapping overwrite w).1.
Proof.
  induction triples as [|[[root dirs] files] rest IH]; intros known m w Hcov Hknown;
    [left; by exists tt|].
  destruct Hcov as [Hroot Hrest]. simpl.
  destruct (Hknown root Hroot) as [current_folder_id ->].
  destruct (dirs_loop_outcome current_folder_id root dirs m w)
    as [(m' & w' & Hrun & Hold & Hnew)|E].
  - bind_step. rewrite Hrun.
    apply expected_bind; [apply files_loop_expected|]. intros _ w'' _.
    apply (IH (map (OsPath.join root) dirs ++ known)); [done|].
    intros k Hk. apply elem_of_app in Hk as [Hk|Hk]; [|by apply Hold, Hknown].
    apply list_elem_of_In, in_map_iff in Hk as (d & <- & Hd). by apply Hnew, list_elem_of_In.
  - bind_step. destruct (dirs_loop _ _ _ _ w) as [o w']. simpl in E. subst o.
    right. by right.
Qed.

(** A run of [upload_to_folder] goes through the whole walk, or stops on
    the [OSError] of a local file that cannot be read, or on the
    [HttpError] of a request that the service refuses. *)
Lemma upload_to_folder_expected local_path parent_folder_id overwrite w :
  expected (upload_to_folder local_path parent_folder_id overwrite w).1.
Proof.
  unfold upload_to_folder, mbind, M_bind, Eff.get.
  apply (walk_loop_expected overwrite _ [local_path]).
  - unfold os_walk. destruct (lookup (w_fs w) local_path); [|done].
    apply covered_walk_node. left.
  - intros k Hk. apply list_elem_of_singleton in Hk as ->.
    rewrite lookup_singleton_eq. eauto.
Qed.

(** X14: [folder_mapping[root]] never raises [KeyError] in a run of
    [upload_to_folder]: every root that [os.walk] yields is the path given
    or was recorded, as [join(root, directory)], when its parent was
    visited. *)
Theorem upload_to_folder_finds_every_folder local_path parent_folder_id overwrite w :
  no_key_error (upload_to_folder local_path parent_folder_id overwrite w).1 = true.
Proof.
  destruct (upload_to_folder_expected local_path parent_folder_id overwrite w)
    as [[a ->]|[->| ->]]; reflexivity.
Qed.
End FolderUpload.

(** ** What a finished upload leaves on the remote side *)

Section RemoteListing.
Import PyStr LocalFs Eff drive_upload_to_folder drive_create_folder upload_folder UploadOutcome.

Lemma listing_kept_elem w w' f :
  listing_kept w w' → f ∈ w_drive w → ∃ f', f' ∈ w_drive w' ∧ metadata f' = metadata f.
Proof.
  intros (_ & _ & _ & _ & added & Ha) Hf.
  assert (metadata f ∈ map metadata (w_drive w')) as Hm.
  { rewrite Ha. apply elem_of_app. left. apply list_elem_of_In, in_map, list_elem_of_In, Hf. }
  apply list_elem_of_In, in_map_iff in Hm as (f' & Hmeta & Hf').
  exists f'. split; [by apply list_elem_of_In | done].
Qed.

Lemma listing_kept_has_folder w w' parent name folder_id :
  listing_kept w w' →
  has_folder (w_drive w) parent name folder_id → has_folder (w_drive w') parent name folder_id.
Proof.
  intros Hk (f & Hf & Hi & Hn & Hp & Hm & Ht).
  destruct (listing_kept_elem w w' f Hk Hf) as (f' & Hf' & Hmeta).
  unfold metadata in Hmeta. injection Hmeta as E1 E2 E3 E4 E5.
  exists f'. rewrite E1, E2, E3, E4, E5. done.
Qed.

Lemma listing_kept_has_file w w' parent name :
  listing_kept w w' → has_file (w_drive w) parent name → has_file (w_drive w') parent name.
Proof.
  intros Hk (f & Hf & Hn & Hp & Hm & Ht).
  destruct (listing_kept_elem w w' f Hk Hf) as (f' & Hf' & Hmeta).
  unfold metadata in Hmeta. injection Hmeta as E1 E2 E3 E4 E5.
  exists f'. rewrite E2, E3, E4, E5. done.
Qed.

Lemma ready_quietly_adds w w' added :
  ready w → quietly_adds w w' added → Forall (λ f, plain (df_id f) = true) added → ready w'.
Proof.
  intros (_ & Hg & Hn & Hids) (_ & En & Eg & _ & Hq & Hd) Hadded.
  split; [done|]. split; [by rewrite Eg|]. split; [by rewrite En|].
  rewrite Hd. by apply Forall_app.
Qed.

Lemma ready_sent w r : ready w → ready (sent w r).
Proof.
  intros Hready. apply (ready_quietly_adds w (sent w r) []); [done | | done].
  by apply quietly_sent, Hready.
Qed.

Lemma ready_update w fileId data :
  ready w →
  ready (with_drive w (map (λ f, if bool_decide (df_id f = fileId)
                                 then update_file None (Some data) f else f) (w_drive w))).
Proof.
  intros (Hq & Hg & Hn & Hids). split; [done|]. split; [done|]. split; [done|].
  simpl. rewrite Forall_forall in Hids. apply Forall_forall. intros f Hfin.
  apply list_elem_of_In, in_map_iff in Hfin as (f0 & <- & Hf0).
  apply list_elem_of_In in Hf0. specialize (Hids f0 Hf0).
  destruct (bool_decide (df_id f0 = fileId)); [by destruct f0 | done].
Qed.

Lemma plain_pretty_N_go (x : N) : ∀ s, plain s = true → plain (pretty_N_go x s) = true.
Proof.
  induction (N.lt_wf_0 x) as [x _ IH]. intros s Hs.
  destruct (decide (x = 0)%N) as [->|Hx]; [by rewrite pretty_N_go_0|].
  rewrite pretty_N_go_step by lia. apply IH; [apply N.div_lt; lia|].
  simpl. rewrite Hs, andb_true_r. unfold pretty_N_char. by repeat case_match.
Qed.

Lemma plain_pretty_nat (n : nat) : plain (pretty n) = true.
Proof.
  unfold pretty, pretty_nat, pretty, pretty_N. case_decide; [done|].
  by apply plain_pretty_N_go.
Qed.

Lemma ready_new_id w : ready w → plain (w_new_id w (w_drive w)) = true.
Proof. intros (_ & _ & Hn & _). apply Hn. Qed.

(** The [try] blocks of [upload_file], when no request is refused. *)
Lemma try_create_run file_path folder_id w :
  w_faults w = [] →
  try_http
    (media ← MediaFileUpload file_path;
     file_id ← files_create {| md_name := Some (basename file_path); md_mimeType := None;
                               md_parents := Some [folder_id] |} (Some media) file_path;
     mret (Some file_id)) (mret None) w
  = match lookup (w_fs w) file_path with
    | Some (FsFile data) =>
        (Ok (Some (w_new_id w (w_drive w))),
         with_drive (sent w (upload_request file_path folder_id data))
           (w_drive w ++ [uploaded w file_path folder_id data]))
    | _ => (Raise OSError, w)
    end.
Proof.
  intros Hq. unfold try_http. bind_step. unfold MediaFileUpload at 1.
  unfold mbind at 1, M_bind at 1, Eff.get at 1.
  destruct (lookup (w_fs w) file_path) as [[data|es]|]; try reflexivity.
  unfold mret at 1, M_ret at 1. cbv iota beta. bind_step. rewrite files_create_run.
  by rewrite (quiet_not_refused w Hq).
Qed.

Lemma try_update_run file_path fileId w :
  w_faults w = [] → fileId ∈ map df_id (w_drive w) →
  try_http
    (media ← MediaFileUpload file_path;
     file_id ← files_update fileId None (Some media);
     mret (Some file_id)) (mret None) w
  = match lookup (w_fs w) file_path with
    | Some (FsFile data) =>
        (Ok (Some fileId),
         with_drive (sent w (update_request fileId None (Some data)))
           (map (λ f, if bool_decide (df_id f = fileId)
                      then update_file None (Some data) f else f) (w_drive w)))
    | _ => (Raise OSError, w)
    end.
Proof.
  intros Hq Hin. unfold try_http. bind_step. unfold MediaFileUpload at 1.
  unfold mbind at 1, M_bind at 1, Eff.get at 1.
  destruct (lookup (w_fs w) file_path) as [[data|es]|]; try reflexivity.
  unfold mret at 1, M_ret at 1. cbv iota beta. bind_step. rewrite files_update_run.
  by rewrite (quiet_not_refused w Hq), bool_decide_eq_true_2.
Qed.

(** A successful upload, with or without overwrite, leaves a file of the
    name in the folder. *)
Lemma upload_file_places file_path folder_id ow w r w1 :
  ready w → plain (basename file_path) = true → plain folder_id = true →
  upload_file file_path folder_id ow w = (Ok r, w1) →
  ready w1 ∧ listing_kept w w1 ∧ has_file (w_drive w1) folder_id (basename file_path).
Proof.
  intros Hready Hn Hf Hrun. pose proof Hready as (Hq & Hguess & Hnew & Hids).
  destruct (quietly_sent w (list_request (files_named (basename file_path) folder_id)) Hq)
    as [Hr Hs].
  set (w0 := sent w (list_request (files_named (basename file_path) folder_id))) in *.
  assert (ready w0) as Hready0 by (by apply (ready_quietly_adds w w0 [])).
  assert (listing_kept w w0) as Hk0 by (eapply grows_listing_kept, quietly_adds_grows, Hs).
  unfold upload_file in Hrun. unfold mbind at 1, M_bind at 1, Eff.get at 1 in Hrun.
  destruct (negb (os_path_exists (w_fs w) file_path)); [discriminate|].
  unfold mbind at 1, M_bind at 1 in Hrun. rewrite file_exists_run, Hr in Hrun.
  cbv iota beta in Hrun. fold w0 in Hrun. rewrite (plain_files_named w _ _ Hn Hf) in Hrun.
  assert (∀ data, lookup (w_fs w0) file_path = Some (FsFile data) →
            let w' := with_drive (sent w0 (upload_request file_path folder_id data))
                        (w_drive w0 ++ [uploaded w0 file_path folder_id data]) in
            ready w' ∧ listing_kept w w'
            ∧ has_file (w_drive w') folder_id (basename file_path)) as Hcreate.
  { intros data Hl w'.
    assert (quietly_adds w0 w' [uploaded w0 file_path folder_id data]) as Ha
      by apply (quietly_created w0 _ _ (proj1 Hready0)).
    split; [|split].
    - apply (ready_quietly_adds w0 w' _ Hready0 Ha). constructor; [|done].
      apply (ready_new_id w0 Hready0).
    - apply (listing_kept_trans w w0); [done|].
      eapply grows_listing_kept, quietly_adds_grows, Ha.
    - exists (uploaded w0 file_path folder_id data).
      split; [apply elem_of_app; right; left|]. split; [done|]. split; [left|].
      split; [apply Hguess | done]. }
  destruct (head (list_files_named (w_drive w) (basename file_path) folder_id))
    as [g|] eqn:Hhead.
  - pose proof Hhead as Hh. unfold list_files_named in Hh.
    apply head_filter_elem in Hh as [Hin (Hp & Hname & Hmime & Htr)].
    assert (has_file (w_drive w) folder_id (basename file_path)) as Hhas by (by exists g).
    change (truthy_opt (df_id <$> Some g)) with (truthy (df_id g)) in Hrun.
    destruct (truthy (df_id g)).
    + destruct ow.
      * simpl default in Hrun. rewrite try_update_run in Hrun;
          [|apply Hready0 | by apply list_elem_of_In, in_map, list_elem_of_In].
        destruct (lookup (w_fs w0) file_path) as [[data|es]|]; try discriminate.
        injection Hrun as <- <-.
        assert (listing_kept w0
                  (with_drive (sent w0 (update_request (df_id g) None (Some data)))
                     (map (λ f, if bool_decide (df_id f = df_id g)
                                then update_file None (Some data) f else f) (w_drive w0))))
          as Hk1.
        { apply (listing_kept_trans _ (sent w0 (update_request (df_id g) None (Some data)))).
          - eapply grows_listing_kept, quietly_adds_grows, quietly_sent, Hready0.
          - apply (update_listing_kept (sent w0 _)). }
        split; [|split].
        -- apply (ready_update (sent w0 _)). by apply ready_sent.
        -- by apply (listing_kept_trans w w0).
        -- apply (listing_kept_has_file w); [by apply (listing_kept_trans w w0) | done].
      * injection Hrun as <- <-. split; [done|]. split; [done|].
        by apply (listing_kept_has_file w).
    + rewrite try_create_run in Hrun by apply Hready0.
      destruct (lookup (w_fs w0) file_path) as [[data|es]|] eqn:Hl; try discriminate.
      injection Hrun as <- <-. by apply Hcreate.
  - change (truthy_opt (df_id <$> None)) with false in Hrun. cbv iota in Hrun.
    rewrite try_create_run in Hrun by apply Hready0.
    destruct (lookup (w_fs w0) file_path) as [[data|es]|] eqn:Hl; try discriminate.
    injection Hrun as <- <-. by apply Hcreate.
Qed.

Lemma dirs_loop_places current_folder_id root dirs : ∀ folder_mapping w,
  ready w →
  plain (py_format current_folder_id) = true →
  Forall (λ d, plain d = true) dirs →
  NoDup (map (OsPath.join root) dirs) →
  (∀ k, k ∈ map (OsPath.join root) dirs → folder_mapping !! k = None) →
  ∃ folder_mapping' w',
    dirs_loop current_folder_id root dirs folder_mapping w = (Ok folder_mapping', w')
    ∧ ready w'
    ∧ grows w w'
    ∧ folder_mapping ⊆ folder_mapping'
    ∧ (∀ k, folder_mapping !! k = None → k ∉ map (OsPath.join root) dirs →
            folder_mapping' !! k = None)
    ∧ (∀ k c, folder_mapping' !! k = Some c → folder_mapping !! k = None →
              ∃ folder_id, c = Some folder_id ∧ plain folder_id = true)
    ∧ (∀ directory, directory ∈ dirs →
         ∃ folder_id,
           folder_mapping' !! OsPath.join root directory = Some (Some folder_id)
           ∧ has_folder (w_drive w') (py_format current_folder_id) directory folder_id).
Proof.
  induction dirs as [|directory rest IH]; intros m w Hready Hparent Hplain Hnodup Hfresh.
  - exists m, w. split; [done|]. split; [done|]. split; [apply grows_refl|]. split; [done|].
    split; [done|]. split; [intros k c H1 H2; congruence|].
    intros d Hd. by apply elem_of_nil in Hd.
  - simpl in Hnodup. apply NoDup_cons in Hnodup as [Hnotin Hnodup].
    apply Forall_cons in Hplain as [Hdir Hplain].
    simpl. bind_step.
    destruct (create_drive_subfolder_quiet (py_format current_folder_id) directory w
                (proj1 Hready) Hdir Hparent) as (w1 & Hcase).
    assert (∃ folder_id added,
              create_drive_subfolder (py_format current_folder_id) directory w
              = (Ok (Some folder_id), w1)
              ∧ quietly_adds w w1 added
              ∧ Forall (λ f, plain (df_id f) = true) added
              ∧ plain folder_id = true
              ∧ has_folder (w_drive w1) (py_format current_folder_id) directory folder_id)
      as (folder_id & added & -> & Hadds & Hadded & Hid & Hfolder).
    { destruct (list_folders_named (w_drive w) directory (py_format current_folder_id))
        as [|f fs] eqn:E; destruct Hcase as [Hrun Hadds].
      - eexists _, _. split; [done|]. split; [done|].
        split; [constructor; [apply (ready_new_id w Hready) | done]|].
        split; [apply (ready_new_id w Hready)|].
        exists (new_folder w directory (py_format current_folder_id)).
        destruct Hadds as (_ & _ & _ & _ & _ & ->).
        split; [apply elem_of_app; right; left|]. by repeat split; try left.
      - assert (f ∈ list_folders_named (w_drive w) directory (py_format current_folder_id))
          as Hf by (rewrite E; left).
        apply list_elem_of_filter in Hf as [(? & ? & ? & ?) Hf].
        eexists _, _. split; [done|]. split; [done|]. split; [done|].
        split.
        { destruct Hready as (_ & _ & _ & Hids). rewrite Forall_forall in Hids. by apply Hids. }
        exists f. destruct Hadds as (_ & _ & _ & _ & _ & ->). rewrite app_nil_r. done. }
    assert (ready w1) as Hready1 by (by apply (ready_quietly_adds w w1 added)).
    destruct (IH (<[OsPath.join root directory := Some folder_id]> m) w1 Hready1 Hparent
                Hplain Hnodup)
      as (m' & w' & Hrun' & Hready' & Hgrow' & Hsub & Hnone & Hvals & Hnew).
    { intros k Hk. rewrite lookup_insert_ne; [|by intros <-].
      apply Hfresh. by right. }
    exists m', w'. split; [done|]. split; [done|].
    split; [apply (grows_trans _ w1); [eapply quietly_adds_grows, Hadds | done]|].
    assert (m' !! OsPath.join root directory = Some (Some folder_id)) as Hkey.
    { apply (lookup_weaken _ _ _ _ (lookup_insert_eq m _ _) Hsub). }
    split; [|split; [|split]].
    + etrans; [|exact Hsub]. apply insert_subseteq, Hfresh. left.
    + intros k Hk Hnk. apply Hnone.
      * rewrite lookup_insert_ne; [done|]. intros <-. apply Hnk. left.
      * intros Hin. apply Hnk. by right.
    + intros k c Hc Hk.
      destruct (decide (OsPath.join root directory = k)) as [<-|Hne].
      * rewrite Hkey in Hc. injection Hc as <-. eauto.
      * apply (Hvals k c Hc). by rewrite lookup_insert_ne.
    + intros d Hd. apply elem_of_cons in Hd as [->|Hd]; [|by apply Hnew].
      exists folder_id. split; [done|].
      by apply (listing_kept_has_folder w1 w'); [apply grows_listing_kept|].
Qed.

Lemma files_loop_places current_folder_id root ow files : ∀ w w',
  ready w →
  plain (py_format current_folder_id) = true →
  Forall (λ file, plain (basename (OsPath.join root file)) = true) files →
  files_loop current_folder_id root files ow w = (Ok tt, w') →
  ready w' ∧ listing_kept w w'
  ∧ ∀ file, file ∈ files →
      has_file (w_drive w') (py_format current_folder_id) (basename (OsPath.join root file)).
Proof.
  induction files as [|file rest IH]; intros w w' Hready Hparent Hplain Hrun.
  - injection Hrun as <-. split; [done|]. split; [apply listing_kept_refl|].
    intros f Hf. by apply elem_of_nil in Hf.
  - apply Forall_cons in Hplain as [Hfile Hplain].
    simpl in Hrun. unfold mbind, M_bind in Hrun.
    destruct (upload_file _ _ _ w) as [[r|c|e] w1] eqn:Hup; try discriminate.
    destruct (upload_file_places _ _ _ _ _ _ Hready Hfile Hparent Hup) as (Hready1 & Hk1 & Hhas).
    destruct (IH w1 w' Hready1 Hparent Hplain Hrun) as (Hready' & Hk2 & Hrest).
    split; [done|]. split; [by apply (listing_kept_trans _ w1)|].
    intros f Hf. apply elem_of_cons in Hf as [->|Hf]; [|by apply Hrest].
    by apply (listing_kept_has_file w1 w').
Qed.

Lemma walk_loop_places ow triples : ∀ folder_mapping w w',
  ready w →
  (∀ k c, folder_mapping !! k = Some c → ∃ folder_id, c = Some folder_id ∧ plain folder_id = true) →
  Forall (λ name, plain name = true) (names_of triples) →
  NoDup (keys_of triples) →
  (∀ k, k ∈ keys_of triples → folder_mapping !! k = None) →
  walk_loop triples folder_mapping ow w = (Ok tt, w') →
  ∃ folder_mapping',
    folder_mapping ⊆ folder_mapping'
    ∧ listing_kept w w'
    ∧ Forall (placed (w_drive w') folder_mapping') triples.
Proof.
  induction triples as [|[[root dirs] files] rest IH];
    intros m w w' Hready Hvals Hnames Hnodup Hfresh Hrun.
  - injection Hrun as <-. exists m. split; [done|]. split; [apply listing_kept_refl|].
    constructor.
  - simpl in Hrun. destruct (m !! root) as [current_folder_id|] eqn:Hroot; [|discriminate].
    destruct (Hvals root _ Hroot) as (root_id & -> & Hroot_id).
    change (keys_of ((root, dirs, files) :: rest))
      with (map (OsPath.join root) dirs ++ keys_of rest) in Hnodup, Hfresh.
    change (names_of ((root, dirs, files) :: rest))
      with ((dirs ++ map (λ file, basename (OsPath.join root file)) files) ++ names_of rest)
      in Hnames.
    apply Forall_app in Hnames as [Hhere Hnames]. apply Forall_app in Hhere as [Hdirs Hfiles].
    apply NoDup_app in Hnodup as (Hnodup1 & Hdisj & Hnodup2).
    destruct (dirs_loop_places (Some root_id) root dirs m w Hready Hroot_id Hdirs Hnodup1)
      as (m1 & w1 & Hdl & Hready1 & Hgrow1 & Hsub1 & Hnone1 & Hvals1 & Hnew1).
    { intros k Hk. apply Hfresh, elem_of_app. by left. }
    unfold mbind at 1, M_bind at 1 in Hrun. rewrite Hdl in Hrun.
    unfold mbind, M_bind in Hrun.
    destruct (files_loop _ _ _ _ w1) as [[[]|c|e] w2] eqn:Hfl; try discriminate.
    destruct (files_loop_places (Some root_id) root ow files w1 w2 Hready1 Hroot_id)
      as (Hready2 & Hk2 & Hplaced); [|exact Hfl|].
    { apply Forall_forall. intros file Hin. rewrite Forall_forall in Hfiles. apply Hfiles.
      apply list_elem_of_In, (in_map (λ file, basename (OsPath.join root file))),
        list_elem_of_In, Hin. }
    destruct (IH m1 w2 w' Hready2) as (m' & Hsub' & Hk' & Hrest); [| done | done | | done |].
    { intros k c Hc. destruct (m !! k) as [c0|] eqn:Hk.
      - rewrite (lookup_weaken _ _ _ _ Hk Hsub1) in Hc. injection Hc as <-. by apply (Hvals k).
      - by apply (Hvals1 k c Hc). }
    { intros k Hk. apply Hnone1; [|by intros Hin; apply (Hdisj k Hin)].
      apply Hfresh, elem_of_app. by right. }
    exists m'. split; [by etrans|].
    split; [apply (listing_kept_trans _ w1); [by apply grows_listing_kept|];
            by apply (listing_kept_trans _ w2)|].
    constructor; [|done].
    exists (Some root_id).
    split; [apply (lookup_weaken m); [done | by etrans]|]. split.
    + intros d Hd. destruct (Hnew1 d Hd) as (folder_id & Hkey & Hfolder).
      exists folder_id. split; [by apply (lookup_weaken m1)|].
      apply (listing_kept_has_folder w1 w'); [by apply (listing_kept_trans _ w2)|done].
    + intros f Hf. apply (listing_kept_has_file w2 w'); [done|]. by apply Hplaced.
Qed.

(** X17: let no request be refused, no guessed MIME type be the folder
    type, the identifiers of the service, the identifier of the parent
    folder and the names of the directories and files of the walk be plain,
    and no two directories of the walk have the same path.  Then a run of
    [upload_to_folder] that reaches the end of the walk leaves, for each
    triple of the walk, under the folder recorded for its root (the parent
    folder given, for the top), a remote folder for each of its directories
    and a remote file that is no folder for each of its files, none
    trashed. *)
Theorem upload_to_folder_places_the_walk local_path parent_folder_id ow w w' :
  ready w →
  plain parent_folder_id = true →
  Forall (λ name, plain name = true) (names_of (os_walk (w_fs w) local_path)) →
  NoDup (local_path :: keys_of (os_walk (w_fs w) local_path)) →
  upload_to_folder local_path parent_folder_id ow w = (Ok tt, w') →
  ∃ folder_mapping,
    folder_mapping !! local_path = Some (Some parent_folder_id)
    ∧ Forall (placed (w_drive w') folder_mapping) (os_walk (w_fs w) local_path).
Proof.
  intros Hready Hparent Hnames Hnodup Hrun. apply NoDup_cons in Hnodup as [Hnotin Hnodup].
  unfold upload_to_folder, mbind, M_bind, Eff.get in Hrun.
  destruct (walk_loop_places ow (os_walk (w_fs w) local_path)
              {[local_path := Some parent_folder_id]} w w' Hready)
    as (m' & Hsub & _ & Hplaced); [| done | done | | exact Hrun |].
  { intros k c Hc. apply lookup_singleton_Some in Hc as [_ <-]. eauto. }
  { intros k Hk. apply lookup_singleton_ne. by intros <-. }
  exists m'. split; [|done].
  apply (lookup_weaken _ _ _ _ (lookup_singleton_eq _ _) Hsub).
Qed.

(** The sample home directory, uploaded under the folder ["P"]. *)
Lemma upload_to_folder_places_the_walk_witness :
  ∃ folder_mapping,
    (upload_to_folder "/home" "P" true Sample.uw).1 = Ok tt
    ∧ folder_mapping !! "/home" = Some (Some "P")
    ∧ Forall (placed (w_drive (upload_to_folder "/home" "P" true Sample.uw).2) folder_mapping)
        [("/home", ["u"], []); ("/home/u", ["dl"], []); ("/home/u/dl", [], ["a.pdf"])].
Proof.
  destruct (upload_to_folder_places_the_walk "/home" "P" true Sample.uw
              (upload_to_folder "/home" "P" true Sample.uw).2) as (m & Hm & Hplaced).
  - split; [reflexivity|]. split; [discriminate|]. split.
    + intros d. apply (plain_pretty_nat (length d)).
    + repeat constructor.
  - reflexivity.
  - vm_compute. repeat constructor.
  - apply (bool_decide_unpack _). vm_compute. reflexivity.
  - vm_compute. reflexivity.
  - exists m. split; [vm_compute; reflexivity|]. split; [exact Hm | exact Hplaced].
Defined.
End RemoteListing.
